(** * Knowledge-base loader and fixture loaders: a shallow embedding

    The development follows [loaders/loadAIKB.py] (class
    [AIKnowledgeBaseLoader]), [loaders/loadAllFixtures.py] and
    [loaders/loadTenant.py].

    - Python strings are [string]s: characters are byte-sized code points.
    - Python exceptions are values of [exn]; code that can raise returns a
      [result]; code that also talks to the ingestion service, sleeps,
      prints or touches the Django signals runs in the monad [M], a state
      monad over [world] whose state survives a raise (so that [try/finally]
      and [try/except] can be written as combinators).
    - Everything outside the program (the files on disk, the replies of the
      ingestion service, the outcome of [loaddata], two checks of
      [urllib.parse]) is a field of the record [env]. *)

From Stdlib Require Import String Ascii List ZArith NArith Lia Bool DecimalString.
From stdpp Require Import base gmap strings list sorting.
Import ListNotations.

Set Warnings "-clear-no-such-hyp".
Local Open Scope string_scope.
Local Open Scope list_scope.

(** ** Strings, as the Python built-ins treat them *)

Module Str.

Definition code (c : ascii) : nat := nat_of_ascii c.

Definition between (lo hi : nat) (c : ascii) : bool :=
  (lo <=? code c)%nat && (code c <=? hi)%nat.

(** [str.isspace] on the code points below 256. *)
Definition isspace (c : ascii) : bool :=
  between 9 13 c || between 28 32 c || (code c =? 133)%nat || (code c =? 160)%nat.

Definition isupper (c : ascii) : bool := between 65 90 c.
Definition islower (c : ascii) : bool := between 97 122 c.
Definition isdigit (c : ascii) : bool := between 48 57 c.
(** [c.isascii() and c.isalpha()] *)
Definition isascii_alpha (c : ascii) : bool := isupper c || islower c.

Definition lower_char (c : ascii) : ascii :=
  if isupper c then ascii_of_nat (code c + 32) else c.

Fixpoint lower (s : string) : string :=
  match s with
  | EmptyString => EmptyString
  | String c r => String (lower_char c) (lower r)
  end.

Definition is_empty (s : string) : bool :=
  match s with EmptyString => true | String _ _ => false end.

Fixpoint lstrip (p : ascii -> bool) (s : string) : string :=
  match s with
  | EmptyString => EmptyString
  | String c r => if p c then lstrip p r else s
  end.

Fixpoint rstrip (p : ascii -> bool) (s : string) : string :=
  match s with
  | EmptyString => EmptyString
  | String c r =>
      let r' := rstrip p r in
      if is_empty r' && p c then EmptyString else String c r'
  end.

(** [s.strip()] *)
Definition strip (s : string) : string := rstrip isspace (lstrip isspace s).

(** Every character that satisfies [p] is deleted, as by [s.replace(c, e)]
    with the empty string for [e]. *)
Fixpoint remove (p : ascii -> bool) (s : string) : string :=
  match s with
  | EmptyString => EmptyString
  | String c r => if p c then remove p r else String c (remove p r)
  end.

Fixpoint all (p : ascii -> bool) (s : string) : bool :=
  match s with
  | EmptyString => true
  | String c r => p c && all p r
  end.

(** [s.find(c)]: the index of the first [c], if any. *)
Fixpoint find (c : ascii) (s : string) : option nat :=
  match s with
  | EmptyString => None
  | String d r => if Ascii.eqb c d then Some O else option_map S (find c r)
  end.

(** [s[:n]] and [s[n:]] *)
Fixpoint take (n : nat) (s : string) : string :=
  match n, s with
  | S n', String c r => String c (take n' r)
  | _, _ => EmptyString
  end.

Fixpoint drop (n : nat) (s : string) : string :=
  match n, s with
  | S n', String _ r => drop n' r
  | _, _ => s
  end.

(** The longest prefix none of whose characters satisfies [p]. *)
Fixpoint take_until (p : ascii -> bool) (s : string) : string :=
  match s with
  | EmptyString => EmptyString
  | String c r => if p c then EmptyString else String c (take_until p r)
  end.

Fixpoint startswith (pre s : string) : bool :=
  match pre, s with
  | EmptyString, _ => true
  | String a p', String b s' => Ascii.eqb a b && startswith p' s'
  | String _ _, EmptyString => false
  end.

Definition endswith (suf s : string) : bool :=
  (String.length suf <=? String.length s)%nat
  && String.eqb (drop (String.length s - String.length suf) s) suf.

(** [needle in hay] *)
Fixpoint contains (needle hay : string) : bool :=
  startswith needle hay
  || match hay with
     | EmptyString => false
     | String _ r => contains needle r
     end.

(** [re.search(needle, hay, re.IGNORECASE)] for a literal [needle]: on
    byte-sized code points the only letters that fold together are the
    ASCII ones. *)
Definition contains_nocase (needle hay : string) : bool :=
  contains (lower needle) (lower hay).

(** [sorted], by code points. *)
Fixpoint insert_sorted (x : string) (l : list string) : list string :=
  match l with
  | [] => [x]
  | y :: r => if String.leb x y then x :: l else y :: insert_sorted x r
  end.

Definition sort (l : list string) : list string :=
  fold_right insert_sorted [] l.

End Str.

(** ** Exceptions and results *)

Inductive exn : Type :=
| Exception (msg : string)          (* [raise Exception(msg)] and service errors *)
| ValueError (msg : string)
| KeyError (key : string)
| OSError (msg : string)
| AttributeError (msg : string).

(** [str(e)] *)
Definition str_exn (e : exn) : string :=
  match e with
  | Exception m | ValueError m | OSError m | AttributeError m => m
  | KeyError k => "'" ++ k ++ "'"
  end.

Inductive result (A : Type) : Type :=
| Ok (a : A)
| Raise (e : exn).
Arguments Ok {A} a.
Arguments Raise {A} e.

(** ** JSON values, for the configuration documents of the service *)

#[warnings="-register-all"]
Inductive json : Type :=
| JNull
| JBool (b : bool)
| JNum (z : Z)
| JStr (s : string)
| JList (l : list json)
| JDict (kv : list (string * json)).

Module Dict.

(** [d.get(k)] on the items of a dict *)
Fixpoint get (k : string) (kv : list (string * json)) : option json :=
  match kv with
  | [] => None
  | (k', v) :: r => if String.eqb k k' then Some v else get k r
  end.

(** [d[k] = v]: an existing key keeps its place, a new one goes last. *)
Fixpoint set (k : string) (v : json) (kv : list (string * json))
  : list (string * json) :=
  match kv with
  | [] => [(k, v)]
  | (k', v') :: r =>
      if String.eqb k k' then (k, v) :: r else (k', v') :: set k v r
  end.

(** [j[k]], which raises on a missing key and on a value that is no dict. *)
Definition item (k : string) (j : json) : result json :=
  match j with
  | JDict kv =>
      match get k kv with
      | Some v => Ok v
      | None => Raise (KeyError k)
      end
  | _ => Raise (Exception "object is not subscriptable")
  end.

(** The value found by following a path of keys. *)
Fixpoint lookup (path : list string) (j : json) : option json :=
  match path with
  | [] => Some j
  | k :: p =>
      match j with
      | JDict kv =>
          match get k kv with
          | Some v => lookup p v
          | None => None
          end
      | _ => None
      end
  end.

End Dict.

(** ** The world outside the program *)

(** A file of a directory, as [open] and [json.load] give it: the value
    that was read, or the exception. *)
Inductive file : Type :=
| Unreadable (e : exn)        (* [open] or [json.load] raises *)
| Content (data : json).

(** Files of the usual shapes: a dict with a list of URLs, a dict without
    [urls], and a dict whose [urls] is no list. *)
Definition Urls (urls : list string) : file :=
  Content (JDict [("urls", JList (List.map JStr urls))]).

Definition NoUrlsField : file := Content (JDict []).

Definition UrlsNotAList : file := Content (JDict [("urls", JNull)]).

(** [type(j).__name__], for the message of an [AttributeError] *)
Definition type_name (j : json) : string :=
  match j with
  | JNull => "NoneType"
  | JBool _ => "bool"
  | JNum _ => "int"
  | JStr _ => "str"
  | JList _ => "list"
  | JDict _ => "dict"
  end.

Definition no_attribute (j : json) (attribute : string) : exn :=
  AttributeError ("'" ++ type_name j ++ "' object has no attribute '" ++ attribute ++ "'").

(** [get_data_source(...)['dataSource']] *)
Record data_source : Type := {
  ds_name : option string;
  ds_description : option string;
  ds_configuration : json
}.

(** [get_ingestion_job(...)['ingestionJob']]; [failureReasons] is read with
    [.get('failureReasons', [])]. *)
Record ingestion_job : Type := {
  status : string;
  failureReasons : list string
}.

Record env : Type := {
  catalogue_name : string;
  (** the directories that exist, with their entries as [os.listdir] yields them *)
  fs : string -> option (list (string * file));
  (** [lnineConnectors] *)
  knowledge_base_id : string;
  model_id : string;
  region_name : string;
  (** the checks of [urllib.parse.urlsplit]: on a network location that has
      both brackets, the message of the [ValueError] when the check raises;
      on one that is not ASCII, [true] when the check passes *)
  check_bracketed_netloc : string -> option string;
  checknetloc : string -> bool;
  (** the ingestion service: the reply to each call; [update_data_source]
      and [get_ingestion_job] are called more than once and are indexed by
      the number of earlier calls; a status query also takes some time *)
  list_data_sources_reply : result (list (string * string));  (* name, id *)
  create_data_source_reply : result string;
  get_data_source_reply : result data_source;
  update_data_source_reply : nat -> result unit;
  start_ingestion_job_reply : result string;
  get_ingestion_job_reply : nat -> N * result ingestion_job;
  (** [call_command('loaddata', path)] and the framework upsert *)
  loaddata_reply : string -> result unit;
  compliance_framework_reply : result unit
}.

(** The receivers of the three Django signals. *)
Inductive handler : Type :=
| pre_save_handler
| post_save_handler
| post_delete_handler
| other_receiver (n : nat).

#[global] Instance handler_eq_dec : EqDecision handler.
Proof. solve_decision. Defined.

Inductive signal : Type := pre_save | post_save | post_delete.

Record signals : Type := {
  pre_save_receivers : list handler;
  post_save_receivers : list handler;
  post_delete_receivers : list handler
}.

Definition receivers (sg : signal) (s : signals) : list handler :=
  match sg with
  | pre_save => pre_save_receivers s
  | post_save => post_save_receivers s
  | post_delete => post_delete_receivers s
  end.

Definition set_receivers (sg : signal) (l : list handler) (s : signals) : signals :=
  match sg with
  | pre_save => {| pre_save_receivers := l;
                   post_save_receivers := post_save_receivers s;
                   post_delete_receivers := post_delete_receivers s |}
  | post_save => {| pre_save_receivers := pre_save_receivers s;
                    post_save_receivers := l;
                    post_delete_receivers := post_delete_receivers s |}
  | post_delete => {| pre_save_receivers := pre_save_receivers s;
                      post_save_receivers := post_save_receivers s;
                      post_delete_receivers := l |}
  end.

(** [Signal.connect] registers a receiver once; [Signal.disconnect] removes it. *)
Definition connect_receiver (h : handler) (l : list handler) : list handler :=
  if decide (h ∈ l) then l else l ++ [h].

Definition disconnect_receiver (h : handler) (l : list handler) : list handler :=
  filter (λ h', h' ≠ h) l.

(** What validation reports about a URL. *)
Inductive issue : Type :=
| EmptyUrl (position : nat)
| InvalidFormat (url : string)
| VeryLong (len : nat) (url : string)
| Suspicious (url : string).

(** The lines the program prints that tell one run from another; banners
    and reminders are left out. *)
Inductive line : Type :=
| CatalogueDirNotFound
| UrlIssues (issues : list issue) (valid total : nat)
| AllUrlsPassed (n : nat)
| RemovedDuplicates (n : nat)
| UrlStats (count total : nat)
| LimitExceeded (total : nat)
| LimitOk
| NoUrlsFound
| LargeUrlCount (n : nat)
| CreateLimitExceeded (total : nat)
| FoundDataSource (id : string)
| CreatingDataSource
| CreatedDataSource (id : string)
| ErrorListing (msg : string)
| ErrorGetOrCreate (msg : string)
| ErrorCreating (msg : string)
| UpdatingDataSource (n : nat)
| UpdatedWebConfiguration
| UpdatedOk
| TryingWithoutVectorConfig
| UpdatedOkWithoutVectorConfig
| StillFailed (msg : string)
| ErrorUpdating (msg : string)
| StartingJob
| JobStarted (job_id : string)
| ErrorStartingJob (msg : string)
| Monitoring (job_id : string)
| IngestionCompleted
| IngestionFailed (reasons : list string)
| JobStatus (st : string) (elapsed : option N)
| ErrorCheckingJobStatus (msg : string)
| IngestionTimeout (minutes : N)
| FailedOrTimedOut
| Configured (urls : nat)
| LoadingFixture (name : string)
| FixturesLoaded (dir_name : string)
| ErrorLoadingFixturesFrom (dir_name msg : string)
| ErrorLoadingFixtures (msg : string)
| ErrorUpdatingFramework (msg : string).

Inductive event : Type :=
| Call (method : string) (kwargs : list (string * json))
| Sleep (seconds : N)
| LoadData (path : string)
| UpsertFramework
| Print (l : line).

Record world : Type := {
  trace : list event;              (* what happened so far, oldest first *)
  clock : N;                       (* [time.time()], in seconds *)
  data_source_id : option string;  (* [self.data_source_id] *)
  receivers_of : signals;
  updates_done : nat;              (* calls of [update_data_source] so far *)
  polls_done : nat                 (* calls of [get_ingestion_job] so far *)
}.

(** ** The monad of the program *)

Inductive outcome (A : Type) : Type :=
| Returns (a : A)
| Raises (e : exn)
| OutOfFuel.
Arguments Returns {A} a.
Arguments Raises {A} e.
Arguments OutOfFuel {A}.

Definition M (A : Type) : Type := world -> outcome A * world.

Definition ret {A} (a : A) : M A := fun w => (Returns a, w).
Definition raise {A} (e : exn) : M A := fun w => (Raises e, w).
Definition out_of_fuel {A} : M A := fun w => (OutOfFuel, w).

Definition bind {A B} (m : M A) (k : A -> M B) : M B :=
  fun w =>
    match m w with
    | (Returns a, w') => k a w'
    | (Raises e, w') => (Raises e, w')
    | (OutOfFuel, w') => (OutOfFuel, w')
    end.

Notation "x <- m ;; k" := (bind m (fun x => k))
  (at level 62, m at next level, right associativity).
Notation "m ;;; k" := (bind m (fun _ => k))
  (at level 62, right associativity).

(** [try: m  except Exception as e: h e] *)
Definition try_except {A} (m : M A) (h : exn -> M A) : M A :=
  fun w =>
    match m w with
    | (Raises e, w') => h e w'
    | r => r
    end.

(** [try: m  finally: f] *)
Definition try_finally {A} (m : M A) (f : M unit) : M A :=
  fun w =>
    match m w with
    | (OutOfFuel, w') => (OutOfFuel, w')
    | (r, w') =>
        match f w' with
        | (Returns _, w'') => (r, w'')
        | (Raises e, w'') => (Raises e, w'')
        | (OutOfFuel, w'') => (OutOfFuel, w'')
        end
    end.

Definition lift {A} (r : result A) : M A :=
  match r with
  | Ok a => ret a
  | Raise e => raise e
  end.

Definition get_world : M world := fun w => (Returns w, w).

Definition log (events : list event) (w : world) : world :=
  {| trace := trace w ++ events; clock := clock w;
     data_source_id := data_source_id w;
     receivers_of := receivers_of w;
     updates_done := updates_done w; polls_done := polls_done w |}.

Definition emit (e : event) : M unit := fun w => (Returns tt, log [e] w).

Definition print (l : line) : M unit := emit (Print l).

(** [time.time()] and [time.sleep] *)
Definition time : M N := fun w => (Returns (clock w), w).

Definition advance (d : N) : M unit :=
  fun w => (Returns tt,
            {| trace := trace w; clock := clock w + d;
               data_source_id := data_source_id w;
               receivers_of := receivers_of w;
               updates_done := updates_done w; polls_done := polls_done w |}).

Definition sleep (d : N) : M unit := emit (Sleep d) ;;; advance d.

Definition set_data_source_id (id : string) : M unit :=
  fun w => (Returns tt,
            {| trace := trace w; clock := clock w;
               data_source_id := Some id;
               receivers_of := receivers_of w;
               updates_done := updates_done w; polls_done := polls_done w |}).

Definition update_receivers (f : signals -> signals) : M unit :=
  fun w => (Returns tt,
            {| trace := trace w; clock := clock w;
               data_source_id := data_source_id w;
               receivers_of := f (receivers_of w);
               updates_done := updates_done w; polls_done := polls_done w |}).

(** [sg.connect(h)] and [sg.disconnect(h)] *)
Definition connect (sg : signal) (h : handler) : M unit :=
  update_receivers (fun s => set_receivers sg (connect_receiver h (receivers sg s)) s).

Definition disconnect (sg : signal) (h : handler) : M unit :=
  update_receivers (fun s => set_receivers sg (disconnect_receiver h (receivers sg s)) s).

Definition next_update : M nat :=
  fun w => (Returns (updates_done w),
            {| trace := trace w; clock := clock w;
               data_source_id := data_source_id w;
               receivers_of := receivers_of w;
               updates_done := S (updates_done w); polls_done := polls_done w |}).

Definition next_poll : M nat :=
  fun w => (Returns (polls_done w),
            {| trace := trace w; clock := clock w;
               data_source_id := data_source_id w;
               receivers_of := receivers_of w;
               updates_done := updates_done w; polls_done := S (polls_done w) |}).

(** A call of the ingestion service through the boto3 client: the call is
    recorded with its keyword arguments, then the service replies. *)
Definition call {A} (method : string) (kwargs : list (string * json))
    (reply : result A) : M A :=
  emit (Call method kwargs) ;;; lift reply.

Definition str_nat (n : nat) : string := NilZero.string_of_uint (Nat.to_uint n).

Definition json_of_id (id : option string) : json :=
  match id with
  | Some s => JStr s
  | None => JNull
  end.

(** [sum(len(url) for url in urls)] *)
Definition total_chars (urls : list string) : nat :=
  list_sum (List.map String.length urls).

(** ** [loaders/loadAIKB.py] *)

Section Loader.

Variable E : env.

Definition ai_kb_fixtures_dir : string := "fixtures/ai_kb/" ++ catalogue_name E.
Definition base_fixtures_dir : string := "fixtures/ai_kb/base".
Definition data_source_name : string :=
  "fixtures-" ++ catalogue_name E ++ "-kb-source".

(** [os.path.exists], [os.listdir] and [os.path.join] on the directories *)
Definition path_exists (p : string) : bool :=
  match fs E p with Some _ => true | None => false end.

Definition listdir (p : string) : result (list string) :=
  match fs E p with
  | Some entries => Ok (List.map fst entries)
  | None => Raise (OSError ("No such file or directory: " ++ p))
  end.

Definition path_join (d f : string) : string := d ++ "/" ++ f.

Fixpoint read_file (name : string) (entries : list (string * file)) : file :=
  match entries with
  | [] => Unreadable (OSError ("No such file or directory: " ++ name))
  | (n, f) :: r => if String.eqb name n then f else read_file name r
  end.

(** *** [urllib.parse.urlparse]: the scheme and the network location *)

Definition c0_control_or_space (c : ascii) : bool := (Str.code c <=? 32)%nat.

Definition unsafe_url_byte (c : ascii) : bool :=
  (Str.code c =? 9)%nat || (Str.code c =? 13)%nat || (Str.code c =? 10)%nat.

Definition scheme_char (c : ascii) : bool :=
  Str.islower c || Str.isupper c || Str.isdigit c
  || Ascii.eqb c "+" || Ascii.eqb c "-" || Ascii.eqb c ".".

Definition netloc_delim (c : ascii) : bool :=
  Ascii.eqb c "/" || Ascii.eqb c "?" || Ascii.eqb c "#".

Definition isascii (s : string) : bool :=
  Str.all (fun c => (Str.code c <? 128)%nat) s.

(** The scheme, when the text before the first colon is one, and the rest. *)
Definition split_scheme (url : string) : string * string :=
  match Str.find ":" url, url with
  | Some (S i), String c0 _ =>
      if Str.isascii_alpha c0 && Str.all scheme_char (Str.take (S i) url)
      then (Str.lower (Str.take (S i) url), Str.drop (S (S i)) url)
      else (EmptyString, url)
  | _, _ => (EmptyString, url)
  end.

(** [(parsed.scheme, parsed.netloc)], or the [ValueError] of [urlsplit]. *)
Definition urlparse (url : string) : result (string * string) :=
  let url := Str.lstrip c0_control_or_space url in
  let url := Str.remove unsafe_url_byte url in
  let '(scheme, url) := split_scheme url in
  if Str.startswith "//" url then
    let netloc := Str.take_until netloc_delim (Str.drop 2 url) in
    let opens := Str.contains "[" netloc in
    let closes := Str.contains "]" netloc in
    if xorb opens closes then Raise (ValueError "Invalid IPv6 URL")
    else
      match (if opens && closes then check_bracketed_netloc E netloc else None) with
      | Some msg => Raise (ValueError msg)
      | None =>
          if negb (Str.is_empty netloc || isascii netloc || checknetloc E netloc)
          then Raise (ValueError ("netloc '" ++ netloc ++ "' contains invalid "
                                  ++ "characters under NFKC normalization"))
          else Ok (scheme, netloc)
      end
  else Ok (scheme, EmptyString).

(** *** [_validate_and_clean_urls] *)

Definition suspicious_patterns : list string :=
  ["localhost"; "127.0.0.1"; ".local"; "test."; "staging."; "dev."].

Definition is_suspicious (clean_url : string) : bool :=
  existsb (fun pattern => Str.contains_nocase pattern clean_url) suspicious_patterns.

(** [url.strip()]: the items of the list are whatever the files hold, and
    only a string has the method. *)
Definition strip_item (url : json) : result string :=
  match url with
  | JStr s => Ok (Str.strip s)
  | _ => Raise (no_attribute url "strip")
  end.

(** The body of the loop for the item at index [i]: the cleaned URL when it
    is appended to [valid_urls], and what is appended to [issues_found]. *)
Definition check_url (i : nat) (url : json) : result (option string * list issue) :=
  match strip_item url with
  | Raise e => Raise e
  | Ok clean_url =>
      if Str.is_empty clean_url then Ok (None, [EmptyUrl (i + 1)])
      else
        match urlparse clean_url with
        | Raise e => Raise e
        | Ok (scheme, netloc) =>
            if Str.is_empty scheme || Str.is_empty netloc then
              Ok (None, [InvalidFormat (Str.take 50 clean_url)])
            else
              Ok (Some clean_url,
                  (if (200 <? String.length clean_url)%nat
                   then [VeryLong (String.length clean_url) (Str.take 50 clean_url)]
                   else [])
                  ++ (if is_suspicious clean_url
                      then [Suspicious (Str.take 50 clean_url)]
                      else []))
        end
  end.

(** The loop over [enumerate(urls)], from index [i], with the two lists it
    appends to. *)
Fixpoint validate_from (i : nat) (urls : list json)
    (valid_urls : list string) (issues_found : list issue)
  : result (list string * list issue) :=
  match urls with
  | [] => Ok (valid_urls, issues_found)
  | url :: rest =>
      match check_url i url with
      | Raise e => Raise e
      | Ok (kept, issues) =>
          validate_from (S i) rest (valid_urls ++ option_list kept)
            (issues_found ++ issues)
      end
  end.

Definition validate (urls : list json) : result (list string * list issue) :=
  validate_from 0 urls [] [].

Definition _validate_and_clean_urls (urls : list json) : M (list string) :=
  r <- lift (validate urls) ;;
  let '(valid_urls, issues_found) := r in
  (match issues_found with
   | [] => print (AllUrlsPassed (length valid_urls))
   | _ :: _ => print (UrlIssues issues_found (length valid_urls) (length urls))
   end) ;;;
  ret valid_urls.

(** *** [_deduplicate_urls] *)

Fixpoint dedup_from (all_urls : list string) (seen : gset string)
    (deduplicated : list string) : list string :=
  match all_urls with
  | [] => deduplicated
  | url :: rest =>
      if decide (url ∈ seen) then dedup_from rest seen deduplicated
      else dedup_from rest ({[url]} ∪ seen) (deduplicated ++ [url])
  end.

Definition deduplicate (all_urls : list string) : list string :=
  dedup_from all_urls ∅ [].

Definition _deduplicate_urls (all_urls : list string) : M (list string) :=
  let deduplicated := deduplicate all_urls in
  let removed_count := (length all_urls - length deduplicated)%nat in
  (if (0 <? removed_count)%nat then print (RemovedDuplicates removed_count)
   else ret tt) ;;;
  ret deduplicated.

(** *** [_load_catalogue_urls] *)

Definition is_url_file (f : string) : bool :=
  Str.endswith ".json" f && negb (String.eqb f "catalogue_info.json").

(** What one file adds to [all_urls]: the items of [data['urls']] when
    [data] is a dict with that key and the value is a list. *)
Definition urls_of_file (f : file) : list json :=
  match f with
  | Content (JDict items) =>
      match Dict.get "urls" items with
      | Some (JList urls) => urls
      | _ => []
      end
  | _ => []
  end.

Definition _load_catalogue_urls (directory_path : string) : list json :=
  match fs E directory_path with
  | None => []
  | Some entries =>
      let json_files := Str.sort (List.filter is_url_file (List.map fst entries)) in
      flat_map (fun json_file => urls_of_file (read_file json_file entries)) json_files
  end.

(** The base URLs first, then those of the catalogue: the lines that
    [load_catalogue] and [_create_catalogue_data_source] both start with. *)
Definition uses_base : bool :=
  path_exists base_fixtures_dir && negb (String.eqb (catalogue_name E) "base").

Definition all_catalogue_urls : list json :=
  (if uses_base then _load_catalogue_urls base_fixtures_dir else [])
  ++ _load_catalogue_urls ai_kb_fixtures_dir.

(** *** The calls of the ingestion service *)

Definition kb_arg : string * json := ("knowledgeBaseId", JStr (knowledge_base_id E)).

Definition ds_arg (w : world) : string * json :=
  ("dataSourceId", json_of_id (data_source_id w)).

(** *** [_find_data_source_by_name] *)

Definition _find_data_source_by_name (name : string) : M (option (string * string)) :=
  try_except
    (summaries <- call "list_data_sources" [kb_arg] (list_data_sources_reply E) ;;
     ret (List.find (fun ds => String.eqb (fst ds) name) summaries))
    (fun e => print (ErrorListing (str_exn e)) ;;; ret None).

(** *** [_create_catalogue_data_source] *)

Definition seed_urls_of (urls : list string) : json :=
  JList (List.map (fun url => JDict [("url", JStr url)]) urls).

Definition new_web_configuration (seed_urls : json) : json :=
  JDict [("type", JStr "WEB");
         ("webConfiguration",
          JDict [("sourceConfiguration",
                  JDict [("urlConfiguration", JDict [("seedUrls", seed_urls)])]);
                 ("crawlerConfiguration",
                  JDict [("crawlerLimits", JDict [("rateLimit", JNum 300)]);
                         ("inclusionFilters", JList [JStr ".*"])])])].

Definition parser_configuration (region claude_model_id : string) : json :=
  JDict [("parsingConfiguration",
          JDict [("parsingStrategy", JStr "BEDROCK_FOUNDATION_MODEL");
                 ("bedrockFoundationModelConfiguration",
                  JDict [("modelArn",
                          JStr ("arn:aws:bedrock:" ++ region
                                ++ "::foundation-model/" ++ claude_model_id))])])].

Definition _create_catalogue_data_source : M string :=
  try_except
    (let all_urls := all_catalogue_urls in
     validated_urls <- _validate_and_clean_urls all_urls ;;
     final_urls <- _deduplicate_urls validated_urls ;;
     (if (50 <? length final_urls)%nat then print (LargeUrlCount (length final_urls))
      else ret tt) ;;;
     let total := total_chars final_urls in
     if (3000 <? total)%nat then
       print (CreateLimitExceeded total) ;;;
       raise (Exception ("URL character limit exceeded: " ++ str_nat total ++ " > 3000"))
     else
       let seed_urls := seed_urls_of final_urls in
       let claude_model_id := model_id E in
       let region :=
         if Str.is_empty (region_name E) then "ca-central-1" else region_name E in
       id <- call "create_data_source"
               [kb_arg;
                ("name", JStr data_source_name);
                ("description",
                 JStr ("Fixture-managed data source for " ++ catalogue_name E
                       ++ " catalogue with Claude parser"));
                ("dataSourceConfiguration", new_web_configuration seed_urls);
                ("vectorIngestionConfiguration",
                 parser_configuration region claude_model_id)]
               (create_data_source_reply E) ;;
       print (CreatedDataSource id) ;;;
       ret id)
    (fun e => print (ErrorCreating (str_exn e)) ;;; raise e).

(** *** [_get_or_create_catalogue_data_source] *)

Definition _get_or_create_catalogue_data_source : M string :=
  try_except
    (existing_data_source <- _find_data_source_by_name data_source_name ;;
     match existing_data_source with
     | Some ds => print (FoundDataSource (snd ds)) ;;; ret (snd ds)
     | None => print CreatingDataSource ;;; _create_catalogue_data_source
     end)
    (fun e => print (ErrorGetOrCreate (str_exn e)) ;;; raise e).

(** *** [_update_data_source_urls] *)

(** [str(current_config.get('type'))], for the message of the exception;
    only strings and a missing key are rendered exactly. *)
Definition str_type (t : option json) : string :=
  match t with
  | Some (JStr s) => s
  | Some _ => "?"
  | None => "None"
  end.

(** [current_config['webConfiguration']['sourceConfiguration']
    ['urlConfiguration']['seedUrls'] = seed_urls]: three subscripts, then
    an item assignment; the dicts on the way keep everything else. *)
Definition set_seed_urls (seed_urls : json) (items : list (string * json))
  : result (list (string * json)) :=
  match Dict.item "webConfiguration" (JDict items) with
  | Raise e => Raise e
  | Ok web =>
      match Dict.item "sourceConfiguration" web with
      | Raise e => Raise e
      | Ok source =>
          match Dict.item "urlConfiguration" source with
          | Raise e => Raise e
          | Ok (JDict url_items) =>
              match web, source with
              | JDict web_items, JDict source_items =>
                  let url' := JDict (Dict.set "seedUrls" seed_urls url_items) in
                  let source' := JDict (Dict.set "urlConfiguration" url' source_items) in
                  let web' := JDict (Dict.set "sourceConfiguration" source' web_items) in
                  Ok (Dict.set "webConfiguration" web' items)
              | _, _ => Raise (Exception "object is not subscriptable")
              end
          | Ok _ => Raise (Exception "object does not support item assignment")
          end
      end
  end.

(** The configuration with the new seed URLs, as the [if]/[else] after
    [seed_urls = ...] leaves it. *)
Definition replace_seed_urls (seed_urls : json) (current_config : json)
  : result json :=
  match current_config with
  | JDict items =>
      match Dict.get "type" items, Dict.get "webConfiguration" items with
      | Some (JStr t), Some _ =>
          if String.eqb t "WEB" then
            match set_seed_urls seed_urls items with
            | Ok items' => Ok (JDict items')
            | Raise e => Raise e
            end
          else Raise (Exception ("Data source is not a web crawler (type: "
                                 ++ t ++ ")"))
      | t, _ => Raise (Exception ("Data source is not a web crawler (type: "
                                  ++ str_type t ++ ")"))
      end
  | _ => Raise (Exception "object has no attribute 'get'")
  end.

Definition update_request (w : world) (current_name current_description : string)
    (current_config : json) : list (string * json) :=
  [kb_arg; ds_arg w;
   ("name", JStr current_name);
   ("description",
    JStr (current_description ++ " - Updated " ++ catalogue_name E ++ " URLs"));
   ("dataSourceConfiguration", current_config)].

Definition update_data_source (kwargs : list (string * json)) : M unit :=
  n <- next_update ;;
  call "update_data_source" kwargs (update_data_source_reply E n).

Definition _update_data_source_urls (urls : list string) : M unit :=
  try_except
    (print (UpdatingDataSource (length urls)) ;;;
     w <- get_world ;;
     current_ds <- call "get_data_source" [kb_arg; ds_arg w] (get_data_source_reply E) ;;
     let current_name := default data_source_name (ds_name current_ds) in
     let current_description :=
       default "Catalogue-specific data source" (ds_description current_ds) in
     let seed_urls := seed_urls_of urls in
     current_config <- lift (replace_seed_urls seed_urls (ds_configuration current_ds)) ;;
     print UpdatedWebConfiguration ;;;
     try_except
       (update_data_source
          (update_request w current_name current_description current_config) ;;;
        print UpdatedOk)
       (fun update_error =>
          if Str.contains "vectorIngestionConfiguration" (str_exn update_error) then
            print TryingWithoutVectorConfig ;;;
            try_except
              (update_data_source
                 (update_request w current_name current_description current_config) ;;;
               print UpdatedOkWithoutVectorConfig)
              (fun second_error => print (StillFailed (str_exn second_error)))
          else raise update_error))
    (fun e => print (ErrorUpdating (str_exn e))).

(** *** [_start_ingestion_job] *)

Definition _start_ingestion_job : M string :=
  try_except
    (print StartingJob ;;;
     w <- get_world ;;
     job_id <- call "start_ingestion_job"
                 [kb_arg; ds_arg w;
                  ("description",
                   JStr ("LNine AI Knowledge Base ingestion - " ++ catalogue_name E
                         ++ " catalogue"))]
                 (start_ingestion_job_reply E) ;;
     print (JobStarted job_id) ;;;
     ret job_id)
    (fun e => print (ErrorStartingJob (str_exn e)) ;;; raise e).

(** *** [_wait_for_ingestion_completion] *)

(** One turn of the [while] body: [Some b] when the body executes
    [return b], [None] when it falls through to the next test of the
    loop condition. *)
Definition poll_once (job_id : string) (start_time : N) : M (option bool) :=
  try_except
    (w <- get_world ;;
     n <- next_poll ;;
     let '(latency, reply) := get_ingestion_job_reply E n in
     emit (Call "get_ingestion_job" [kb_arg; ds_arg w; ("ingestionJobId", JStr job_id)]) ;;;
     advance latency ;;;
     job <- lift reply ;;
     if String.eqb (status job) "COMPLETE" then
       print IngestionCompleted ;;;
       ret (Some true)
     else if String.eqb (status job) "FAILED" then
       print (IngestionFailed (failureReasons job)) ;;;
       ret (Some false)
     else if String.eqb (status job) "IN_PROGRESS" || String.eqb (status job) "STARTING" then
       now <- time ;;
       print (JobStatus (status job) (Some (now - start_time)%N)) ;;;
       sleep 30 ;;;
       ret None
     else
       print (JobStatus (status job) None) ;;;
       sleep 30 ;;;
       ret None)
    (fun e =>
       print (ErrorCheckingJobStatus (str_exn e)) ;;;
       sleep 30 ;;;
       ret None).

(** The [while] loop. Every turn that does not return sleeps 30 seconds,
    so [fuel] turns are enough when [30 * fuel] covers the timeout. *)
Fixpoint poll_loop (fuel : nat) (job_id : string) (start_time timeout_minutes : N)
  : M bool :=
  now <- time ;;
  if (now - start_time <? timeout_minutes * 60)%N then
    match fuel with
    | O => out_of_fuel
    | S fuel' =>
        r <- poll_once job_id start_time ;;
        match r with
        | Some b => ret b
        | None => poll_loop fuel' job_id start_time timeout_minutes
        end
    end
  else
    print (IngestionTimeout timeout_minutes) ;;;
    ret false.

Definition poll_fuel (timeout_minutes : N) : nat := N.to_nat (timeout_minutes * 2).

Definition _wait_for_ingestion_completion (job_id : string) (timeout_minutes : N)
  : M bool :=
  print (Monitoring job_id) ;;;
  start_time <- time ;;
  poll_loop (poll_fuel timeout_minutes) job_id start_time timeout_minutes.

(** *** The Django fixtures *)

Definition disconnect_audit_signals : M unit :=
  disconnect pre_save pre_save_handler ;;;
  disconnect post_save post_save_handler ;;;
  disconnect post_delete post_delete_handler.

Definition connect_audit_signals : M unit :=
  connect pre_save pre_save_handler ;;;
  connect post_save post_save_handler ;;;
  connect post_delete post_delete_handler.

(** [for fixture_file in fixtures: call_command('loaddata', ...)] *)
Fixpoint load_each (directory : string) (fixtures : list string) : M unit :=
  match fixtures with
  | [] => ret tt
  | fixture_file :: rest =>
      print (LoadingFixture fixture_file) ;;;
      emit (LoadData (path_join directory fixture_file)) ;;;
      lift (loaddata_reply E (path_join directory fixture_file)) ;;;
      load_each directory rest
  end.

Definition is_django_fixture (f : string) : bool :=
  Str.endswith ".json" f && Str.startswith "django_" f.

Definition _load_django_fixtures_from_dir (directory dir_name : string) : M unit :=
  try_except
    (names <- lift (listdir directory) ;;
     let django_fixtures := List.filter is_django_fixture names in
     match django_fixtures with
     | [] => ret tt
     | _ :: _ =>
         disconnect_audit_signals ;;;
         try_finally
           (load_each directory (Str.sort django_fixtures))
           connect_audit_signals ;;;
         print (FixturesLoaded dir_name)
     end)
    (fun e => print (ErrorLoadingFixturesFrom dir_name (str_exn e))).

(** [_update_compliance_framework]: when [catalogue_info.json] exists it is
    read, [catalogue_info.get] is evaluated for the arguments, and then
    [get_or_create] is called, whose outcome is a reply of [env]. A file
    that cannot be read, or that holds no dict, ends the [try] before the
    call. *)
Definition _update_compliance_framework : M unit :=
  try_except
    (match fs E ai_kb_fixtures_dir with
     | Some entries =>
         if existsb (String.eqb "catalogue_info.json") (List.map fst entries) then
           match read_file "catalogue_info.json" entries with
           | Unreadable e => raise e
           | Content (JDict _) =>
               emit UpsertFramework ;;;
               lift (compliance_framework_reply E)
           | Content catalogue_info => raise (no_attribute catalogue_info "get")
           end
         else ret tt
     | None => ret tt
     end)
    (fun e => print (ErrorUpdatingFramework (str_exn e))).

Definition _load_django_fixtures : M unit :=
  try_except
    ((if uses_base then _load_django_fixtures_from_dir base_fixtures_dir "base"
      else ret tt) ;;;
     _load_django_fixtures_from_dir ai_kb_fixtures_dir (catalogue_name E) ;;;
     _update_compliance_framework)
    (fun e => print (ErrorLoadingFixtures (str_exn e))).

(** *** [load_catalogue] *)

Definition load_catalogue : M bool :=
  if negb (path_exists ai_kb_fixtures_dir) then
    print CatalogueDirNotFound ;;;
    ret false
  else
    id <- _get_or_create_catalogue_data_source ;;
    set_data_source_id id ;;;
    let all_urls := all_catalogue_urls in
    match all_urls with
    | _ :: _ =>
        validated_urls <- _validate_and_clean_urls all_urls ;;
        final_urls <- _deduplicate_urls validated_urls ;;
        let total := total_chars final_urls in
        print (UrlStats (length final_urls) total) ;;;
        if (3000 <? total)%nat then
          print (LimitExceeded total) ;;;
          ret false
        else
          print LimitOk ;;;
          _update_data_source_urls final_urls ;;;
          job_id <- _start_ingestion_job ;;
          ingestion_success <- _wait_for_ingestion_completion job_id 20 ;;
          if ingestion_success then
            _load_django_fixtures ;;;
            print (Configured (length final_urls)) ;;;
            ret true
          else
            print FailedOrTimedOut ;;;
            ret false
    | [] =>
        print NoUrlsFound ;;;
        ret false
    end.

(** ** [loaders/loadAllFixtures.py] *)

Definition fixtures_dir : string := "fixtures".

Definition skip_fixtures : list string :=
  ["blueprint"; "colors"; "permissions"; "ato_status_choices"; "months";
   "risk_level_choices"; "controlset_types"; "audittrail"; "widgets";
   "support_case_request_types"].

(** [f.endswith('.json') and f.split('.')[0] not in skip_fixtures] *)
Definition is_loaded_fixture (f : string) : bool :=
  Str.endswith ".json" f
  && negb (existsb (String.eqb (Str.take_until (Ascii.eqb ".") f)) skip_fixtures).

Definition load_fixtures : M unit :=
  disconnect_audit_signals ;;;
  try_finally
    (names <- lift (listdir fixtures_dir) ;;
     let fixture_files := Str.sort (List.filter is_loaded_fixture names) in
     load_each fixtures_dir fixture_files)
    connect_audit_signals.

End Loader.

(** ** [load_ai_knowledge_base], the script of [loaders/loadAIKB.py] *)

(** What the script sees: its arguments, the file system, and for every
    catalogue the configuration and the replies that the loader of that
    catalogue gets. *)
Record script : Type := {
  argv : list string;                                   (* [sys.argv] *)
  files : string -> option (list (string * file));
  replies : string -> env
}.

(** [AIKnowledgeBaseLoader(catalogue)] *)
Definition loader_env (S : script) (catalogue : string) : env := {|
  catalogue_name := catalogue;
  fs := files S;
  knowledge_base_id := knowledge_base_id (replies S catalogue);
  model_id := model_id (replies S catalogue);
  region_name := region_name (replies S catalogue);
  check_bracketed_netloc := check_bracketed_netloc (replies S catalogue);
  checknetloc := checknetloc (replies S catalogue);
  list_data_sources_reply := list_data_sources_reply (replies S catalogue);
  create_data_source_reply := create_data_source_reply (replies S catalogue);
  get_data_source_reply := get_data_source_reply (replies S catalogue);
  update_data_source_reply := update_data_source_reply (replies S catalogue);
  start_ingestion_job_reply := start_ingestion_job_reply (replies S catalogue);
  get_ingestion_job_reply := get_ingestion_job_reply (replies S catalogue);
  loaddata_reply := loaddata_reply (replies S catalogue);
  compliance_framework_reply := compliance_framework_reply (replies S catalogue)
|}.

(** [__init__]: [self.data_source_id = None] *)
Definition new_loader : M unit :=
  fun w => (Returns tt,
            {| trace := trace w; clock := clock w;
               data_source_id := None;
               receivers_of := receivers_of w;
               updates_done := updates_done w; polls_done := polls_done w |}).

(** [s.lower()] on the code points below 256 *)
Definition lower_latin1 (c : ascii) : ascii :=
  if Str.isupper c || Str.between 192 214 c || Str.between 216 222 c
  then ascii_of_nat (Str.code c + 32) else c.

Fixpoint str_lower (s : string) : string :=
  match s with
  | EmptyString => EmptyString
  | String c r => String (lower_latin1 c) (str_lower r)
  end.

(** The directories of [fixtures/ai_kb] whose name has no leading dot, sorted. *)
Definition available_catalogues (S : script) : list string :=
  match files S "fixtures/ai_kb" with
  | Some entries =>
      Str.sort
        (List.filter
           (fun d =>
              match files S (path_join "fixtures/ai_kb" d) with
              | Some _ => negb (Str.startswith "." d)
              | None => false
              end)
           (List.map fst entries))
  | None => []
  end.

(** The names the script accepts whether or not they have a directory. *)
Definition known_catalogues : list string :=
  ["base"; "nist-800-53"; "itsg-33"; "fedramp"; "general"; "all"].

(** [available_catalogues[-1]], an [IndexError] on the empty list. *)
Definition last_catalogue (available : list string) : result string :=
  match last available with
  | Some catalogue => Ok catalogue
  | None => Raise (Exception "list index out of range")
  end.

(** The loop of the [all] mode over the catalogues that are left, with the
    value of [success] so far. *)
Fixpoint load_all (S : script) (available rest : list string) (success : bool)
  : M bool :=
  match rest with
  | [] => ret success
  | catalogue :: rest' =>
      new_loader ;;;
      catalogue_success <- load_catalogue (loader_env S catalogue) ;;
      let success := if catalogue_success then success else false in
      last_one <- lift (last_catalogue available) ;;
      (if negb (String.eqb catalogue last_one) then sleep 60 else ret tt) ;;;
      load_all S available rest' success
  end.

(** The exit status of the script: 1 after [sys.exit(1)], which no handler
    of the script catches, and 0 when the function returns. The lines the
    script prints itself are left out. *)
Definition load_ai_knowledge_base (S : script) : M nat :=
  let available := available_catalogues S in
  match argv S with
  | _ :: arg :: _ =>
      let catalogue_name := Str.strip (str_lower arg) in
      if existsb (String.eqb catalogue_name) known_catalogues
         || existsb (String.eqb catalogue_name) available
      then
        try_except
          (success <-
             (if negb (String.eqb catalogue_name "all") then
                new_loader ;;;
                load_catalogue (loader_env S catalogue_name)
              else load_all S available available true) ;;
           if success then
             if String.eqb catalogue_name "all" then
               lift (last_catalogue available) ;;;
               ret 0%nat
             else ret 0%nat
           else ret 1%nat)
          (fun e => ret 1%nat)
      else ret 1%nat
  | _ => ret 1%nat
  end.

(** ** [loaders/loadTenant.py] *)

(** A record of a fixture file, and the file, as [validate_ato_fixture_file]
    sees them after [json.load]. *)
Inductive fixture_record : Type :=
| NoFields                            (* no dict, or a dict without [fields] *)
| FieldsNotADict (error : string)     (* [record['fields'].items()] raises *)
| Fields (items : list (string * json)).

Inductive tenant_file : Type :=
| InvalidJson (error : string)        (* [json.JSONDecodeError], with [str(e)] *)
| CannotRead (error : string)         (* another exception of [open] or [json.load] *)
| NotAList
| Records (data : list fixture_record).

(** The directories of the tenants, with their entries as [os.listdir]
    yields them. *)
Definition tenant_fs : Type := string -> option (list (string * tenant_file)).

Fixpoint read_tenant_file (name : string) (entries : list (string * tenant_file))
  : tenant_file :=
  match entries with
  | [] => CannotRead ("No such file or directory: " +:+ name)
  | (n, f) :: r => if String.eqb name n then f else read_tenant_file name r
  end.

(** [', '.join(l)] *)
Fixpoint join (sep : string) (l : list string) : string :=
  match l with
  | [] => EmptyString
  | [x] => x
  | x :: r => x +:+ sep +:+ join sep r
  end.

(** *** [validate_ato_fixture_file] *)

Definition optional_fields : list string :=
  ["description"; "bio"; "notes"; "comments"; "logo"; "avatar";
   "profile_picture"; "website"; "linkedin_profile"; "github_profile";
   "fax"; "mobile"; "last_login"; "otp_code"; "user_token"].

Definition critical_fields : list string :=
  ["name"; "company_name"; "email"; "username"; "first_name"; "last_name"].

(** [field_value == ''] *)
Definition is_empty_string (v : json) : bool :=
  match v with
  | JStr s => Str.is_empty s
  | _ => false
  end.

(** The loop over the items of one record, with the two accumulators. *)
Fixpoint scan_fields (items : list (string * json))
    (empty_string_count : nat) (required_fields_empty : list string)
  : nat * list string :=
  match items with
  | [] => (empty_string_count, required_fields_empty)
  | (field_name, field_value) :: rest =>
      if is_empty_string field_value
         && negb (existsb (String.eqb field_name) optional_fields)
      then
        scan_fields rest (S empty_string_count)
          (if existsb (String.eqb field_name) critical_fields
           then required_fields_empty ++ [field_name]
           else required_fields_empty)
      else scan_fields rest empty_string_count required_fields_empty
  end.

(** The loop over the records. *)
Fixpoint scan_records (data : list fixture_record)
    (empty_string_count : nat) (required_fields_empty : list string)
  : result (nat * list string) :=
  match data with
  | [] => Ok (empty_string_count, required_fields_empty)
  | NoFields :: rest => scan_records rest empty_string_count required_fields_empty
  | FieldsNotADict error :: _ => Raise (Exception error)
  | Fields items :: rest =>
      let '(count, required) :=
        scan_fields items empty_string_count required_fields_empty in
      scan_records rest count required
  end.

(** [(is_valid, message)] for the file as it was read. *)
Definition validate_ato_fixture_file (f : tenant_file) : bool * string :=
  match f with
  | InvalidJson error => (false, "Invalid JSON: " +:+ error)
  | CannotRead error => (false, "Error reading file: " +:+ error)
  | NotAList => (false, "Not a valid Django fixture format (should be a list)")
  | Records [] => (false, "Empty fixture file")
  | Records data =>
      match scan_records data 0 [] with
      | Raise e => (false, "Error reading file: " +:+ str_exn e)
      | Ok (empty_string_count, required_fields_empty) =>
          if (5 <? empty_string_count)%nat then
            (true, "Warning: " +:+ str_nat empty_string_count
                   +:+ " empty fields (may need population)")
          else
            match required_fields_empty with
            | _ :: _ =>
                (false, "Critical fields empty: "
                        +:+ join ", " (take 3 required_fields_empty))
            | [] =>
                (true, "Valid fixture with " +:+ str_nat (length data) +:+ " records")
            end
      end
  end.

(** *** [get_ato_fixture_files] *)

(** The two shapes of its result: a pair, or the four lists. *)
Inductive ato_fixture_files : Type :=
| NoFixtureFiles (error_message : string)
| FixtureFiles (fixture_files : list string)
    (skipped_files invalid_files warning_files : list (string * string)).

(** The loop over [all_json_files], with the lists it appends to. *)
Fixpoint sort_out (entries : list (string * tenant_file)) (all_json_files : list string)
    (fixture_files : list string) (invalid_files warning_files : list (string * string))
  : list string * list (string * string) * list (string * string) :=
  match all_json_files with
  | [] => (fixture_files, invalid_files, warning_files)
  | json_file :: rest =>
      let '(is_valid, message) :=
        validate_ato_fixture_file (read_tenant_file json_file entries) in
      if is_valid then
        sort_out entries rest (fixture_files ++ [json_file]) invalid_files
          (if Str.contains "Warning:" message
           then warning_files ++ [(json_file, message)]
           else warning_files)
      else
        sort_out entries rest fixture_files (invalid_files ++ [(json_file, message)])
          warning_files
  end.

Definition get_ato_fixture_files (fs : tenant_fs) (tenant_fixtures_dir : string)
  : ato_fixture_files :=
  match fs tenant_fixtures_dir with
  | None =>
      NoFixtureFiles ("Tenant directory does not exist: " +:+ tenant_fixtures_dir)
  | Some entries =>
      let all_json_files := List.filter (Str.endswith ".json") (List.map fst entries) in
      match all_json_files with
      | [] =>
          NoFixtureFiles ("No JSON fixture files found in " +:+ tenant_fixtures_dir)
      | _ :: _ =>
          let '(fixture_files, invalid_files, warning_files) :=
            sort_out entries all_json_files [] [] [] in
          FixtureFiles (Str.sort fixture_files) [] invalid_files warning_files
      end
  end.

(** *** [check_ato_workflow_completion] *)

(** [f'{tenant_name}'], and the truth value of an optional string *)
Definition str_option (s : option string) : string := default "None" s.

Definition truthy (s : option string) : bool :=
  match s with
  | Some (String _ _) => true
  | _ => false
  end.

Section Tenant.

(** The loader of the fixtures, and what [getRemoteTenant.py] does to the
    directories when it is run for a bucket. *)
Variable E : env.
Variable get_remote_tenant : string -> tenant_fs -> tenant_fs.

(** The result, and the directories as the check leaves them. *)
Definition check_ato_workflow_completion (fs : tenant_fs)
    (tenant_name remote_bucket : option string) : bool * tenant_fs :=
  match fs ("fixtures/tenants/" +:+ str_option tenant_name) with
  | None =>
      if negb (truthy remote_bucket) then (false, fs)
      else
        let fs := get_remote_tenant (str_option remote_bucket) fs in
        (match fs "fixtures/tenants/.temp" with Some _ => true | None => false end, fs)
  | Some entries =>
      match List.filter (Str.endswith ".json") (List.map fst entries) with
      | [] => (false, fs)
      | _ :: _ => (true, fs)
      end
  end.

(** *** [load_ato_tenant_fixtures] *)

(** The loop over [fixture_files], with [loaded_files] and [failed_files];
    the verbosity that [loaddata] is called with is left out. *)
Fixpoint load_each_ato (tenant_fixtures_dir : string) (fixture_files : list string)
    (loaded_files : list string) (failed_files : list (string * string))
  : M (list string * list (string * string)) :=
  match fixture_files with
  | [] => ret (loaded_files, failed_files)
  | fixture_file :: rest =>
      error <- try_except
                 (emit (LoadData (path_join tenant_fixtures_dir fixture_file)) ;;;
                  lift (loaddata_reply E (path_join tenant_fixtures_dir fixture_file)) ;;;
                  ret None)
                 (fun e => ret (Some (str_exn e))) ;;
      match error with
      | None =>
          load_each_ato tenant_fixtures_dir rest (loaded_files ++ [fixture_file])
            failed_files
      | Some error_msg =>
          load_each_ato tenant_fixtures_dir rest loaded_files
            (failed_files ++ [(fixture_file, error_msg)])
      end
  end.

(** What the function prints is left out: it follows from the lists. *)
Definition load_ato_tenant_fixtures (fs : tenant_fs)
    (tenant_name : option string) (verbose : bool) (remote_bucket : option string)
  : M bool :=
  let tenant_dir := if truthy tenant_name then str_option tenant_name else ".temp" in
  let tenant_fixtures_dir := "fixtures/tenants/" +:+ tenant_dir in
  let '(ready, fs) := check_ato_workflow_completion fs tenant_name remote_bucket in
  if negb ready then ret false
  else
    match get_ato_fixture_files fs tenant_fixtures_dir with
    | NoFixtureFiles _ => ret false
    | FixtureFiles fixture_files skipped_files invalid_files warning_files =>
        match invalid_files, fixture_files with
        | _ :: _, _ => ret false
        | [], [] => ret false
        | [], _ :: _ =>
            disconnect_audit_signals ;;;
            try_finally
              (try_except
                 (r <- load_each_ato tenant_fixtures_dir fixture_files [] [] ;;
                  let '(loaded_files, failed_files) := r in
                  match failed_files, loaded_files with
                  | _ :: _, _ => ret false
                  | [], _ :: _ => ret true
                  | [], [] => ret false
                  end)
                 (fun e => ret false))
              connect_audit_signals
        end
    end.

End Tenant.

(** ** Notions the statements use *)

(** The calls that change something at the ingestion service. *)
Definition is_mutation (ev : event) : bool :=
  match ev with
  | Call method _ =>
      String.eqb method "create_data_source"
      || String.eqb method "update_data_source"
      || String.eqb method "start_ingestion_job"
  | _ => false
  end.

(** [ev] is not one of them. *)
Definition no_mutation (ev : event) : Prop := is_mutation ev = false.

(** The index of the first occurrence of [u] in [l]. *)
Fixpoint index_of (u : string) (l : list string) : option nat :=
  match l with
  | [] => None
  | x :: r => if String.eqb u x then Some O else option_map S (index_of u r)
  end.

(** What [dedup_from] appends to [deduplicated]. *)
Fixpoint unseen (all_urls : list string) (seen : gset string) : list string :=
  match all_urls with
  | [] => []
  | url :: rest =>
      if decide (url ∈ seen) then unseen rest seen
      else url :: unseen rest ({[url]} ∪ seen)
  end.

(** The events a computation adds to the trace when it starts in [w]. *)
Definition new_events {A} (m : M A) (w : world) : list event :=
  drop (length (trace w)) (trace (snd (m w))).

(** [hoare P m R]: from every world, [m] extends the trace by events that
    satisfy [P], does not run out of fuel, and returns only values that
    satisfy [R]. *)
Definition hoare {A} (P : event → Prop) (m : M A) (R : A → Prop) : Prop :=
  ∀ w,
    (∃ new, trace (snd (m w)) = trace w ++ new ∧ Forall P new)
    ∧ match fst (m w) with
      | Returns a => R a
      | Raises _ => True
      | OutOfFuel => False
      end.

Definition any_value {A} : A → Prop := λ _, True.

(** The claim's words for the URLs that validation keeps: the trimmed
    string is not empty and parses with both a scheme and a host, the host
    being what [urlparse] calls the network location. *)
Definition has_scheme_and_host (E : env) (clean_url : string) : bool :=
  match urlparse E clean_url with
  | Ok (scheme, netloc) => negb (Str.is_empty scheme) && negb (Str.is_empty netloc)
  | Raise _ => false
  end.

Definition retained (E : env) (url : string) : bool :=
  negb (Str.is_empty (Str.strip url)) && has_scheme_and_host E (Str.strip url).

(** The strings among the items of a list. *)
Definition str_items (items : list json) : list string :=
  flat_map (λ item, match item with JStr s => [s] | _ => [] end) items.

(** The status queries, in the order the service answers them. *)
Definition latency (E : env) (k : nat) : N := fst (get_ingestion_job_reply E k).
Definition reply (E : env) (k : nat) : result ingestion_job :=
  snd (get_ingestion_job_reply E k).

(** What a reply to a status query means to the poll loop. *)
Inductive verdict : Type :=
| Complete
| Failed (reasons : list string)
| Pending.

Definition classify (r : result ingestion_job) : verdict :=
  match r with
  | Ok job =>
      if String.eqb (status job) "COMPLETE" then Complete
      else if String.eqb (status job) "FAILED" then Failed (failureReasons job)
      else Pending
  | Raise _ => Pending
  end.

(** The time that [n] queries take, from query [p] on, when each is followed
    by the sleep of 30 seconds. *)
Fixpoint elapsed_after (E : env) (p n : nat) : N :=
  match n with
  | O => 0
  | S n' => latency E p + 30 + elapsed_after E (S p) n'
  end.

(** What a turn of the poll loop that does not return adds to the trace. *)
Definition is_retry_event (ev : event) : bool :=
  match ev with
  | Call method _ => String.eqb method "get_ingestion_job"
  | Print (JobStatus _ _) | Print (ErrorCheckingJobStatus _) => true
  | Sleep d => N.eqb d 30
  | _ => false
  end.

Definition is_sleep (ev : event) : bool :=
  match ev with
  | Sleep _ => true
  | _ => false
  end.

Definition is_call (method : string) (ev : event) : bool :=
  match ev with
  | Call m _ => String.eqb m method
  | _ => false
  end.

(** The first [n] queries from query [p] on are all made within the budget
    [B], and none of them settles the job. *)
Definition pending_until (E : env) (p : nat) (B : N) (n : nat) : Prop :=
  ∀ i, (i < n)%nat →
       classify (reply E (p + i)) = Pending ∧ (elapsed_after E p i < B)%N.

(** After [n] such queries: the budget is used up; or query [n] is made and
    finds the job complete; or failed. *)
Definition times_out (E : env) (p : nat) (B : N) (n : nat) : Prop :=
  pending_until E p B n ∧ (B ≤ elapsed_after E p n)%N.

Definition completes_at (E : env) (p : nat) (B : N) (n : nat) : Prop :=
  pending_until E p B n ∧ (elapsed_after E p n < B)%N
  ∧ classify (reply E (p + n)) = Complete.

Definition fails_at (E : env) (p : nat) (B : N) (n : nat) (reasons : list string) : Prop :=
  pending_until E p B n ∧ (elapsed_after E p n < B)%N
  ∧ classify (reply E (p + n)) = Failed reasons.

Definition is_failed_print (ev : event) : bool :=
  match ev with
  | Print (IngestionFailed _) => true
  | _ => false
  end.

Definition is_timeout_print (ev : event) : bool :=
  match ev with
  | Print (IngestionTimeout _) => true
  | _ => false
  end.

Definition is_service_call (ev : event) : bool :=
  match ev with
  | Call _ _ => true
  | _ => false
  end.

(** Where the seed URLs live in a data-source configuration. *)
Definition seed_urls_path : list string :=
  ["webConfiguration"; "sourceConfiguration"; "urlConfiguration"; "seedUrls"].

(** Two paths part ways: at some depth both have a key, and the keys differ. *)
Fixpoint diverges (p q : list string) : bool :=
  match p, q with
  | a :: p', b :: q' => if String.eqb a b then diverges p' q' else true
  | _, _ => false
  end.

(** The first update is rejected with an error that names
    [vectorIngestionConfiguration]. *)
Definition rejected_for_vector_config (r : result unit) : bool :=
  match r with
  | Raise e => Str.contains "vectorIngestionConfiguration" (str_exn e)
  | Ok _ => false
  end.

(** What follows the start of the job in [load_catalogue]. *)
Definition after_start (E : env) (final_urls : list string) (job_id : string) : M bool :=
  ingestion_success <- _wait_for_ingestion_completion E job_id 20 ;;
  if ingestion_success then
    _load_django_fixtures E ;;;
    print (Configured (length final_urls)) ;;;
    ret true
  else
    print FailedOrTimedOut ;;;
    ret false.

(** An update call, if [ev] is one, submits the empty list of seed URLs. *)
Definition submits_no_seed_urls (ev : event) : Prop :=
  ∀ kwargs, ev = Call "update_data_source" kwargs →
            ∃ config, Dict.get "dataSourceConfiguration" kwargs = Some config
                      ∧ Dict.lookup seed_urls_path config = Some (JList []).

(** All three audit handlers are connected. *)
Definition audit_connected (s : signals) : Prop :=
  pre_save_handler ∈ pre_save_receivers s
  ∧ post_save_handler ∈ post_save_receivers s
  ∧ post_delete_handler ∈ post_delete_receivers s.

(** The order in which [sorted] puts file names. *)
Definition str_le (a b : string) : Prop := String.leb a b = true.

(** The exception, if any, that [urlparse] raises on the trimmed URL. *)
Definition parse_error (E : env) (url : string) : option exn :=
  if Str.is_empty (Str.strip url) then None
  else match urlparse E (Str.strip url) with
       | Raise e => Some e
       | Ok _ => None
       end.

(** The exception, if any, that the body of the validation loop raises on
    an item: that of [strip] on an item that is no string, and that of
    [urlparse] on a string. *)
Definition item_error (E : env) (item : json) : option exn :=
  match item with
  | JStr url => parse_error E url
  | _ => Some (no_attribute item "strip")
  end.

(** The issues that go with a dropped URL; the others are warnings. *)
Definition is_rejection (i : issue) : bool :=
  match i with
  | EmptyUrl _ | InvalidFormat _ => true
  | VeryLong _ _ | Suspicious _ => false
  end.

(** [preserves I m]: [m] keeps the invariant [I] of the world, however it ends. *)
Definition preserves {A} (I : world → Prop) (m : M A) : Prop :=
  ∀ w, I w → I (snd (m w)).

(** The first summary of the listing that has the name of the catalogue's
    data source. *)
Definition found_data_source (E : env) : option (string * string) :=
  match list_data_sources_reply E with
  | Ok summaries =>
      List.find (λ ds, String.eqb (fst ds) (data_source_name E)) summaries
  | Raise _ => None
  end.

Definition is_fixture_event (ev : event) : bool :=
  match ev with
  | LoadData _ | UpsertFramework => true
  | _ => false
  end.

(** [hoare_unless P m S]: [m] extends the trace, and by events that satisfy
    [P] unless it ends with an outcome in [S]. *)
Definition hoare_unless {A} (P : event → Prop) (m : M A) (S : outcome A → Prop)
  : Prop :=
  ∀ w, ∃ new, trace (snd (m w)) = trace w ++ new ∧ (S (fst (m w)) ∨ Forall P new).

(** The audit handlers are connected in the world [w]. *)
Definition connected_in (w : world) : Prop := audit_connected (receivers_of w).

(** The catalogue named on the command line, as the script reads it. *)
Definition requested (S : script) : option string :=
  match argv S with
  | _ :: arg :: _ => Some (Str.strip (str_lower arg))
  | _ => None
  end.

(** The events by which a batch shows its course: the listing that every
    load starts with, and the sleep of 60 seconds between two loads. *)
Definition is_batch_event (ev : event) : bool :=
  match ev with
  | Call method _ => String.eqb method "list_data_sources"
  | Sleep d => N.eqb d 60
  | _ => false
  end.

(** One listing for each catalogue, and a sleep of 60 seconds between two. *)
Fixpoint batch_events (S : script) (catalogues : list string) : list event :=
  match catalogues with
  | [] => []
  | catalogue :: rest =>
      Call "list_data_sources" [kb_arg (loader_env S catalogue)]
      :: match rest with
         | [] => []
         | _ :: _ => Sleep 60 :: batch_events S rest
         end
  end.

(** [m] only ever adds to the trace. *)
Definition extends {A} (m : M A) : Prop :=
  ∀ w, ∃ new, trace (snd (m w)) = trace w ++ new.

(** What [load_catalogue] does once it has the id of the data source. *)
Definition after_resolution (E : env) (id : string) : M bool :=
  set_data_source_id id ;;;
  let all_urls := all_catalogue_urls E in
  match all_urls with
  | _ :: _ =>
      validated_urls <- _validate_and_clean_urls E all_urls ;;
      final_urls <- _deduplicate_urls validated_urls ;;
      let total := total_chars final_urls in
      print (UrlStats (length final_urls) total) ;;;
      if (3000 <? total)%nat then
        print (LimitExceeded total) ;;;
        ret false
      else
        print LimitOk ;;;
        _update_data_source_urls E final_urls ;;;
        job_id <- _start_ingestion_job E ;;
        after_start E final_urls job_id
  | [] =>
      print NoUrlsFound ;;;
      ret false
  end.

(** The fields that [validate_ato_fixture_file] counts: those of the
    records with [fields] that hold the empty string and are not optional,
    in the order of the file. *)
Definition counted_fields (items : list (string * json)) : list string :=
  List.map fst
    (List.filter
       (λ item, is_empty_string (snd item)
                && negb (existsb (String.eqb (fst item)) optional_fields))
       items).

Definition empty_fields (data : list fixture_record) : list string :=
  flat_map (λ record, match record with
                      | Fields items => counted_fields items
                      | _ => []
                      end) data.

Definition is_critical (field_name : string) : bool :=
  existsb (String.eqb field_name) critical_fields.

(** No record of the file has a [fields] that is not a dict. *)
Definition well_formed (data : list fixture_record) : Prop :=
  Forall (λ record, ∀ error, record ≠ FieldsNotADict error) data.

(** [loaddata] accepts the fixture [f] of the directory. *)
Definition loads (E : env) (directory f : string) : bool :=
  match loaddata_reply E (path_join directory f) with
  | Ok _ => true
  | Raise _ => false
  end.

(** The directory that [load_ato_tenant_fixtures] loads from. *)
Definition tenant_fixtures_dir (tenant_name : option string) : string :=
  "fixtures/tenants/" +:+ (if truthy tenant_name then str_option tenant_name else ".temp").

(** ** Concrete worlds, for the examples *)

Definition w0 : world := {|
  trace := [];
  clock := 0;
  data_source_id := None;
  receivers_of := {| pre_save_receivers := [pre_save_handler];
                     post_save_receivers := [post_save_handler];
                     post_delete_receivers := [post_delete_handler] |};
  updates_done := 0;
  polls_done := 0
|}.

Definition web_data_source (urls : list string) : data_source := {|
  ds_name := Some "fixtures-demo-kb-source";
  ds_description := Some "Fixture-managed data source";
  ds_configuration := new_web_configuration (seed_urls_of urls)
|}.

Definition job (st : string) (reasons : list string) : result ingestion_job :=
  Ok {| status := st; failureReasons := reasons |}.

(** The catalogue [demo], with the given base directory (if any), files,
    reply to the listing, replies to the updates and replies to the status
    queries; every other call succeeds. *)
Definition demo_env (base : option (list (string * file)))
    (files : list (string * file))
    (listing : result (list (string * string)))
    (updates : nat → result unit)
    (polls : nat → N * result ingestion_job) : env := {|
  catalogue_name := "demo";
  fs := fun p =>
          if String.eqb p "fixtures/ai_kb/demo" then Some files
          else if String.eqb p "fixtures/ai_kb/base" then base
          else None;
  knowledge_base_id := "KB1";
  model_id := "model-1";
  region_name := EmptyString;
  check_bracketed_netloc := fun _ => None;
  checknetloc := fun _ => true;
  list_data_sources_reply := listing;
  create_data_source_reply := Ok "DS2";
  get_data_source_reply := Ok (web_data_source ["https://old.example/"]);
  update_data_source_reply := updates;
  start_ingestion_job_reply := Ok "JOB1";
  get_ingestion_job_reply := polls;
  loaddata_reply := fun _ => Ok tt;
  compliance_framework_reply := Ok tt
|}.

Definition found : result (list (string * string)) :=
  Ok [("other-source", "DS0"); ("fixtures-demo-kb-source", "DS1")].

Definition completes_at_once : nat → N * result ingestion_job :=
  fun _ => (2%N, job "COMPLETE" []).

(** A catalogue whose only URL has 3018 characters. *)
Definition long_url : string :=
  "https://a.example/" ++ string_of_list_ascii (repeat "x"%char 3000).

Definition over_budget_env : env :=
  demo_env None [("urls.json", Urls [long_url])] found (fun _ => Ok tt)
    completes_at_once.

(** A catalogue with a base directory; one URL is in both, one has spaces
    around it, one is no URL. *)
Definition layered_env : env :=
  demo_env (Some [("10_base.json", Urls ["https://a.example/x"; "https://b.example/y"])])
    [("20_more.json", Urls [" https://c.example/z "; "not-a-url"]);
     ("10_own.json", Urls ["https://b.example/y"]);
     ("catalogue_info.json", NoUrlsField)]
    found (fun _ => Ok tt) completes_at_once.

(** A catalogue all of whose URLs are rejected. *)
Definition rejected_env : env :=
  demo_env None [("urls.json", Urls ["not-a-url"; "  "])] found (fun _ => Ok tt)
    completes_at_once.

(** The listing fails. *)
Definition listing_error_env : env :=
  demo_env None [("urls.json", Urls ["https://a.example/x"])]
    (Raise (Exception "ServiceUnavailableException")) (fun _ => Ok tt)
    completes_at_once.

(** Both updates are rejected, the first over [vectorIngestionConfiguration]. *)
Definition rejecting_env : env :=
  demo_env None [("urls.json", Urls ["https://a.example/x"])] found
    (fun n =>
       match n with
       | O => Raise (Exception "ValidationException: vectorIngestionConfiguration cannot be updated")
       | S _ => Raise (Exception "ValidationException")
       end)
    completes_at_once.

(** The job never leaves [IN_PROGRESS]; the job fails at the first query;
    the job completes at the third query, after a status and an error. *)
Definition stuck_env : env :=
  demo_env None [("urls.json", Urls ["https://a.example/x"])] found (fun _ => Ok tt)
    (fun _ => (0%N, job "IN_PROGRESS" [])).

Definition failing_env : env :=
  demo_env None [("urls.json", Urls ["https://a.example/x"])] found (fun _ => Ok tt)
    (fun _ => (1%N, job "FAILED" ["boom"])).

Definition slow_env : env :=
  demo_env None [("urls.json", Urls ["https://a.example/x"])] found (fun _ => Ok tt)
    (fun n =>
       match n with
       | 0%nat => (1%N, job "STARTING" [])
       | 1%nat => (5%N, Raise (Exception "ThrottlingException"))
       | _ => (1%N, job "COMPLETE" [])
       end).

(** [E] with another reply to [get_data_source]. *)
Definition with_data_source (r : result data_source) (E : env) : env := {|
  catalogue_name := catalogue_name E;
  fs := fs E;
  knowledge_base_id := knowledge_base_id E;
  model_id := model_id E;
  region_name := region_name E;
  check_bracketed_netloc := check_bracketed_netloc E;
  checknetloc := checknetloc E;
  list_data_sources_reply := list_data_sources_reply E;
  create_data_source_reply := create_data_source_reply E;
  get_data_source_reply := r;
  update_data_source_reply := update_data_source_reply E;
  start_ingestion_job_reply := start_ingestion_job_reply E;
  get_ingestion_job_reply := get_ingestion_job_reply E;
  loaddata_reply := loaddata_reply E;
  compliance_framework_reply := compliance_framework_reply E
|}.

(** The data source of the catalogue reads from a bucket, not from the web. *)
Definition bucket_env : env :=
  with_data_source
    (Ok {| ds_name := Some "fixtures-demo-kb-source";
           ds_description := None;
           ds_configuration := JDict [("type", JStr "S3")] |})
    rejecting_env.

(** No data source has the name of the catalogue yet. *)
Definition fresh_env : env :=
  demo_env None [("urls.json", Urls ["https://a.example/x"; "https://a.example/x"])]
    (Ok [("other-source", "DS0")]) (fun _ => Ok tt) completes_at_once.

(** The catalogue of [layered_env], with its directory listed in another order. *)
Definition relisted_env : env :=
  demo_env (Some [("10_base.json", Urls ["https://a.example/x"; "https://b.example/y"])])
    [("10_own.json", Urls ["https://b.example/y"]);
     ("20_more.json", Urls [" https://c.example/z "; "not-a-url"]);
     ("catalogue_info.json", NoUrlsField)]
    found (fun _ => Ok tt) completes_at_once.

(** A directory [fixtures] in which the second fixture does not load. *)
Definition fixtures_env : env := {|
  catalogue_name := "demo";
  fs := fun p =>
          if String.eqb p "fixtures"
          then Some [("30_teams.json", NoUrlsField); ("colors.json", NoUrlsField);
                     ("10_users.json", NoUrlsField); ("README.md", NoUrlsField);
                     ("20_roles.json", NoUrlsField)]
          else None;
  knowledge_base_id := "KB1";
  model_id := "model-1";
  region_name := EmptyString;
  check_bracketed_netloc := fun _ => None;
  checknetloc := fun _ => true;
  list_data_sources_reply := found;
  create_data_source_reply := Ok "DS2";
  get_data_source_reply := Ok (web_data_source ["https://old.example/"]);
  update_data_source_reply := fun _ => Ok tt;
  start_ingestion_job_reply := Ok "JOB1";
  get_ingestion_job_reply := completes_at_once;
  loaddata_reply := fun p =>
                      if String.eqb p "fixtures/20_roles.json"
                      then Raise (Exception "IntegrityError")
                      else Ok tt;
  compliance_framework_reply := Ok tt
|}.

(** A run of the script: the catalogues [big], whose only URL is over the
    budget, and [nist]; a directory with a leading dot; every data source
    exists and every job is complete at the first query. *)
Definition demo_script (args : list string) : script := {|
  argv := "loadAIKB.py" :: args;
  files := fun p =>
             if String.eqb p "fixtures/ai_kb"
             then Some [("nist", NoUrlsField); (".cache", NoUrlsField);
                        ("big", NoUrlsField)]
             else if String.eqb p "fixtures/ai_kb/nist"
             then Some [("urls.json", Urls ["https://a.example/x"])]
             else if String.eqb p "fixtures/ai_kb/big"
             then Some [("urls.json", Urls [long_url])]
             else if String.eqb p "fixtures/ai_kb/.cache" then Some []
             else None;
  replies := fun _ =>
               demo_env None []
                 (Ok [("fixtures-big-kb-source", "DS1");
                      ("fixtures-nist-kb-source", "DS2")])
                 (fun _ => Ok tt) completes_at_once
|}.

(** The same catalogues when no data source exists and the service refuses
    to create one. *)
Definition refused_script : script := {|
  argv := ["loadAIKB.py"; "all"];
  files := files (demo_script []);
  replies := fun _ => {|
    catalogue_name := EmptyString;
    fs := fun _ => None;
    knowledge_base_id := "KB1";
    model_id := "model-1";
    region_name := EmptyString;
    check_bracketed_netloc := fun _ => None;
    checknetloc := fun _ => true;
    list_data_sources_reply := Ok [];
    create_data_source_reply := Raise (Exception "AccessDeniedException");
    get_data_source_reply := Ok (web_data_source []);
    update_data_source_reply := fun _ => Ok tt;
    start_ingestion_job_reply := Ok "JOB1";
    get_ingestion_job_reply := completes_at_once;
    loaddata_reply := fun _ => Ok tt;
    compliance_framework_reply := Ok tt
  |}
|}.

(** [E] with another loader of fixtures. *)
Definition with_loaddata (r : string -> result unit) (E : env) : env := {|
  catalogue_name := catalogue_name E;
  fs := fs E;
  knowledge_base_id := knowledge_base_id E;
  model_id := model_id E;
  region_name := region_name E;
  check_bracketed_netloc := check_bracketed_netloc E;
  checknetloc := checknetloc E;
  list_data_sources_reply := list_data_sources_reply E;
  create_data_source_reply := create_data_source_reply E;
  get_data_source_reply := get_data_source_reply E;
  update_data_source_reply := update_data_source_reply E;
  start_ingestion_job_reply := start_ingestion_job_reply E;
  get_ingestion_job_reply := get_ingestion_job_reply E;
  loaddata_reply := r;
  compliance_framework_reply := compliance_framework_reply E
|}.

(** Fixture files of a tenant: one that is complete but for an optional
    field; one with six empty fields, the name among them; one whose only
    empty field is the address of the user. *)
Definition users_records : list fixture_record :=
  [Fields [("username", JStr "ada"); ("email", JStr "ada@example.org");
           ("bio", JStr EmptyString)]].

Definition sparse_records : list fixture_record :=
  [Fields [("name", JStr EmptyString); ("code", JStr EmptyString);
           ("address", JStr EmptyString)];
   NoFields;
   Fields [("city", JStr EmptyString); ("phone", JStr EmptyString);
           ("sector", JStr EmptyString); ("notes", JStr EmptyString)]].

Definition unnamed_records : list fixture_record :=
  [Fields [("email", JStr EmptyString); ("username", JStr "ada")]].

(** The tenant [acme], whose first fixture does not load. *)
Definition acme_fs : tenant_fs := fun p =>
  if String.eqb p "fixtures/tenants/acme"
  then Some [("b_users.json", Records users_records); ("notes.txt", NotAList);
             ("a_org.json", Records sparse_records)]
  else None.

Definition acme_env : env :=
  with_loaddata
    (fun p => if String.eqb p "fixtures/tenants/acme/a_org.json"
              then Raise (Exception "IntegrityError")
              else Ok tt)
    fixtures_env.

(** The same tenant with a file that is not valid. *)
Definition broken_fs : tenant_fs := fun p =>
  if String.eqb p "fixtures/tenants/acme"
  then Some [("b_users.json", Records users_records);
             ("c_contacts.json", Records unnamed_records)]
  else None.

(** [getRemoteTenant.py] when it leaves the files of the bucket in [.temp],
    and when it does nothing. *)
Definition fetch_to_temp (bucket : string) (fs : tenant_fs) : tenant_fs := fun p =>
  if String.eqb p "fixtures/tenants/.temp"
  then Some [("a_org.json", Records users_records)]
  else fs p.

Definition no_fetch (bucket : string) (fs : tenant_fs) : tenant_fs := fs.


(** A configuration that also holds a [vectorIngestionConfiguration], as
    the service may return it; and a data source with that configuration
    both updates of which are rejected, the first with an error that names
    that key. *)
Definition vector_configuration (urls : list string) : json :=
  JDict [("type", JStr "WEB");
         ("webConfiguration",
          JDict [("sourceConfiguration",
                  JDict [("urlConfiguration",
                          JDict [("seedUrls", seed_urls_of urls)])])]);
         ("vectorIngestionConfiguration",
          JDict [("parsingConfiguration",
                  JDict [("parsingStrategy", JStr "BEDROCK_FOUNDATION_MODEL")])])].

Definition vector_config_env : env :=
  with_data_source
    (Ok {| ds_name := Some "fixtures-demo-kb-source";
           ds_description := Some "Fixture-managed data source";
           ds_configuration := vector_configuration ["https://old.example/"] |})
    rejecting_env.

(** A catalogue one of whose items is [null]. *)
Definition null_item_env : env :=
  demo_env None
    [("urls.json",
      Content (JDict [("urls", JList [JStr "https://a.example/x"; JNull])]))]
    found (fun _ => Ok tt) completes_at_once.

(** A catalogue whose [catalogue_info.json] holds a list, and one whose
    [catalogue_info.json] cannot be read. *)
Definition listed_info_env : env :=
  demo_env None
    [("urls.json", Urls ["https://a.example/x"]);
     ("catalogue_info.json", Content (JList []))]
    found (fun _ => Ok tt) completes_at_once.

Definition unreadable_info_env : env :=
  demo_env None
    [("urls.json", Urls ["https://a.example/x"]);
     ("catalogue_info.json",
      Unreadable (ValueError "Expecting value: line 1 column 1 (char 0)"))]
    found (fun _ => Ok tt) completes_at_once.

(** ** Deduplication *)

Section Deduplicate.

Implicit Types (l : list string) (seen : gset string) (u : string).

Lemma dedup_from_unseen l seen acc :
  dedup_from l seen acc = acc ++ unseen l seen.
Proof.
  revert seen acc.
  induction l as [|x r IH]; intros seen acc; simpl.
  - by rewrite app_nil_r.
  - destruct (decide (x ∈ seen)); rewrite IH; [done|].
    by rewrite <- app_assoc.
Qed.

Lemma deduplicate_unseen l : deduplicate l = unseen l ∅.
Proof. unfold deduplicate. by rewrite dedup_from_unseen. Qed.

Lemma elem_of_unseen l seen u :
  u ∈ unseen l seen ↔ u ∈ l ∧ u ∉ seen.
Proof.
  revert seen.
  induction l as [|x r IH]; intros seen; simpl.
  - rewrite elem_of_nil. tauto.
  - destruct (decide (x ∈ seen)).
    + rewrite IH, elem_of_cons. naive_solver.
    + rewrite !elem_of_cons, IH, elem_of_union, elem_of_singleton.
      destruct (decide (u = x)); naive_solver.
Qed.

Lemma NoDup_unseen l seen : NoDup (unseen l seen).
Proof.
  revert seen.
  induction l as [|x r IH]; intros seen; simpl.
  - constructor.
  - destruct (decide (x ∈ seen)); [apply IH|].
    constructor; [|apply IH].
    rewrite elem_of_unseen, elem_of_union, elem_of_singleton. naive_solver.
Qed.

Lemma index_of_elem u l : u ∈ l → ∃ p, index_of u l = Some p.
Proof.
  induction l as [|x r IH]; intros Hin.
  - by apply elem_of_nil in Hin.
  - simpl. destruct (String.eqb_spec u x) as [->|Hne]; [eauto|].
    apply elem_of_cons in Hin as [?|Hin]; [contradiction|].
    destruct (IH Hin) as [p ->]. simpl. eauto.
Qed.

Lemma index_of_lookup u l p : index_of u l = Some p → l !! p = Some u.
Proof.
  revert p.
  induction l as [|x r IH]; intros p; simpl; [done|].
  destruct (String.eqb_spec u x) as [->|Hne].
  - by intros [= <-].
  - destruct (index_of u r) as [q|]; simpl; [|done].
    intros [= <-]. simpl. by apply IH.
Qed.

(** Nothing before the index that [index_of] returns is [u]. *)
Lemma index_of_first u l p q :
  index_of u l = Some p → (q < p)%nat → l !! q ≠ Some u.
Proof.
  revert p q.
  induction l as [|x r IH]; intros p q; simpl; [done|].
  destruct (String.eqb_spec u x) as [->|Hne].
  - intros [= <-]. lia.
  - destruct (index_of u r) as [p'|] eqn:Hp; simpl; [|done].
    intros [= <-] Hq. destruct q as [|q]; simpl.
    + congruence.
    + eapply IH; [done|lia].
Qed.

Lemma unseen_order l seen i j a b :
  unseen l seen !! i = Some a → unseen l seen !! j = Some b → (i < j)%nat →
  ∃ p q, index_of a l = Some p ∧ index_of b l = Some q ∧ (p < q)%nat.
Proof.
  revert seen i j.
  induction l as [|x r IH]; intros seen i j; simpl; [done|].
  destruct (decide (x ∈ seen)) as [Hx|Hx].
  - intros Ha Hb Hij.
    assert (a ≠ x ∧ b ≠ x) as [Hax Hbx].
    { apply list_elem_of_lookup_2, elem_of_unseen in Ha, Hb. naive_solver. }
    destruct (IH _ _ _ Ha Hb Hij) as (p & q & Hp & Hq & Hpq).
    destruct (String.eqb_spec a x); [contradiction|].
    destruct (String.eqb_spec b x); [contradiction|].
    rewrite Hp, Hq. simpl. exists (S p), (S q). repeat split; lia.
  - intros Ha Hb Hij.
    destruct j as [|j]; [lia|]. simpl in Hb.
    assert (b ≠ x) as Hbx.
    { apply list_elem_of_lookup_2, elem_of_unseen in Hb.
      rewrite elem_of_union, elem_of_singleton in Hb. naive_solver. }
    destruct (String.eqb_spec b x); [contradiction|].
    destruct (index_of_elem b r) as [q Hq].
    { apply list_elem_of_lookup_2, elem_of_unseen in Hb. tauto. }
    destruct i as [|i]; simpl in Ha.
    + injection Ha as <-. rewrite String.eqb_refl, Hq. simpl.
      exists O, (S q). repeat split; lia.
    + assert (a ≠ x) as Hax.
      { apply list_elem_of_lookup_2, elem_of_unseen in Ha.
        rewrite elem_of_union, elem_of_singleton in Ha. naive_solver. }
      destruct (String.eqb_spec a x); [contradiction|].
      destruct (IH _ _ _ Ha Hb) as (p & q' & Hp & Hq' & Hpq); [lia|].
      rewrite Hp, Hq'. simpl. exists (S p), (S q'). repeat split; lia.
Qed.

End Deduplicate.

(** ** Validation *)

Section Validate.

Variable E : env.

Lemma validate_from_acc i urls valid issues :
  validate_from E i urls valid issues =
  match validate_from E i urls [] [] with
  | Ok (v, iss) => Ok (valid ++ v, issues ++ iss)
  | Raise e => Raise e
  end.
Proof.
  revert i valid issues.
  induction urls as [|url rest IH]; intros i valid issues; simpl.
  - by rewrite !app_nil_r.
  - destruct (check_url E i url) as [[kept new]|e]; [|done].
    rewrite (IH (S i) (valid ++ _)), (IH (S i) (option_list kept)).
    destruct (validate_from E (S i) rest [] []) as [[v iss]|e]; [|done].
    by rewrite !app_assoc.
Qed.

Lemma str_items_strings (urls : list string) : str_items (List.map JStr urls) = urls.
Proof.
  induction urls as [|url rest IH]; [done|].
  change (str_items (List.map JStr (url :: rest)))
    with (url :: str_items (List.map JStr rest)).
  by rewrite IH.
Qed.

(** An item that passes the body of the loop is a string. *)
Lemma check_url_string i item kept issues :
  check_url E i item = Ok (kept, issues) → ∃ url, item = JStr url.
Proof. destruct item; try done. eauto. Qed.

Lemma validate_from_strings i items valid issues v iss :
  validate_from E i items valid issues = Ok (v, iss) →
  items = List.map JStr (str_items items).
Proof.
  revert i valid issues.
  induction items as [|item rest IH]; intros i valid issues; [done|].
  cbn [validate_from].
  destruct (check_url E i item) as [[kept new]|e] eqn:Hc; [|done].
  apply check_url_string in Hc as [url ->].
  intros Hrest.
  change (str_items (JStr url :: rest)) with (url :: str_items rest).
  cbn [List.map]. f_equal. by eapply IH.
Qed.

Lemma check_url_retained i url kept issues :
  check_url E i (JStr url) = Ok (kept, issues) →
  option_list kept = if retained E url then [Str.strip url] else [].
Proof.
  unfold check_url, retained, has_scheme_and_host. cbn [strip_item].
  destruct (Str.is_empty (Str.strip url)); simpl.
  - by intros [= <- <-].
  - destruct (urlparse E (Str.strip url)) as [[scheme netloc]|e]; [|done].
    destruct (Str.is_empty scheme), (Str.is_empty netloc); simpl;
      by intros [= <- <-].
Qed.

(** When validation returns, it returns the kept URLs, trimmed, in order. *)
Lemma validate_from_retained i items v iss :
  validate_from E i items [] [] = Ok (v, iss) →
  v = List.map Str.strip (List.filter (retained E) (str_items items)).
Proof.
  revert i v iss.
  induction items as [|item rest IH]; intros i v iss; cbn [validate_from].
  - by intros [= <- <-].
  - destruct (check_url E i item) as [[kept new]|e] eqn:Hc; [|done].
    destruct (check_url_string _ _ _ _ Hc) as [url ->].
    rewrite validate_from_acc.
    destruct (validate_from E (S i) rest [] []) as [[v1 iss1]|e] eqn:Hr; [|done].
    intros [= <- <-].
    change (str_items (JStr url :: rest)) with (url :: str_items rest).
    cbn [List.filter app].
    rewrite (check_url_retained _ _ _ _ Hc), (IH _ _ _ Hr).
    by destruct (retained E url).
Qed.

(** A URL that is kept and is too long or looks non-production is
    reported, and kept all the same. *)
Lemma check_url_flags i url :
  retained E url = true →
  ∃ issues,
    check_url E i (JStr url) = Ok (Some (Str.strip url), issues)
    ∧ ((200 < String.length (Str.strip url))%nat →
       VeryLong (String.length (Str.strip url)) (Str.take 50 (Str.strip url)) ∈ issues)
    ∧ (is_suspicious (Str.strip url) = true →
       Suspicious (Str.take 50 (Str.strip url)) ∈ issues).
Proof.
  unfold retained, has_scheme_and_host, check_url. cbn [strip_item].
  destruct (Str.is_empty (Str.strip url)); simpl; [done|].
  destruct (urlparse E (Str.strip url)) as [[scheme netloc]|e]; [|done].
  destruct (Str.is_empty scheme), (Str.is_empty netloc); simpl; try done.
  intros _. eexists. split; [done|]. split.
  - intros Hlen. apply Nat.ltb_lt in Hlen. rewrite Hlen.
    apply elem_of_app. left. apply list_elem_of_singleton. done.
  - intros ->. apply elem_of_app. right. apply list_elem_of_singleton. done.
Qed.

End Validate.

(** ** Reasoning about computations in [M] *)

Section Hoare.

Context {A B : Type}.
Implicit Types (P : event → Prop) (w : world).

Lemma hoare_ret P (a : A) (R : A → Prop) : R a → hoare P (ret a) R.
Proof.
  intros Ha w. split; [|done].
  exists []. by rewrite app_nil_r.
Qed.

Lemma hoare_raise P e (R : A → Prop) : hoare P (raise e) R.
Proof.
  intros w. split; [|done].
  exists []. by rewrite app_nil_r.
Qed.

Lemma hoare_lift P (r : result A) (R : A → Prop) :
  (∀ a, r = Ok a → R a) → hoare P (lift r) R.
Proof.
  intros Hr. destruct r as [a|e]; [apply hoare_ret; auto|apply hoare_raise].
Qed.

Lemma hoare_weaken P (m : M A) (R R' : A → Prop) :
  hoare P m R → (∀ a, R a → R' a) → hoare P m R'.
Proof.
  intros Hm HR w. destruct (Hm w) as [Ht Ho]. split; [done|].
  destruct (fst (m w)); auto.
Qed.

Lemma hoare_bind P (m : M A) (k : A → M B) (R1 : A → Prop) (R : B → Prop) :
  hoare P m R1 → (∀ a, R1 a → hoare P (k a) R) → hoare P (bind m k) R.
Proof.
  intros Hm Hk w. unfold bind.
  destruct (Hm w) as [(new1 & Ht1 & HP1) Ho1].
  destruct (m w) as [[a|e|] w1]; simpl in *; [|by eauto|done].
  destruct (Hk a Ho1 w1) as [(new2 & Ht2 & HP2) Ho2].
  split; [|done].
  exists (new1 ++ new2). rewrite Ht2, Ht1, app_assoc. split; [done|].
  by apply Forall_app.
Qed.

Lemma hoare_try_except P (m : M A) (h : exn → M A) (R : A → Prop) :
  hoare P m R → (∀ e, hoare P (h e) R) → hoare P (try_except m h) R.
Proof.
  intros Hm Hh w. unfold try_except.
  destruct (Hm w) as [(new1 & Ht1 & HP1) Ho1].
  destruct (m w) as [[a|e|] w1]; simpl in *; [by eauto| |done].
  destruct (Hh e w1) as [(new2 & Ht2 & HP2) Ho2].
  split; [|done].
  exists (new1 ++ new2). rewrite Ht2, Ht1, app_assoc. split; [done|].
  by apply Forall_app.
Qed.

Lemma hoare_try_finally P (m : M A) (f : M unit) (R : A → Prop) :
  hoare P m R → hoare P f any_value → hoare P (try_finally m f) R.
Proof.
  intros Hm Hf w. unfold try_finally.
  destruct (Hm w) as [(new1 & Ht1 & HP1) Ho1].
  destruct (m w) as [[a|e|] w1]; simpl in *; [| |done].
  all: destruct (Hf w1) as [(new2 & Ht2 & HP2) Ho2].
  all: destruct (f w1) as [[[]|e'|] w2]; simpl in *; [| |done].
  all: split; [|done].
  all: exists (new1 ++ new2); rewrite Ht2, Ht1, app_assoc.
  all: split; [done|by apply Forall_app].
Qed.

End Hoare.

Section HoareBasic.

Implicit Types (P : event → Prop).

Lemma hoare_emit P e : P e → hoare P (emit e) any_value.
Proof.
  intros He w. split; [|done].
  exists [e]. split; [done|]. by constructor.
Qed.

Lemma hoare_silent {A} P (m : M A) (R : A → Prop) :
  (∀ w, trace (snd (m w)) = trace w ∧ ∃ a, fst (m w) = Returns a ∧ R a) →
  hoare P m R.
Proof.
  intros Hm w. destruct (Hm w) as (Ht & a & Ha & HR). split.
  - exists []. by rewrite app_nil_r.
  - by rewrite Ha.
Qed.

Lemma hoare_get_world P : hoare P get_world any_value.
Proof. apply hoare_silent. intros w. split; [done|]. by eexists. Qed.

Lemma hoare_time P : hoare P time any_value.
Proof. apply hoare_silent. intros w. split; [done|]. by eexists. Qed.

Lemma hoare_advance P d : hoare P (advance d) any_value.
Proof. apply hoare_silent. intros w. split; [done|]. by eexists. Qed.

Lemma hoare_set_data_source_id P id : hoare P (set_data_source_id id) any_value.
Proof. apply hoare_silent. intros w. split; [done|]. by eexists. Qed.

Lemma hoare_update_receivers P f : hoare P (update_receivers f) any_value.
Proof. apply hoare_silent. intros w. split; [done|]. by eexists. Qed.

Lemma hoare_next_update P : hoare P next_update any_value.
Proof. apply hoare_silent. intros w. split; [done|]. by eexists. Qed.

Lemma hoare_next_poll P : hoare P next_poll any_value.
Proof. apply hoare_silent. intros w. split; [done|]. by eexists. Qed.

Lemma hoare_any {A} P (m : M A) (R : A → Prop) : hoare P m R → hoare P m any_value.
Proof. intros Hm. by apply (hoare_weaken _ _ R). Qed.

(** The trace only grows. *)
Lemma hoare_new_events {A} P (m : M A) (R : A → Prop) w :
  hoare P m R →
  trace (snd (m w)) = trace w ++ new_events m w ∧ Forall P (new_events m w).
Proof.
  intros Hm. destruct (Hm w) as [(new & Ht & HP) _].
  unfold new_events. by rewrite Ht, drop_app_length.
Qed.

End HoareBasic.
(** One step of a proof of [hoare P m R], by the shape of [m]. *)
Ltac hoare_step :=
  lazymatch goal with
  | |- hoare _ (bind (if _ then _ else _) _) _ =>
      eapply (hoare_bind _ _ _ any_value); [|intros ? _]
  | |- hoare _ (bind (match _ with _ => _ end) _) _ =>
      eapply (hoare_bind _ _ _ any_value); [|intros ? _]
  | |- hoare _ (bind _ _) _ => eapply hoare_bind; [|intros ? ?]
  | |- hoare _ (try_except _ _) _ => apply hoare_try_except; [|intros ?]
  | |- hoare _ (try_finally _ _) _ => apply hoare_try_finally
  | |- hoare _ (ret _) _ => apply hoare_ret; try done
  | |- hoare _ (raise _) _ => apply hoare_raise
  | |- hoare _ (lift _) _ =>
      apply hoare_lift; let H := fresh in intros ? H; first [exact H | exact I | idtac]
  | |- hoare _ (print _) _ => eapply hoare_any, hoare_emit
  | |- hoare _ (emit _) _ => eapply hoare_any, hoare_emit
  | |- hoare _ (call _ _ _) _ => unfold call
  | |- hoare _ (sleep _) _ => unfold sleep
  | |- hoare _ get_world _ => eapply hoare_any, hoare_get_world
  | |- hoare _ time _ => eapply hoare_any, hoare_time
  | |- hoare _ (advance _) _ => eapply hoare_any, hoare_advance
  | |- hoare _ (set_data_source_id _) _ => eapply hoare_any, hoare_set_data_source_id
  | |- hoare _ (connect _ _) _ => eapply hoare_any, hoare_update_receivers
  | |- hoare _ (disconnect _ _) _ => eapply hoare_any, hoare_update_receivers
  | |- hoare _ next_update _ => eapply hoare_any, hoare_next_update
  | |- hoare _ next_poll _ => eapply hoare_any, hoare_next_poll
  | |- hoare _ (if ?b then _ else _) _ => destruct b eqn:?
  | |- hoare _ (match ?x with _ => _ end) _ => destruct x eqn:?
  | |- hoare _ (let '(_, _) := ?x in _) _ => destruct x eqn:?
  end.

Ltac hoare_steps := repeat hoare_step.

(** ** What every part of the loader emits *)

Section Emits.

Variable E : env.
Variable P : event → Prop.

Hypothesis P_print : ∀ l, l ≠ NoUrlsFound → P (Print l).
Hypothesis P_sleep : ∀ d, P (Sleep d).
Hypothesis P_loaddata : ∀ path, P (LoadData path).
Hypothesis P_upsert : P UpsertFramework.
Hypothesis P_query :
  ∀ method kwargs, is_mutation (Call method kwargs) = false → P (Call method kwargs).
Hypothesis P_create : ∀ kwargs, P (Call "create_data_source" kwargs).
Hypothesis P_start : ∀ kwargs, P (Call "start_ingestion_job" kwargs).

Local Ltac emits :=
  hoare_steps; try (apply P_print; done); try (apply P_query; done); auto.

Lemma validate_emits urls :
  hoare P (_validate_and_clean_urls E urls)
    (λ v, ∃ iss, validate E urls = Ok (v, iss)).
Proof.
  unfold _validate_and_clean_urls. emits.
  all: simpl in *; subst; eauto.
Qed.

Lemma deduplicate_emits urls :
  hoare P (_deduplicate_urls urls) (λ final, final = deduplicate urls).
Proof. unfold _deduplicate_urls. emits. Qed.

Lemma find_emits name :
  hoare P (_find_data_source_by_name E name) any_value.
Proof. unfold _find_data_source_by_name. emits. Qed.

Lemma create_emits : hoare P (_create_catalogue_data_source E) any_value.
Proof.
  unfold _create_catalogue_data_source.
  hoare_step; [|emits].
  hoare_step; [apply validate_emits|].
  hoare_step; [apply deduplicate_emits|].
  emits.
Qed.

Lemma get_or_create_emits :
  hoare P (_get_or_create_catalogue_data_source E) any_value.
Proof.
  unfold _get_or_create_catalogue_data_source.
  hoare_step; [|emits].
  hoare_step; [apply find_emits|].
  hoare_step; [emits|].
  hoare_step; [emits|apply create_emits].
Qed.

Lemma start_emits : hoare P (_start_ingestion_job E) any_value.
Proof. unfold _start_ingestion_job. emits. Qed.

Lemma update_emits urls :
  (∀ w name description config config',
     replace_seed_urls (seed_urls_of urls) config = Ok config' →
     P (Call "update_data_source" (update_request E w name description config'))) →
  hoare P (_update_data_source_urls E urls) any_value.
Proof.
  intros Hupdate. unfold _update_data_source_urls, update_data_source. emits.
  all: cbv beta in *; eapply Hupdate; eassumption.
Qed.

Lemma load_each_emits directory fixtures :
  hoare P (load_each E directory fixtures) any_value.
Proof. induction fixtures as [|f rest IH]; simpl; emits. Qed.

Lemma load_from_dir_emits directory dir_name :
  hoare P (_load_django_fixtures_from_dir E directory dir_name) any_value.
Proof.
  unfold _load_django_fixtures_from_dir, disconnect_audit_signals,
    connect_audit_signals.
  hoare_step; [|emits].
  hoare_step; [emits|].
  hoare_step; [emits|].
  hoare_step; [emits|].
  hoare_step; [|emits].
  hoare_step; [apply load_each_emits|emits].
Qed.

Lemma framework_emits : hoare P (_update_compliance_framework E) any_value.
Proof. unfold _update_compliance_framework. emits. Qed.

Lemma load_django_fixtures_emits : hoare P (_load_django_fixtures E) any_value.
Proof.
  unfold _load_django_fixtures.
  hoare_step; [|emits].
  hoare_step; [hoare_step; [apply load_from_dir_emits|emits]|].
  hoare_step; [apply load_from_dir_emits|apply framework_emits].
Qed.

Lemma poll_once_emits job_id start_time :
  hoare P (poll_once E job_id start_time) any_value.
Proof. unfold poll_once. emits. Qed.

End Emits.

(** ** The poll loop *)

Section Poll.

Variable E : env.
Implicit Types (w : world) (job_id : string).

(** One turn of the loop body, by the verdict on the reply it gets. *)
Lemma poll_once_run job_id start_time w :
  ∃ w' kwargs,
    polls_done w' = S (polls_done w)
    ∧ data_source_id w' = data_source_id w
    ∧ receivers_of w' = receivers_of w
    ∧ updates_done w' = updates_done w
    ∧ match classify (reply E (polls_done w)) with
      | Complete =>
          poll_once E job_id start_time w = (Returns (Some true), w')
          ∧ trace w' = trace w ++ [Call "get_ingestion_job" kwargs;
                                   Print IngestionCompleted]
          ∧ clock w' = (clock w + latency E (polls_done w))%N
      | Failed reasons =>
          poll_once E job_id start_time w = (Returns (Some false), w')
          ∧ trace w' = trace w ++ [Call "get_ingestion_job" kwargs;
                                   Print (IngestionFailed reasons)]
          ∧ clock w' = (clock w + latency E (polls_done w))%N
      | Pending =>
          poll_once E job_id start_time w = (Returns None, w')
          ∧ (∃ l, trace w' = trace w ++ [Call "get_ingestion_job" kwargs;
                                         Print l; Sleep 30]
                  ∧ is_retry_event (Print l) = true)
          ∧ clock w' = (clock w + latency E (polls_done w) + 30)%N
      end.
Proof.
  exists (snd (poll_once E job_id start_time w)),
    [kb_arg E; ds_arg w; ("ingestionJobId", JStr job_id)].
  unfold poll_once, classify, reply, latency, try_except, bind.
  simpl.
  destruct (get_ingestion_job_reply E (polls_done w)) as [lat [job|e]]; simpl.
  - destruct (String.eqb (status job) "COMPLETE"); simpl.
    { split_and!; try done. by rewrite <- app_assoc. }
    destruct (String.eqb (status job) "FAILED"); simpl.
    { split_and!; try done. by rewrite <- app_assoc. }
    destruct (String.eqb (status job) "IN_PROGRESS" || String.eqb (status job) "STARTING");
      simpl.
    all: split_and!; try done.
    all: eexists; split; [by rewrite <- !app_assoc|done].
  - split_and!; try done.
    eexists; split; [by rewrite <- !app_assoc|done].
Qed.

(** The loop, from any state in which the fuel covers what is left of the
    timeout: it makes [n] turns that fall through, each with its sleep of
    30 seconds, and the next test of the condition or the next reply ends
    it. *)
Lemma poll_loop_run fuel job_id start_time T w :
  (start_time ≤ clock w)%N →
  (T * 60 ≤ clock w - start_time + 30 * N.of_nat fuel)%N →
  ∃ n mid w' o,
    poll_loop E fuel job_id start_time T w = (o, w')
    ∧ (∀ i, (i < n)%nat →
            classify (reply E (polls_done w + i)) = Pending
            ∧ (clock w - start_time + elapsed_after E (polls_done w) i < T * 60)%N)
    ∧ Forall (λ ev, is_retry_event ev = true) mid
    ∧ length (List.filter is_sleep mid) = n
    ∧ data_source_id w' = data_source_id w
    ∧ receivers_of w' = receivers_of w
    ∧ updates_done w' = updates_done w
    ∧ match (clock w - start_time + elapsed_after E (polls_done w) n <? T * 60)%N,
            classify (reply E (polls_done w + n)) with
      | false, _ =>
          o = Returns false
          ∧ trace w' = trace w ++ mid ++ [Print (IngestionTimeout T)]
          ∧ polls_done w' = (polls_done w + n)%nat
      | true, Complete =>
          o = Returns true
          ∧ (∃ kwargs, trace w' = trace w ++ mid ++ [Call "get_ingestion_job" kwargs;
                                                    Print IngestionCompleted])
          ∧ polls_done w' = S (polls_done w + n)
      | true, Failed reasons =>
          o = Returns false
          ∧ (∃ kwargs, trace w' = trace w ++ mid ++ [Call "get_ingestion_job" kwargs;
                                                    Print (IngestionFailed reasons)])
          ∧ polls_done w' = S (polls_done w + n)
      | true, Pending => False
      end.
Proof.
  revert w.
  induction fuel as [|fuel IH]; intros w Hstart Hfuel.
  all: cbn [poll_loop]; unfold bind at 1; cbn [time].
  all: destruct (clock w - start_time <? T * 60)%N eqn:Hcond.
  - apply N.ltb_lt in Hcond. lia.
  - exists O, [], (log [Print (IngestionTimeout T)] w), (Returns false).
    cbn [elapsed_after]. rewrite N.add_0_r, Hcond.
    split_and!; try done. intros i Hi. lia.
  - destruct (poll_once_run job_id start_time w)
      as (w1 & kwargs & Hpolls & Hds & Hrecv & Hupd & Hrun).
    unfold bind.
    destruct (classify (reply E (polls_done w))) as [|reasons|] eqn:Hverdict.
    + destruct Hrun as (-> & Htrace & Hclock).
      exists O, [], w1, (Returns true).
      cbn [elapsed_after]. rewrite N.add_0_r, Nat.add_0_r, Hcond, Hverdict.
      split_and!; try done; [intros i Hi; lia|eauto].
    + destruct Hrun as (-> & Htrace & Hclock).
      exists O, [], w1, (Returns false).
      cbn [elapsed_after]. rewrite N.add_0_r, Nat.add_0_r, Hcond, Hverdict.
      split_and!; try done; [intros i Hi; lia|eauto].
    + destruct Hrun as (-> & (l & Htrace & Hl) & Hclock).
      apply N.ltb_lt in Hcond.
      destruct (IH w1) as (n & mid & w' & o & Hloop & Hpending & Hmid & Hsleeps
                           & Hds' & Hrecv' & Hupd' & Hend); [lia|lia|].
      exists (S n), ([Call "get_ingestion_job" kwargs; Print l; Sleep 30] ++ mid), w', o.
      assert (∀ k, clock w1 - start_time + elapsed_after E (polls_done w1) k
                   = clock w - start_time + elapsed_after E (polls_done w) (S k))%N
        as Helapsed.
      { intros k. cbn [elapsed_after]. rewrite Hpolls, Hclock. lia. }
      split_and!.
      * done.
      * intros [|i] Hi.
        -- rewrite Nat.add_0_r. cbn [elapsed_after]. split; [done|lia].
        -- destruct (Hpending i) as [Hp He]; [lia|].
           rewrite Hpolls in Hp. rewrite Helapsed in He.
           by rewrite Nat.add_succ_r.
      * repeat (constructor; [done|]). done.
      * cbn. by rewrite Hsleeps.
      * congruence.
      * congruence.
      * congruence.
      * rewrite Helapsed, Hpolls in Hend.
        rewrite Nat.add_succ_r. cbn [Nat.add] in Hend.
        destruct (_ <? _)%N;
          [destruct (classify (reply E (S (polls_done w + n))))|]; [| |done|].
        all: destruct Hend as (Ho & Ht & Hp); split_and!; try done.
        1,2: destruct Ht as [kw Ht]; exists kw.
        all: by rewrite Ht, Htrace, <- !app_assoc.
  - exists O, [], (log [Print (IngestionTimeout T)] w), (Returns false).
    cbn [elapsed_after]. rewrite N.add_0_r, Hcond.
    split_and!; try done. intros i Hi. lia.
Qed.

Lemma new_events_eq {A} (m : M A) w new :
  trace (snd (m w)) = trace w ++ new → new_events m w = new.
Proof. intros Ht. unfold new_events. by rewrite Ht, drop_app_length. Qed.

Lemma elapsed_after_mono p n k :
  (n ≤ k)%nat → (elapsed_after E p n ≤ elapsed_after E p k)%N.
Proof.
  revert p k.
  induction n as [|n IH]; intros p k Hk; cbn [elapsed_after]; [lia|].
  destruct k as [|k]; [lia|]. cbn [elapsed_after].
  specialize (IH (S p) k). lia.
Qed.

(** The whole wait, from any state: the stopping index [n], the turns
    before it, and how it ends. *)
Lemma wait_run job_id T w :
  ∃ n mid w' o,
    _wait_for_ingestion_completion E job_id T w = (o, w')
    ∧ pending_until E (polls_done w) (T * 60) n
    ∧ Forall (λ ev, is_retry_event ev = true) mid
    ∧ length (List.filter is_sleep mid) = n
    ∧ data_source_id w' = data_source_id w
    ∧ receivers_of w' = receivers_of w
    ∧ updates_done w' = updates_done w
    ∧ match (elapsed_after E (polls_done w) n <? T * 60)%N,
            classify (reply E (polls_done w + n)) with
      | false, _ =>
          o = Returns false
          ∧ new_events (_wait_for_ingestion_completion E job_id T) w
            = Print (Monitoring job_id) :: mid ++ [Print (IngestionTimeout T)]
          ∧ polls_done w' = (polls_done w + n)%nat
      | true, Complete =>
          o = Returns true
          ∧ (∃ kwargs,
               new_events (_wait_for_ingestion_completion E job_id T) w
               = Print (Monitoring job_id)
                 :: mid ++ [Call "get_ingestion_job" kwargs; Print IngestionCompleted])
          ∧ polls_done w' = S (polls_done w + n)
      | true, Failed reasons =>
          o = Returns false
          ∧ (∃ kwargs,
               new_events (_wait_for_ingestion_completion E job_id T) w
               = Print (Monitoring job_id)
                 :: mid ++ [Call "get_ingestion_job" kwargs;
                            Print (IngestionFailed reasons)])
          ∧ polls_done w' = S (polls_done w + n)
      | true, Pending => False
      end.
Proof.
  destruct (poll_loop_run (poll_fuel T) job_id (clock (log [Print (Monitoring job_id)] w))
              T (log [Print (Monitoring job_id)] w))
    as (n & mid & w' & o & Hloop & Hpending & Hmid & Hsleeps & Hds & Hrecv & Hupd & Hend).
  { lia. }
  { unfold poll_fuel. lia. }
  exists n, mid, w', o.
  cbn [log clock polls_done data_source_id receivers_of updates_done trace] in *.
  rewrite N.sub_diag in *.
  assert (_wait_for_ingestion_completion E job_id T w = (o, w')) as Hwait.
  { unfold _wait_for_ingestion_completion, bind at 1 2.
    cbn [print emit time fst snd]. exact Hloop. }
  rewrite N.add_0_l in Hend.
  split_and!; try done.
  destruct (_ <? _)%N; [destruct (classify (reply E (polls_done w + n)))|]; [| |done|].
  all: destruct Hend as (Ho & Ht & Hp); split_and!; try done.
  1,2: destruct Ht as [kw Ht]; exists kw.
  all: apply new_events_eq; rewrite Hwait; cbn [snd].
  all: by rewrite Ht, <- app_assoc.
Qed.

End Poll.

Section PollOutcomes.

Variable E : env.
Implicit Types (w : world) (job_id : string).

(** The loop stops at one index only. *)
Lemma stop_unique p B n n' :
  pending_until E p B n → pending_until E p B n' →
  ((B ≤ elapsed_after E p n)%N ∨ classify (reply E (p + n)) ≠ Pending) →
  ((B ≤ elapsed_after E p n')%N ∨ classify (reply E (p + n')) ≠ Pending) →
  n = n'.
Proof.
  intros Hn Hn' Hstop Hstop'.
  destruct (Nat.lt_trichotomy n n') as [Hlt|[->|Hlt]]; [|done|].
  - destruct (Hn' n Hlt) as [Hp He]. destruct Hstop; [lia|done].
  - destruct (Hn n' Hlt) as [Hp He]. destruct Hstop'; [lia|done].
Qed.

Lemma last_retry_events (mid : list event) (final : event) (pre : list event) :
  last (pre ++ mid ++ [final]) = Some final.
Proof. by rewrite !app_assoc, last_snoc. Qed.

Lemma last_retry_events2 (mid : list event) (x final : event) (pre : list event) :
  last (pre ++ mid ++ [x; final]) = Some final.
Proof.
  change [x; final] with ([x] ++ [final]). by rewrite !app_assoc, last_snoc.
Qed.

(** How the wait ends when the budget runs out first. *)
Lemma wait_times_out job_id T w n :
  times_out E (polls_done w) (T * 60) n →
  let r := _wait_for_ingestion_completion E job_id T w in
  let new := new_events (_wait_for_ingestion_completion E job_id T) w in
  fst r = Returns false
  ∧ last new = Some (Print (IngestionTimeout T))
  ∧ Forall (λ ev, is_failed_print ev = false) new
  ∧ polls_done (snd r) = (polls_done w + n)%nat
  ∧ length (List.filter is_sleep new) = n.
Proof.
  intros [Hpending Hbudget].
  destruct (wait_run E job_id T w)
    as (n0 & mid & w' & o & Hwait & Hpending0 & Hmid & Hsleeps & _ & _ & _ & Hend).
  assert (n0 = n) as ->.
  { apply (stop_unique _ _ n0 n Hpending0 Hpending); [|by left].
    destruct (_ <? _)%N eqn:Hlt; [|apply N.ltb_ge in Hlt; by left].
    right. by destruct (classify (reply E (polls_done w + n0))). }
  apply N.ltb_ge in Hbudget. rewrite Hbudget in Hend.
  destruct Hend as (-> & Hnew & Hpolls).
  cbn zeta. rewrite Hwait, Hnew. cbn [fst snd].
  split_and!; try done.
  - apply (last_retry_events mid _ [_]).
  - constructor; [done|]. apply Forall_app. split; [|by constructor].
    eapply Forall_impl; [exact Hmid|].
    intros [] Hev; try done. by destruct l.
  - cbn. rewrite List.filter_app, length_app. cbn. lia.
Qed.

Lemma wait_completes job_id T w n :
  completes_at E (polls_done w) (T * 60) n →
  let r := _wait_for_ingestion_completion E job_id T w in
  let new := new_events (_wait_for_ingestion_completion E job_id T) w in
  fst r = Returns true
  ∧ last new = Some (Print IngestionCompleted)
  ∧ polls_done (snd r) = S (polls_done w + n).
Proof.
  intros (Hpending & Hbudget & Hverdict).
  destruct (wait_run E job_id T w)
    as (n0 & mid & w' & o & Hwait & Hpending0 & Hmid & Hsleeps & _ & _ & _ & Hend).
  assert (n0 = n) as ->.
  { apply (stop_unique _ _ n0 n Hpending0 Hpending); [|right; by rewrite Hverdict].
    destruct (_ <? _)%N eqn:Hlt; [|apply N.ltb_ge in Hlt; by left].
    right. by destruct (classify (reply E (polls_done w + n0))). }
  apply N.ltb_lt in Hbudget. rewrite Hbudget, Hverdict in Hend.
  destruct Hend as (-> & [kw Hnew] & Hpolls).
  cbn zeta. rewrite Hwait, Hnew. cbn [fst snd].
  split_and!; try done.
  apply (last_retry_events2 mid _ _ [_]).
Qed.

Lemma wait_fails job_id T w n reasons :
  fails_at E (polls_done w) (T * 60) n reasons →
  let r := _wait_for_ingestion_completion E job_id T w in
  let new := new_events (_wait_for_ingestion_completion E job_id T) w in
  fst r = Returns false
  ∧ last new = Some (Print (IngestionFailed reasons))
  ∧ Forall (λ ev, is_timeout_print ev = false) new
  ∧ polls_done (snd r) = S (polls_done w + n).
Proof.
  intros (Hpending & Hbudget & Hverdict).
  destruct (wait_run E job_id T w)
    as (n0 & mid & w' & o & Hwait & Hpending0 & Hmid & Hsleeps & _ & _ & _ & Hend).
  assert (n0 = n) as ->.
  { apply (stop_unique _ _ n0 n Hpending0 Hpending); [|right; by rewrite Hverdict].
    destruct (_ <? _)%N eqn:Hlt; [|apply N.ltb_ge in Hlt; by left].
    right. by destruct (classify (reply E (polls_done w + n0))). }
  apply N.ltb_lt in Hbudget. rewrite Hbudget, Hverdict in Hend.
  destruct Hend as (-> & [kw Hnew] & Hpolls).
  cbn zeta. rewrite Hwait, Hnew. cbn [fst snd].
  split_and!; try done.
  - apply (last_retry_events2 mid _ _ [_]).
  - constructor; [done|]. apply Forall_app. split; [|by repeat constructor].
    eapply Forall_impl; [exact Hmid|].
    intros [] Hev; try done. by destruct l.
Qed.

(** Every wait ends in exactly one of the three ways. *)
Lemma wait_ends job_id T w :
  ∃ n, times_out E (polls_done w) (T * 60) n
       ∨ completes_at E (polls_done w) (T * 60) n
       ∨ ∃ reasons, fails_at E (polls_done w) (T * 60) n reasons.
Proof.
  destruct (wait_run E job_id T w)
    as (n & mid & w' & o & Hwait & Hpending & _ & _ & _ & _ & _ & Hend).
  exists n. unfold times_out, completes_at, fails_at.
  destruct (_ <? _)%N eqn:Hlt.
  - apply N.ltb_lt in Hlt.
    destruct (classify (reply E (polls_done w + n))) as [|reasons|]; [| |done].
    + right. left. done.
    + right. right. exists reasons. done.
  - apply N.ltb_ge in Hlt. left. done.
Qed.

(** A query that is made and does not settle the job is followed by a
    sleep of 30 seconds, and by the next query exactly when the time used
    so far, sleeps included, is still within the budget. *)
Lemma wait_retries job_id T w n :
  pending_until E (polls_done w) (T * 60) (S n) →
  let r := _wait_for_ingestion_completion E job_id T w in
  let new := new_events (_wait_for_ingestion_completion E job_id T) w in
  (S n ≤ length (List.filter is_sleep new))%nat
  ∧ Forall (λ ev, is_sleep ev = true → ev = Sleep 30) new
  ∧ (polls_done w + S n ≤ polls_done (snd r))%nat
  ∧ ((elapsed_after E (polls_done w) (S n) < T * 60)%N
     ↔ (polls_done w + S (S n) ≤ polls_done (snd r))%nat).
Proof.
  intros Hn.
  destruct (wait_run E job_id T w)
    as (n0 & mid & w' & o & Hwait & Hpending0 & Hmid & Hsleeps & _ & _ & _ & Hend).
  assert (S n ≤ n0)%nat as Hle.
  { destruct (Nat.le_gt_cases (S n) n0) as [|Hlt]; [done|].
    destruct (Hn n0) as [Hp He]; [lia|].
    apply N.ltb_lt in He. rewrite He, Hp in Hend. done. }
  assert (Forall (λ ev, is_sleep ev = true → ev = Sleep 30) mid) as Hmid30.
  { eapply Forall_impl; [exact Hmid|].
    intros [| d | | |] Hev; try done. cbn in Hev.
    apply N.eqb_eq in Hev. by subst. }
  cbn zeta. rewrite Hwait. cbn [fst snd].
  destruct (_ <? _)%N eqn:Hlt;
    [destruct (classify (reply E (polls_done w + n0)))|]; [| |done|].
  all: destruct Hend as (-> & Hnew & Hpolls).
  1,2: destruct Hnew as [kw Hnew].
  all: rewrite Hnew, Hpolls.
  all: split_and!;
    [cbn; rewrite List.filter_app, length_app; cbn; lia
    |constructor; [done|]; apply Forall_app; split; [done|by repeat constructor]
    |lia
    |].
  1,2: split; [lia|]; intros _; apply N.ltb_lt in Hlt;
    eapply N.le_lt_trans; [apply (elapsed_after_mono E _ (S n) n0 Hle)|done].
  apply N.ltb_ge in Hlt. split.
  - intros He. destruct (decide (n0 = S n)) as [->|Hne]; lia.
  - intros Hp. destruct (Hpending0 (S n)); [lia|done].
Qed.

End PollOutcomes.

(** ** The audit signals around a bulk load *)

Section Signals.

Variable E : env.
Implicit Types (w : world) (s : signals).

Lemma bind_ret {A B} (a : A) (k : A → M B) : bind (ret a) k = k a.
Proof. done. Qed.

Lemma connect_receiver_elem (h : handler) (l : list handler) :
  h ∈ connect_receiver h l.
Proof.
  unfold connect_receiver. destruct (decide (h ∈ l)); [done|].
  apply elem_of_app. right. by apply list_elem_of_singleton.
Qed.

Lemma connect_audit_signals_run w :
  ∃ w', connect_audit_signals w = (Returns tt, w')
        ∧ trace w' = trace w
        ∧ audit_connected (receivers_of w').
Proof.
  eexists. split; [reflexivity|]. split; [done|].
  unfold audit_connected. cbn. split_and!; apply connect_receiver_elem.
Qed.

(** Loading fixtures does not touch the signals, whether it raises or not. *)
Lemma load_each_receivers directory fixtures w :
  receivers_of (snd (load_each E directory fixtures w)) = receivers_of w
  ∧ fst (load_each E directory fixtures w) ≠ OutOfFuel.
Proof.
  revert w.
  induction fixtures as [|f rest IH]; intros w; [done|].
  cbn [load_each]. unfold bind, print, emit, lift. cbn [fst snd].
  destruct (loaddata_reply E (path_join directory f)) as [[]|e]; cbn.
  - apply (IH (log [LoadData _] (log [Print _] w))).
  - done.
Qed.

(** [try: load  finally: connect], after the three disconnects. *)
Lemma guarded_load_connected (load : M unit) w :
  (∀ w1, fst (load w1) ≠ OutOfFuel) →
  audit_connected
    (receivers_of (snd (try_finally load connect_audit_signals w))).
Proof.
  intros Htotal. unfold try_finally.
  specialize (Htotal w).
  destruct (load w) as [[[]|e|] w1]; [| |done].
  all: destruct (connect_audit_signals_run w1) as (w2 & -> & _ & Hconn); done.
Qed.

Lemma disconnect_audit_signals_run w :
  ∃ w', disconnect_audit_signals w = (Returns tt, w').
Proof. by eexists. Qed.

(** The block of [_load_django_fixtures_from_dir] that runs when there are
    fixtures to load. *)
Lemma guarded_block_connected (load : M unit) (l : line) w :
  (∀ w1, fst (load w1) ≠ OutOfFuel) →
  audit_connected
    (receivers_of
       (snd ((disconnect_audit_signals ;;;
              try_finally load connect_audit_signals ;;;
              print l) w))).
Proof.
  intros Htotal. unfold bind at 1.
  destruct (disconnect_audit_signals_run w) as [w1 ->].
  pose proof (guarded_load_connected load w1 Htotal) as Hconn.
  unfold bind.
  by destruct (try_finally load connect_audit_signals w1) as [[[]|e|] w2].
Qed.

(** C9. Around every bulk load of fixtures the three audit handlers are
    connected again when the load is over, whether it ends normally or by
    an exception: [load_fixtures] always leaves them connected;
    [_load_django_fixtures_from_dir] leaves them connected whenever it
    disconnected them (the directory has Django fixtures), and otherwise
    leaves the signals as they were. *)
Theorem audit_signals_reconnected w :
  audit_connected (receivers_of (snd (load_fixtures E w)))
  ∧ ∀ directory dir_name,
      let w' := snd (_load_django_fixtures_from_dir E directory dir_name w) in
      match listdir E directory with
      | Ok names =>
          match List.filter is_django_fixture names with
          | [] => receivers_of w' = receivers_of w
          | _ :: _ => audit_connected (receivers_of w')
          end
      | Raise _ => receivers_of w' = receivers_of w
      end.
Proof.
  split.
  - unfold load_fixtures, bind at 1.
    destruct (disconnect_audit_signals_run w) as [w1 ->].
    apply guarded_load_connected. intros w2. unfold bind, lift.
    destruct (listdir E fixtures_dir) as [names|e]; cbn; [|done].
    apply load_each_receivers.
  - intros directory dir_name. cbn zeta.
    unfold _load_django_fixtures_from_dir, try_except, lift.
    destruct (listdir E directory) as [names|e]; [|done].
    rewrite bind_ret.
    destruct (List.filter is_django_fixture names) as [|f rest] eqn:Hf; [done|].
    pose proof (guarded_block_connected
                  (load_each E directory (Str.sort (f :: rest)))
                  (FixturesLoaded dir_name) w) as Hconn.
    destruct ((disconnect_audit_signals ;;; _) w) as [[[]|e|] w2];
      apply Hconn; intros w3; apply load_each_receivers.
Qed.

End Signals.

(** ** The character budget *)

Section Budget.

Variable E : env.

Lemma no_mutation_print l : no_mutation (Print l).
Proof. done. Qed.

Lemma no_mutation_query method kwargs :
  is_mutation (Call method kwargs) = false → no_mutation (Call method kwargs).
Proof. done. Qed.

Variables (v : list string) (iss : list issue).
Hypothesis Hvalid : validate E (all_catalogue_urls E) = Ok (v, iss).
Hypothesis Hover : (3000 < total_chars (deduplicate v))%nat.

Lemma create_over_budget :
  hoare no_mutation (_create_catalogue_data_source E) any_value.
Proof.
  unfold _create_catalogue_data_source.
  hoare_step; [|hoare_steps; apply no_mutation_print].
  hoare_step; [apply validate_emits; intros; apply no_mutation_print|].
  hoare_step; [apply deduplicate_emits; intros; apply no_mutation_print|].
  cbv beta in *. subst.
  match goal with H : ∃ _, _ |- _ => destruct H as [iss' Hv] end.
  rewrite Hvalid in Hv. injection Hv as <- <-.
  apply Nat.ltb_lt in Hover. rewrite Hover.
  hoare_steps; apply no_mutation_print.
Qed.

Lemma get_or_create_over_budget :
  hoare no_mutation (_get_or_create_catalogue_data_source E) any_value.
Proof.
  unfold _get_or_create_catalogue_data_source.
  hoare_step; [|hoare_steps; apply no_mutation_print].
  hoare_step; [apply find_emits; intros; done|].
  hoare_step; [hoare_steps; apply no_mutation_print|].
  hoare_step; [hoare_steps; apply no_mutation_print|apply create_over_budget].
Qed.

Lemma load_catalogue_over_budget :
  hoare no_mutation (load_catalogue E) (λ b, b = false).
Proof.
  unfold load_catalogue.
  hoare_step; [hoare_steps; apply no_mutation_print|].
  hoare_step; [apply get_or_create_over_budget|].
  hoare_step; [hoare_steps|].
  hoare_step; [hoare_steps; apply no_mutation_print|].
  hoare_step; [apply validate_emits; intros; apply no_mutation_print|].
  hoare_step; [apply deduplicate_emits; intros; apply no_mutation_print|].
  cbv beta in *. subst.
  match goal with H : ∃ _, _ |- _ => destruct H as [iss' Hv] end.
  rewrite Hvalid in Hv. injection Hv as <- <-.
  apply Nat.ltb_lt in Hover. rewrite Hover.
  hoare_steps; apply no_mutation_print.
Qed.

End Budget.

(** C1. When the reconciled URL list (validated, then deduplicated) has more
    than 3000 characters in total, loading the catalogue fails (it returns
    [False] or raises) and calls none of [create_data_source],
    [update_data_source] and [start_ingestion_job]. *)
Theorem over_budget_fails_without_mutation E w v iss :
  validate E (all_catalogue_urls E) = Ok (v, iss) →
  (3000 < total_chars (deduplicate v))%nat →
  (fst (load_catalogue E w) = Returns false
   ∨ ∃ e, fst (load_catalogue E w) = Raises e)
  ∧ Forall (λ ev, is_mutation ev = false) (new_events (load_catalogue E) w).
Proof.
  intros Hvalid Hover.
  pose proof (load_catalogue_over_budget E v iss Hvalid Hover) as Hload.
  split.
  - destruct (Hload w) as [_ Hout].
    destruct (fst (load_catalogue E w)) as [b|e|]; [left; by subst|right; eauto|done].
  - by destruct (hoare_new_events _ _ _ w Hload).
Qed.

(** ** Updating the seed URLs of a data source *)

Section Update.

Variable E : env.
Implicit Types (w : world) (kv : list (string * json)).

Lemma get_set_eq k v kv : Dict.get k (Dict.set k v kv) = Some v.
Proof.
  induction kv as [|[k' v'] r IH]; simpl.
  - by rewrite String.eqb_refl.
  - destruct (String.eqb k k') eqn:Hk; simpl.
    + by rewrite String.eqb_refl.
    + by rewrite Hk.
Qed.

Lemma get_set_ne k k' v kv :
  String.eqb k' k = false → Dict.get k' (Dict.set k v kv) = Dict.get k' kv.
Proof.
  intros Hne.
  induction kv as [|[k0 v0] r IH]; simpl.
  - by rewrite Hne.
  - destruct (String.eqb k k0) eqn:Hk; simpl.
    + apply String.eqb_eq in Hk as <-. by rewrite Hne.
    + by rewrite IH.
Qed.

(** Below a key that is set, the new value; beside it, the old dict. *)
Lemma lookup_set k v kv a p :
  Dict.lookup (a :: p) (JDict (Dict.set k v kv)) =
  if String.eqb a k then Dict.lookup p v else Dict.lookup (a :: p) (JDict kv).
Proof.
  simpl. destruct (String.eqb a k) eqn:Ha.
  - apply String.eqb_eq in Ha as ->. by rewrite get_set_eq.
  - by rewrite get_set_ne.
Qed.

Lemma lookup_cons k p kv v :
  Dict.get k kv = Some v → Dict.lookup (k :: p) (JDict kv) = Dict.lookup p v.
Proof. intros Hk. simpl. by rewrite Hk. Qed.

Lemma item_get k j v :
  Dict.item k j = Ok v → ∃ kv, j = JDict kv ∧ Dict.get k kv = Some v.
Proof.
  destruct j as [| | | | |kv]; simpl; try done.
  destruct (Dict.get k kv) as [v'|] eqn:Hg; [|done].
  intros [= <-]. eauto.
Qed.

(** Only the seed URLs change. *)
Lemma replace_seed_urls_lookup seed_urls config config' :
  replace_seed_urls seed_urls config = Ok config' →
  Dict.lookup seed_urls_path config' = Some seed_urls
  ∧ ∀ path, diverges path seed_urls_path = true →
            Dict.lookup path config' = Dict.lookup path config.
Proof.
  unfold replace_seed_urls.
  destruct config as [| | | | |items]; try done.
  destruct (Dict.get "type" items) as [[| | |t| |]|]; try done.
  destruct (Dict.get "webConfiguration" items) as [web0|] eqn:Hweb0; [|done].
  destruct (String.eqb t "WEB"); [|done].
  unfold set_seed_urls.
  destruct (Dict.item "webConfiguration" (JDict items)) as [web|e] eqn:Hweb; [|done].
  destruct (Dict.item "sourceConfiguration" web) as [source|e] eqn:Hsource; [|done].
  destruct (Dict.item "urlConfiguration" source) as [url|e] eqn:Hurl; [|done].
  destruct url as [| | | | |url_items]; try done.
  apply item_get in Hweb as (? & [= <-] & Hweb).
  apply item_get in Hsource as (web_items & -> & Hsource).
  apply item_get in Hurl as (source_items & -> & Hurl).
  intros [= <-]. split.
  - unfold seed_urls_path. by rewrite !lookup_set.
  - intros [|a [|b [|c [|d p]]]]; cbn [diverges seed_urls_path]; try done.
    all: rewrite lookup_set.
    all: destruct (String.eqb a "webConfiguration") eqn:Ha; [|done].
    all: apply String.eqb_eq in Ha as ->.
    1: done.
    all: rewrite (lookup_cons _ _ _ _ Hweb).
    all: rewrite lookup_set.
    all: destruct (String.eqb b "sourceConfiguration") eqn:Hb; [|done].
    all: apply String.eqb_eq in Hb as ->.
    1: done.
    all: rewrite (lookup_cons _ _ _ _ Hsource).
    all: rewrite lookup_set.
    all: destruct (String.eqb c "urlConfiguration") eqn:Hc; [|done].
    all: apply String.eqb_eq in Hc as ->.
    1: done.
    all: rewrite (lookup_cons _ _ _ _ Hurl).
    rewrite lookup_set.
    by destruct (String.eqb d "seedUrls"), p.
Qed.

(** The update never raises: every failure is printed and swallowed. *)
Lemma update_returns urls w : fst (_update_data_source_urls E urls w) = Returns tt.
Proof.
  unfold _update_data_source_urls, update_data_source, try_except, bind, call, lift.
  cbn.
  destruct (get_data_source_reply E) as [ds|e]; cbn; [|done].
  destruct (replace_seed_urls _ _) as [config|e]; cbn; [|done].
  destruct (update_data_source_reply E (updates_done w)) as [[]|e1]; cbn; [done|].
  destruct (Str.contains _ _); cbn; [|done].
  by destruct (update_data_source_reply E (S (updates_done w))) as [[]|e2].
Qed.

(** The service calls of an update whose data source has a web
    configuration: the fetch, the update, and one more update with the
    same arguments when the first is rejected over
    [vectorIngestionConfiguration]. *)
Lemma update_calls urls w ds config :
  get_data_source_reply E = Ok ds →
  replace_seed_urls (seed_urls_of urls) (ds_configuration ds) = Ok config →
  let request :=
    update_request E w (default (data_source_name E) (ds_name ds))
      (default "Catalogue-specific data source" (ds_description ds)) config in
  List.filter is_service_call (new_events (_update_data_source_urls E urls) w)
  = Call "get_data_source" [kb_arg E; ds_arg w]
    :: Call "update_data_source" request
    :: (if rejected_for_vector_config (update_data_source_reply E (updates_done w))
        then [Call "update_data_source" request]
        else []).
Proof.
  intros Hget Hconfig. cbn zeta.
  unfold rejected_for_vector_config.
  destruct (update_data_source_reply E (updates_done w)) as [[]|e1] eqn:Hfirst;
    [|destruct (Str.contains "vectorIngestionConfiguration" (str_exn e1)) eqn:Hvic;
      [destruct (update_data_source_reply E (S (updates_done w))) as [[]|e2] eqn:Hsecond|]].
  all: erewrite new_events_eq;
    [|unfold _update_data_source_urls, update_data_source, try_except, bind, call, lift;
      cbn; rewrite Hget; cbn; rewrite Hconfig; cbn; rewrite Hfirst; cbn;
      rewrite ?Hvic; cbn; rewrite ?Hsecond; cbn;
      rewrite <- !app_assoc; reflexivity].
  all: done.
Qed.

Lemma start_run w :
  ∃ rest,
    trace (snd (_start_ingestion_job E w))
    = trace w ++ Print StartingJob
              :: Call "start_ingestion_job"
                   [kb_arg E; ds_arg w;
                    ("description",
                     JStr ("LNine AI Knowledge Base ingestion - " ++ catalogue_name E
                           ++ " catalogue"))]
              :: rest.
Proof.
  unfold _start_ingestion_job, try_except, bind, call, lift. cbn.
  destruct (start_ingestion_job_reply E) as [job|e]; cbn.
  all: rewrite <- !app_assoc; by eexists.
Qed.

Lemma trace_extends {A} (m : M A) (R : A → Prop) w :
  hoare (λ _, True) m R → ∃ new, trace (snd (m w)) = trace w ++ new.
Proof. intros Hm. destruct (Hm w) as [(new & Ht & _) _]. eauto. Qed.

(** Whatever becomes of the update, the ingestion job is started next. *)
Lemma update_then_start urls w :
  existsb (is_call "start_ingestion_job")
    (new_events (_update_data_source_urls E urls ;;; _start_ingestion_job E) w)
  = true.
Proof.
  pose proof (update_returns urls w) as Hret.
  destruct (trace_extends (_update_data_source_urls E urls) any_value w) as [new1 Hnew1].
  { by apply update_emits. }
  destruct (_update_data_source_urls E urls w) as [o w1] eqn:Hupdate.
  cbn in Hret, Hnew1. subst o.
  destruct (start_run w1) as [rest Hstart].
  erewrite new_events_eq; last first.
  { unfold bind. rewrite Hupdate, Hstart, Hnew1, <- app_assoc. reflexivity. }
  rewrite existsb_app. cbn. by rewrite orb_true_r.
Qed.

End Update.

(** ** A failure to list the data sources *)

Section Listing.

Variable E : env.
Variable e : exn.
Hypothesis Hlist : list_data_sources_reply E = Raise e.

Lemma find_after_listing_error name w :
  _find_data_source_by_name E name w
  = (Returns None,
     log [Print (ErrorListing (str_exn e))] (log [Call "list_data_sources" [kb_arg E]] w)).
Proof.
  unfold _find_data_source_by_name, try_except, bind, call, lift.
  cbn. by rewrite Hlist.
Qed.

End Listing.

(** C8, as the code has it. An error raised while listing the data sources
    is printed and then taken to mean that no data source of that name
    exists: resolution lists once, does not sleep or list again, and goes on
    to create a new data source, with the outcome that creation has. *)
Theorem listing_error_means_create E e w :
  list_data_sources_reply E = Raise e →
  let after_listing :=
    log [Print CreatingDataSource]
      (log [Print (ErrorListing (str_exn e))]
         (log [Call "list_data_sources" [kb_arg E]] w)) in
  fst (_get_or_create_catalogue_data_source E w)
  = fst (_create_catalogue_data_source E after_listing)
  ∧ ∃ rest,
      new_events (_get_or_create_catalogue_data_source E) w
      = Call "list_data_sources" [kb_arg E]
        :: Print (ErrorListing (str_exn e))
        :: Print CreatingDataSource
        :: new_events (_create_catalogue_data_source E) after_listing ++ rest
      ∧ Forall (λ ev, is_call "list_data_sources" ev = false ∧ is_sleep ev = false)
          (new_events (_create_catalogue_data_source E) after_listing ++ rest).
Proof.
  intros Hlist. cbn zeta.
  set (w1 := log [Print CreatingDataSource] _).
  pose proof (create_emits E
                (λ ev, is_call "list_data_sources" ev = false ∧ is_sleep ev = false))
    as Hcreate.
  destruct (hoare_new_events _ _ _ w1 (Hcreate ltac:(done) ltac:(done))) as [Ht HP].
  assert (_get_or_create_catalogue_data_source E w
          = match _create_catalogue_data_source E w1 with
            | (Raises e', w') => (Raises e', log [Print (ErrorGetOrCreate (str_exn e'))] w')
            | r => r
            end) as Hrun.
  { unfold _get_or_create_catalogue_data_source, try_except at 1, bind at 1.
    rewrite (find_after_listing_error E e Hlist). unfold bind at 1. cbn [print emit].
    fold w1. by destruct (_create_catalogue_data_source E w1) as [[id|e'|] w2]. }
  rewrite Hrun.
  destruct (_create_catalogue_data_source E w1) as [[id|e'|] w2] eqn:Hc; cbn [fst snd] in *.
  all: split; [done|].
  1,3: exists [].
  3: exists [Print (ErrorGetOrCreate (str_exn e'))].
  1,2: rewrite app_nil_r.
  all: split;
    [apply new_events_eq; rewrite Hrun; cbn [snd log trace];
     rewrite Ht; subst w1; cbn [log trace]; rewrite <- !app_assoc; done|].
  1,2: done.
  apply Forall_app; split; [done|]. by repeat constructor.
Qed.

(** ** The whole load *)

Section LoadEmits.

Variable E : env.
Variable P : event → Prop.

Hypothesis P_print : ∀ l, l ≠ NoUrlsFound → P (Print l).
Hypothesis P_sleep : ∀ d, P (Sleep d).
Hypothesis P_loaddata : ∀ path, P (LoadData path).
Hypothesis P_upsert : P UpsertFramework.
Hypothesis P_query :
  ∀ method kwargs, is_mutation (Call method kwargs) = false → P (Call method kwargs).
Hypothesis P_create : ∀ kwargs, P (Call "create_data_source" kwargs).
Hypothesis P_start : ∀ kwargs, P (Call "start_ingestion_job" kwargs).

Lemma retry_event_emits ev : is_retry_event ev = true → P ev.
Proof.
  destruct ev as [method kwargs|d|path| |l]; cbn; try done.
  - intros Hm. apply String.eqb_eq in Hm as ->. by apply P_query.
  - destruct l; try done; intros _; by apply P_print.
Qed.

Lemma wait_emits job_id T :
  hoare P (_wait_for_ingestion_completion E job_id T) any_value.
Proof.
  intros w.
  destruct (poll_loop_run E (poll_fuel T) job_id (clock (log [Print (Monitoring job_id)] w))
              T (log [Print (Monitoring job_id)] w))
    as (n & mid & w' & o & Hloop & _ & Hmid & _ & _ & _ & _ & Hend).
  { lia. }
  { unfold poll_fuel. lia. }
  assert (_wait_for_ingestion_completion E job_id T w = (o, w')) as ->.
  { unfold _wait_for_ingestion_completion, bind at 1 2.
    cbn [print emit time fst snd]. exact Hloop. }
  cbn [fst snd].
  assert (Forall P mid) as HPmid.
  { eapply Forall_impl; [exact Hmid|]. apply retry_event_emits. }
  cbn [log trace] in Hend.
  destruct (_ <? _)%N;
    [destruct (classify (reply E (polls_done (log [Print (Monitoring job_id)] w) + n)))|];
    [| |done|].
  all: destruct Hend as (-> & Ht & _).
  1,2: destruct Ht as [kw Ht].
  all: split; [|done].
  all: eexists; rewrite Ht, <- app_assoc; split; [reflexivity|].
  all: apply Forall_app; split; [by repeat constructor; apply P_print|].
  all: apply Forall_app; split; [done|].
  all: repeat constructor; try (by apply P_print); by apply P_query.
Qed.

(** The load, when there is something to load. *)
Lemma load_catalogue_emits :
  all_catalogue_urls E ≠ [] →
  (∀ v iss w name description config config',
     validate E (all_catalogue_urls E) = Ok (v, iss) →
     replace_seed_urls (seed_urls_of (deduplicate v)) config = Ok config' →
     P (Call "update_data_source" (update_request E w name description config'))) →
  hoare P (load_catalogue E) any_value.
Proof.
  intros Hurls Hupdate. unfold load_catalogue.
  hoare_step; [hoare_steps; by apply P_print|].
  hoare_step; [by apply get_or_create_emits|].
  hoare_step; [hoare_steps|].
  hoare_step; [done|].
  hoare_step; [by apply validate_emits|].
  hoare_step; [by apply deduplicate_emits|].
  cbv beta in *. subst.
  match goal with H : ∃ _, _ |- _ => destruct H as [iss Hv] end.
  match goal with H : all_catalogue_urls E = _ |- _ => rewrite <- H in * end.
  hoare_step; [hoare_steps; by apply P_print|].
  hoare_step; [hoare_steps; by apply P_print|].
  hoare_step; [hoare_steps; by apply P_print|].
  hoare_step; [apply update_emits; eauto|].
  hoare_step; [by apply start_emits|].
  hoare_step; [by apply wait_emits|].
  hoare_step; [|hoare_steps; by apply P_print].
  hoare_step; [by apply load_django_fixtures_emits|].
  hoare_steps; by apply P_print.
Qed.

End LoadEmits.

Section Proceeds.

Variable E : env.
Implicit Types (w : world).

Lemma bind_returns {A B} (m : M A) (k : A → M B) w a w' :
  m w = (Returns a, w') → bind m k w = k a w'.
Proof. intros Hm. unfold bind. by rewrite Hm. Qed.

Lemma validate_run urls v iss w :
  validate E urls = Ok (v, iss) →
  ∃ l, _validate_and_clean_urls E urls w = (Returns v, log [Print l] w).
Proof.
  intros Hv. unfold _validate_and_clean_urls, bind at 1, lift. rewrite Hv. cbn [ret].
  destruct iss; by eexists.
Qed.

Lemma deduplicate_run urls w :
  ∃ prints,
    _deduplicate_urls urls w = (Returns (deduplicate urls), log prints w).
Proof.
  unfold _deduplicate_urls, bind. cbn zeta.
  destruct (0 <? _)%nat; cbn.
  - by eexists [_].
  - exists []. unfold log. rewrite app_nil_r. by destruct w.
Qed.

(** The update announces itself first, and leaves the loader's data
    source as it is. *)
Lemma update_first_event urls w :
  data_source_id (snd (_update_data_source_urls E urls w)) = data_source_id w
  ∧ ∃ mid, trace (snd (_update_data_source_urls E urls w))
           = trace w ++ Print (UpdatingDataSource (length urls)) :: mid.
Proof.
  unfold _update_data_source_urls, update_data_source, try_except, bind, call, lift.
  cbn.
  destruct (get_data_source_reply E) as [ds|e]; cbn.
  2: { split; [done|]. rewrite <- !app_assoc. by eexists. }
  destruct (replace_seed_urls _ _) as [config|e]; cbn.
  2: { split; [done|]. rewrite <- !app_assoc. by eexists. }
  destruct (update_data_source_reply E (updates_done w)) as [[]|e1]; cbn.
  { split; [done|]. rewrite <- !app_assoc. by eexists. }
  destruct (Str.contains _ _); cbn.
  2: { split; [done|]. rewrite <- !app_assoc. by eexists. }
  destruct (update_data_source_reply E (S (updates_done w))) as [[]|e2]; cbn.
  all: split; [done|]; rewrite <- !app_assoc; by eexists.
Qed.

Lemma after_start_extends final_urls job_id :
  hoare (λ _, True) (after_start E final_urls job_id) any_value.
Proof.
  unfold after_start.
  hoare_step; [by apply wait_emits|].
  hoare_step; [|hoare_steps; done].
  hoare_step; [by apply load_django_fixtures_emits|].
  hoare_steps; done.
Qed.

(** With a data source, some URL in the files, a validation that returns
    and a list within the budget, the load reaches the update and then the
    start of the job. *)
Lemma load_catalogue_proceeds w id w1 v iss :
  path_exists E (ai_kb_fixtures_dir E) = true →
  _get_or_create_catalogue_data_source E w = (Returns id, w1) →
  all_catalogue_urls E ≠ [] →
  validate E (all_catalogue_urls E) = Ok (v, iss) →
  (total_chars (deduplicate v) ≤ 3000)%nat →
  ∃ pre mid post,
    new_events (load_catalogue E) w
    = pre
      ++ [Print (UrlStats (length (deduplicate v)) (total_chars (deduplicate v)));
          Print LimitOk;
          Print (UpdatingDataSource (length (deduplicate v)))]
      ++ mid
      ++ [Print StartingJob;
          Call "start_ingestion_job"
            [kb_arg E; ("dataSourceId", JStr id);
             ("description",
              JStr ("LNine AI Knowledge Base ingestion - " ++ catalogue_name E
                    ++ " catalogue"))]]
      ++ post.
Proof.
  intros Hexists Hresolve Hurls Hvalid Hbudget.
  destruct (trace_extends (_get_or_create_catalogue_data_source E) any_value w)
    as [new1 Hnew1].
  { by apply get_or_create_emits. }
  rewrite Hresolve in Hnew1. cbn [snd] in Hnew1.
  set (w2 := snd (set_data_source_id id w1)).
  destruct (validate_run _ _ _ w2 Hvalid) as [l Hv].
  destruct (deduplicate_run v (log [Print l] w2)) as [prints Hd].
  set (final := deduplicate v) in *.
  set (w3 := log [Print LimitOk]
               (log [Print (UrlStats (length final) (total_chars final))]
                  (log prints (log [Print l] w2)))).
  destruct (update_first_event final w3) as [Hds [mid Hmid]].
  pose proof (update_returns E final w3) as Ho4.
  destruct (_update_data_source_urls E final w3) as [o4 w4] eqn:Hupdate.
  cbn [fst snd] in *. subst o4.
  destruct (start_run E w4) as [rest Hstart].
  assert (load_catalogue E w
          = (job_id <- _start_ingestion_job E ;; after_start E final job_id) w4) as Hload.
  { unfold load_catalogue. rewrite Hexists. cbn [negb].
    erewrite bind_returns; [|exact Hresolve].
    erewrite bind_returns; [|reflexivity]. fold w2.
    destruct (all_catalogue_urls E) as [|u us] eqn:Hall; [done|].
    erewrite bind_returns; [|exact Hv].
    erewrite bind_returns; [|exact Hd].
    cbn zeta. fold final.
    erewrite bind_returns; [|reflexivity].
    apply Nat.ltb_ge in Hbudget. rewrite Hbudget.
    erewrite bind_returns; [|reflexivity]. fold w3.
    erewrite bind_returns; [|exact Hupdate].
    reflexivity. }
  assert (∃ post, trace (snd (load_catalogue E w))
                  = trace w4 ++ Print StartingJob
                      :: Call "start_ingestion_job"
                           [kb_arg E; ds_arg w4;
                            ("description",
                             JStr ("LNine AI Knowledge Base ingestion - "
                                   ++ catalogue_name E ++ " catalogue"))]
                      :: post) as [post Hpost].
  { rewrite Hload. unfold bind.
    destruct (_start_ingestion_job E w4) as [[job_id|e|] w5]; cbn [snd] in *.
    2,3: by eexists.
    destruct (trace_extends (after_start E final job_id) any_value w5) as [new5 Hnew5].
    { apply after_start_extends. }
    exists (rest ++ new5). rewrite Hnew5, Hstart, <- app_assoc. done. }
  exists (new1 ++ [Print l] ++ prints), mid, post.
  apply new_events_eq. rewrite Hpost, Hmid.
  unfold ds_arg. rewrite Hds.
  subst w3 w2. cbn [log trace set_data_source_id snd data_source_id json_of_id].
  rewrite Hnew1, <- !app_assoc. done.
Qed.

Lemma load_catalogue_no_urls w id w1 :
  path_exists E (ai_kb_fixtures_dir E) = true →
  _get_or_create_catalogue_data_source E w = (Returns id, w1) →
  all_catalogue_urls E = [] →
  fst (load_catalogue E w) = Returns false
  ∧ last (new_events (load_catalogue E) w) = Some (Print NoUrlsFound).
Proof.
  intros Hexists Hresolve Hurls.
  destruct (trace_extends (_get_or_create_catalogue_data_source E) any_value w)
    as [new1 Hnew1].
  { by apply get_or_create_emits. }
  rewrite Hresolve in Hnew1. cbn [snd] in Hnew1.
  assert (load_catalogue E w
          = (Returns false, log [Print NoUrlsFound] (snd (set_data_source_id id w1))))
    as Hload.
  { unfold load_catalogue. rewrite Hexists. cbn [negb].
    erewrite bind_returns; [|exact Hresolve].
    erewrite bind_returns; [|reflexivity].
    by rewrite Hurls. }
  split; [by rewrite Hload|].
  erewrite new_events_eq; [apply last_snoc|].
  rewrite Hload. cbn. by rewrite Hnew1, <- app_assoc.
Qed.

End Proceeds.

(** ** The claims about validation and deduplication *)

(** C7. Validation followed by deduplication turns
    [["https://a.example/x"; "https://a.example/x"; "not-a-url"; EmptyString]] into
    [["https://a.example/x"]], whatever the environment and the state. *)
Theorem validated_deduplicated_example E w :
  fst ((validated_urls <- _validate_and_clean_urls E
                            [JStr "https://a.example/x"; JStr "https://a.example/x";
                             JStr "not-a-url"; JStr EmptyString] ;;
        _deduplicate_urls validated_urls) w)
  = Returns ["https://a.example/x"].
Proof. reflexivity. Qed.

(** C6, where the code departs from it: validation raises on a URL whose
    network location has an opening bracket and no closing one, because
    [urlparse] raises [ValueError] and nothing catches it. *)
Theorem validation_raises_on_unbalanced_bracket E w :
  _validate_and_clean_urls E [JStr "https://a.example/x"; JStr "http://[::1"] w
  = (Raises (ValueError "Invalid IPv6 URL"), w).
Proof. reflexivity. Qed.

(** The rest of C6 holds whenever validation returns: every item of the
    list is then a string; the URLs it returns are the trimmed inputs that
    are not empty and parse with a scheme and a host, in order; and a kept
    URL that is long or looks non-production is reported and kept. *)
Lemma validation_keeps_and_flags E urls valid_urls issues :
  validate E urls = Ok (valid_urls, issues) →
  urls = List.map JStr (str_items urls)
  ∧ valid_urls = List.map Str.strip (List.filter (retained E) (str_items urls))
  ∧ ∀ i url,
      urls !! i = Some (JStr url) → retained E url = true →
      Str.strip url ∈ valid_urls
      ∧ ((200 < String.length (Str.strip url))%nat →
         VeryLong (String.length (Str.strip url)) (Str.take 50 (Str.strip url)) ∈ issues)
      ∧ (is_suspicious (Str.strip url) = true →
         Suspicious (Str.take 50 (Str.strip url)) ∈ issues).
Proof.
  unfold validate. intros Hv.
  split; [by eapply validate_from_strings|].
  split; [by eapply validate_from_retained|].
  revert Hv. generalize 0%nat at 1 as k. revert valid_urls issues.
  induction urls as [|u rest IH]; intros valid_urls issues k Hv i url Hi Hkeep; [done|].
  cbn [validate_from] in Hv.
  destruct (check_url E k u) as [[kept new]|e] eqn:Hc; [|done].
  rewrite validate_from_acc in Hv.
  destruct (validate_from E (S k) rest [] []) as [[v1 iss1]|e] eqn:Hr; [|done].
  injection Hv as <- <-.
  destruct i as [|i]; cbn in Hi.
  - injection Hi as ->.
    destruct (check_url_flags E k url Hkeep) as (issues & Hc' & Hlong & Hsusp).
    rewrite Hc in Hc'. injection Hc' as -> ->. cbn.
    split_and!.
    + apply elem_of_cons. by left.
    + intros Hl. apply elem_of_app. left. by apply Hlong.
    + intros Hs. apply elem_of_app. left. by apply Hsusp.
  - destruct (IH _ _ _ Hr i url Hi Hkeep) as (Hin & Hlong & Hsusp).
    split_and!.
    + apply elem_of_app. by right.
    + intros Hl. apply elem_of_app. right. by apply Hlong.
    + intros Hs. apply elem_of_app. right. by apply Hsusp.
Qed.

(** ** The claims about the poll loop *)

(** C3. Whatever the service answers, the wait returns. It returns [True]
    only when a query, made within the budget after queries that settled
    nothing, finds the status [COMPLETE]; it ends with the failure line only
    when such a query finds [FAILED], and the line carries the reasons of
    that reply; both converses hold; and a query that finds any other
    status, or raises, is followed by a sleep of 30 seconds and by the next
    query exactly when the time used so far, latencies and sleeps included,
    is below the same budget. *)
Theorem poll_loop_outcomes E job_id T w :
  let p := polls_done w in
  let B := (T * 60)%N in
  let r := _wait_for_ingestion_completion E job_id T w in
  let new := new_events (_wait_for_ingestion_completion E job_id T) w in
  (∃ b, fst r = Returns b)
  ∧ (fst r = Returns true → ∃ n, completes_at E p B n)
  ∧ (∀ reasons,
       last new = Some (Print (IngestionFailed reasons)) →
       fst r = Returns false ∧ ∃ n, fails_at E p B n reasons)
  ∧ (∀ n, completes_at E p B n →
          fst r = Returns true ∧ last new = Some (Print IngestionCompleted))
  ∧ (∀ n reasons,
       fails_at E p B n reasons →
       fst r = Returns false ∧ last new = Some (Print (IngestionFailed reasons)))
  ∧ (∀ n, pending_until E p B (S n) →
          (S n ≤ length (List.filter is_sleep new))%nat
          ∧ Forall (λ ev, is_sleep ev = true → ev = Sleep 30) new
          ∧ (p + S n ≤ polls_done (snd r))%nat
          ∧ ((elapsed_after E p (S n) < B)%N ↔ (p + S (S n) ≤ polls_done (snd r))%nat)).
Proof.
  cbn zeta. split_and!.
  - destruct (wait_ends E job_id T w) as [n [Hn|[Hn|[reasons Hn]]]].
    + destruct (wait_times_out E job_id T w n Hn) as (Hr & _). eauto.
    + destruct (wait_completes E job_id T w n Hn) as (Hr & _). eauto.
    + destruct (wait_fails E job_id T w n reasons Hn) as (Hr & _). eauto.
  - intros Htrue.
    destruct (wait_ends E job_id T w) as [n [Hn|[Hn|[reasons Hn]]]]; [|by eauto|].
    + destruct (wait_times_out E job_id T w n Hn) as (Hr & _). congruence.
    + destruct (wait_fails E job_id T w n reasons Hn) as (Hr & _). congruence.
  - intros reasons Hlast.
    destruct (wait_ends E job_id T w) as [n [Hn|[Hn|[reasons' Hn]]]].
    + destruct (wait_times_out E job_id T w n Hn) as (_ & Hl & _). congruence.
    + destruct (wait_completes E job_id T w n Hn) as (_ & Hl & _). congruence.
    + destruct (wait_fails E job_id T w n reasons' Hn) as (Hr & Hl & _).
      rewrite Hl in Hlast. injection Hlast as ->. eauto.
  - intros n Hn. destruct (wait_completes E job_id T w n Hn) as (? & ? & _). done.
  - intros n reasons Hn. destruct (wait_fails E job_id T w n reasons Hn) as (? & ? & _). done.
  - intros n Hn. by apply wait_retries.
Qed.

(** C2, as the code has it. When the budget runs out before any query finds
    a terminal status, the wait returns [False], which is also what it
    returns on a status [FAILED]; the two ends differ only in the last line
    printed: the timeout line, with no failure line before it, or the
    failure line with its reasons, with no timeout line before it. *)
Theorem timeout_and_failure_return_false E job_id T w :
  let p := polls_done w in
  let r := _wait_for_ingestion_completion E job_id T w in
  let new := new_events (_wait_for_ingestion_completion E job_id T) w in
  (∀ n, times_out E p (T * 60) n →
        fst r = Returns false
        ∧ last new = Some (Print (IngestionTimeout T))
        ∧ Forall (λ ev, is_failed_print ev = false) new)
  ∧ (∀ n reasons,
       fails_at E p (T * 60) n reasons →
       fst r = Returns false
       ∧ last new = Some (Print (IngestionFailed reasons))
       ∧ Forall (λ ev, is_timeout_print ev = false) new).
Proof.
  cbn zeta. split.
  - intros n Hn. destruct (wait_times_out E job_id T w n Hn) as (? & ? & ? & _). done.
  - intros n reasons Hn. destruct (wait_fails E job_id T w n reasons Hn) as (? & ? & ? & _).
    done.
Qed.

Lemma stuck_elapsed p n : elapsed_after stuck_env p n = (30 * N.of_nat n)%N.
Proof.
  revert p. induction n as [|n IH]; intros p; [done|].
  cbn [elapsed_after]. rewrite IH. unfold latency. cbn. lia.
Qed.

(** C2 as stated fails: a job that stays [IN_PROGRESS] until the 20 minutes
    are over and a job whose first status is [FAILED] make the wait return
    the same value. *)
Lemma timeout_indistinct_from_failed :
  times_out stuck_env 0 (20 * 60) 40
  ∧ fails_at failing_env 0 (20 * 60) 0 ["boom"]
  ∧ fst (_wait_for_ingestion_completion stuck_env "JOB1" 20 w0)
    = fst (_wait_for_ingestion_completion failing_env "JOB1" 20 w0)
  ∧ fst (_wait_for_ingestion_completion stuck_env "JOB1" 20 w0) = Returns false.
Proof.
  split_and!.
  - split.
    + intros i Hi. split; [done|]. rewrite stuck_elapsed. lia.
    + rewrite stuck_elapsed. lia.
  - split_and!; [intros i Hi; lia|done|done].
  - by vm_compute.
  - by vm_compute.
Qed.

(** ** The theorems at concrete inputs *)

Example layered_load_succeeds :
  fst (load_catalogue layered_env w0) = Returns true
  ∧ audit_connected (receivers_of (snd (load_catalogue layered_env w0))).
Proof. split; [by vm_compute|]. vm_compute. repeat split; by left. Qed.

Example exception_in_loaddata_reconnects :
  let E := {| catalogue_name := "demo";
              fs := fun p => if String.eqb p "fixtures"
                             then Some [("users.json", NoUrlsField)]
                             else None;
              knowledge_base_id := "KB1"; model_id := "model-1";
              region_name := "ca-central-1";
              check_bracketed_netloc := fun _ => None; checknetloc := fun _ => true;
              list_data_sources_reply := Ok []; create_data_source_reply := Ok "DS2";
              get_data_source_reply := Raise (Exception "unused");
              update_data_source_reply := fun _ => Ok tt;
              start_ingestion_job_reply := Ok "JOB1";
              get_ingestion_job_reply := fun _ => (0%N, Raise (Exception "unused"));
              loaddata_reply := fun _ => Raise (Exception "IntegrityError");
              compliance_framework_reply := Ok tt |} in
  fst (load_fixtures E w0) = Raises (Exception "IntegrityError")
  ∧ receivers_of (snd (load_fixtures E w0)) = receivers_of w0.
Proof. by vm_compute. Qed.

Lemma over_budget_witness :
  validate over_budget_env (all_catalogue_urls over_budget_env)
  = Ok ([long_url], [VeryLong 3018 (Str.take 50 long_url)])
  ∧ (3000 < total_chars (deduplicate [long_url]))%nat
  ∧ (fst (load_catalogue over_budget_env w0) = Returns false
     ∨ ∃ e, fst (load_catalogue over_budget_env w0) = Raises e)
  ∧ Forall (λ ev, is_mutation ev = false) (new_events (load_catalogue over_budget_env) w0).
Proof.
  assert (validate over_budget_env (all_catalogue_urls over_budget_env)
          = Ok ([long_url], [VeryLong 3018 (Str.take 50 long_url)])) as Hvalid
    by (vm_compute; reflexivity).
  assert (3000 < total_chars (deduplicate [long_url]))%nat as Hover
    by (apply Nat.ltb_lt; vm_compute; reflexivity).
  split; [exact Hvalid|]. split; [exact Hover|].
  exact (over_budget_fails_without_mutation over_budget_env w0 _ _ Hvalid Hover).
Defined.

Lemma timeout_witness :
  times_out stuck_env 0 (1 * 60) 2
  ∧ fst (_wait_for_ingestion_completion stuck_env "JOB1" 1 w0) = Returns false
  ∧ last (new_events (_wait_for_ingestion_completion stuck_env "JOB1" 1) w0)
    = Some (Print (IngestionTimeout 1))
  ∧ Forall (λ ev, is_failed_print ev = false)
      (new_events (_wait_for_ingestion_completion stuck_env "JOB1" 1) w0).
Proof.
  assert (times_out stuck_env 0 (1 * 60) 2) as Hn.
  { split.
    - intros [|[|i]] Hi; [split; [reflexivity|vm_compute; reflexivity]..|lia].
    - vm_compute. discriminate. }
  split; [exact Hn|].
  exact (proj1 (timeout_and_failure_return_false stuck_env "JOB1" 1 w0) 2 Hn).
Defined.

Lemma poll_loop_witness :
  completes_at slow_env 0 (20 * 60) 2
  ∧ pending_until slow_env 0 (20 * 60) 2
  ∧ (fst (_wait_for_ingestion_completion slow_env "JOB1" 20 w0) = Returns true
     ∧ last (new_events (_wait_for_ingestion_completion slow_env "JOB1" 20) w0)
       = Some (Print IngestionCompleted))
  ∧ (2 ≤ length (List.filter is_sleep
                   (new_events (_wait_for_ingestion_completion slow_env "JOB1" 20) w0)))%nat.
Proof.
  assert (pending_until slow_env 0 (20 * 60) 2) as Hpending.
  { intros [|[|i]] Hi; [split; [reflexivity|vm_compute; reflexivity]..|lia]. }
  assert (completes_at slow_env 0 (20 * 60) 2) as Hn.
  { split_and!; [exact Hpending|vm_compute; reflexivity|reflexivity]. }
  split; [exact Hn|]. split; [exact Hpending|].
  pose proof (poll_loop_outcomes slow_env "JOB1" 20 w0) as H.
  cbv zeta in H.
  split.
  - exact (proj1 (proj2 (proj2 (proj2 H))) 2 Hn).
  - exact (proj1 (proj2 (proj2 (proj2 (proj2 (proj2 H)))) 1%nat Hpending)).
Defined.

Lemma listing_error_witness :
  list_data_sources_reply listing_error_env
  = Raise (Exception "ServiceUnavailableException")
  ∧ fst (_get_or_create_catalogue_data_source listing_error_env w0) = Returns "DS2".
Proof.
  assert (list_data_sources_reply listing_error_env
          = Raise (Exception "ServiceUnavailableException")) as Hlist by reflexivity.
  split; [exact Hlist|].
  rewrite (proj1 (listing_error_means_create listing_error_env _ w0 Hlist)).
  vm_compute. reflexivity.
Defined.

(** C8 as stated fails: after a failed listing the resolution does not list
    again; it creates a data source. *)
Lemma listing_error_not_retried :
  list_data_sources_reply listing_error_env
  = Raise (Exception "ServiceUnavailableException")
  ∧ length (List.filter (is_call "list_data_sources")
              (new_events (_get_or_create_catalogue_data_source listing_error_env) w0))
    = 1%nat
  ∧ existsb is_sleep
      (new_events (_get_or_create_catalogue_data_source listing_error_env) w0)
    = false
  ∧ existsb (is_call "create_data_source")
      (new_events (_get_or_create_catalogue_data_source listing_error_env) w0)
    = true
  ∧ fst (_get_or_create_catalogue_data_source listing_error_env w0) = Returns "DS2".
Proof. by vm_compute. Qed.

Section StrFacts.

Lemma lstrip_head p s :
  match Str.lstrip p s with
  | EmptyString => True
  | String c _ => p c = false
  end.
Proof.
  induction s as [|c r IH]; simpl; [done|].
  destruct (p c) eqn:Hc; [done|]. by simpl.
Qed.

Lemma lstrip_fixed p s :
  match s with EmptyString => True | String c _ => p c = false end →
  Str.lstrip p s = s.
Proof. destruct s as [|c r]; simpl; [done|]. by intros ->. Qed.

Lemma rstrip_head p s :
  match s with EmptyString => True | String c _ => p c = false end →
  match Str.rstrip p s with EmptyString => True | String c _ => p c = false end.
Proof.
  destruct s as [|c r]; simpl; [done|]. intros Hc. rewrite Hc.
  by rewrite andb_false_r.
Qed.

Lemma rstrip_idemp p s : Str.rstrip p (Str.rstrip p s) = Str.rstrip p s.
Proof.
  induction s as [|c r IH]; simpl; [done|].
  destruct (Str.is_empty (Str.rstrip p r) && p c) eqn:Hb; [done|].
  simpl. by rewrite IH, Hb.
Qed.

Lemma strip_idemp s : Str.strip (Str.strip s) = Str.strip s.
Proof.
  unfold Str.strip.
  rewrite (lstrip_fixed _ (Str.rstrip _ _)).
  - apply rstrip_idemp.
  - apply rstrip_head, lstrip_head.
Qed.

End StrFacts.

Section SortFacts.


Lemma ascii_compare_N a b : Ascii.compare a b = (N_of_ascii a ?= N_of_ascii b)%N.
Proof. done. Qed.

Lemma string_compare_refl s : String.compare s s = Eq.
Proof.
  induction s as [|c r IH]; simpl; [done|].
  by rewrite ascii_compare_N, N.compare_refl.
Qed.

Lemma string_compare_lt_trans a b c :
  String.compare a b = Lt → String.compare b c = Lt → String.compare a c = Lt.
Proof.
  revert b c. induction a as [|x a IH]; intros [|y b] [|z c]; simpl; try done.
  rewrite !ascii_compare_N.
  destruct (N.compare_spec (N_of_ascii x) (N_of_ascii y)) as [Hxy|Hxy|Hxy];
    destruct (N.compare_spec (N_of_ascii y) (N_of_ascii z)) as [Hyz|Hyz|Hyz];
    try done.
  - rewrite Hxy, Hyz, N.compare_refl. apply IH.
  - intros _ _. rewrite Hxy. by apply N.compare_lt_iff in Hyz as ->.
  - intros _ _. rewrite <- Hyz. by apply N.compare_lt_iff in Hxy as ->.
  - intros _ _. assert (N_of_ascii x < N_of_ascii z)%N as H by lia.
    by apply N.compare_lt_iff in H as ->.
Qed.

#[local] Instance str_le_trans : Transitive str_le.
Proof.
  intros a b c. unfold str_le, String.leb.
  destruct (String.compare a b) eqn:Hab; try done;
    destruct (String.compare b c) eqn:Hbc; try done; intros _ _.
  - apply String.compare_eq_iff in Hab as ->. by rewrite Hbc.
  - apply String.compare_eq_iff in Hab as ->. by rewrite Hbc.
  - apply String.compare_eq_iff in Hbc as <-. by rewrite Hab.
  - by rewrite (string_compare_lt_trans a b c).
Qed.

#[local] Instance str_le_antisym : AntiSymm eq str_le.
Proof. intros a b. apply String.leb_antisym. Qed.

Lemma insert_sorted_perm x l : Str.insert_sorted x l ≡ₚ x :: l.
Proof.
  induction l as [|y r IH]; simpl; [done|].
  destruct (String.leb x y); [done|].
  rewrite IH. apply Permutation_swap.
Qed.

Lemma sort_perm l : Str.sort l ≡ₚ l.
Proof.
  induction l as [|x r IH]; simpl; [done|].
  fold (Str.sort r). by rewrite insert_sorted_perm, IH.
Qed.

Lemma insert_sorted_sorted x l :
  Sorted str_le l → Sorted str_le (Str.insert_sorted x l).
Proof.
  induction 1 as [|y r Hr IH Hy]; simpl.
  - by repeat constructor.
  - destruct (String.leb x y) eqn:Hxy.
    + constructor; [by constructor|]. by constructor.
    + constructor; [done|].
      assert (str_le y x) as Hyx.
      { destruct (String.leb_total x y) as [H|H]; [congruence|done]. }
      destruct Hy as [|z r' Hz]; simpl; [by constructor|].
      destruct (String.leb x z); by constructor.
Qed.

Lemma sort_sorted l : Sorted str_le (Str.sort l).
Proof.
  induction l as [|x r IH]; simpl; [constructor|].
  by apply insert_sorted_sorted.
Qed.

Lemma sort_permutation l l' : l ≡ₚ l' → Str.sort l = Str.sort l'.
Proof.
  intros Hp. apply (StronglySorted_unique str_le).
  - apply Sorted_StronglySorted, sort_sorted; apply _.
  - apply Sorted_StronglySorted, sort_sorted; apply _.
  - by rewrite !sort_perm.
Qed.

End SortFacts.


Section ValidateMore.

Variable E : env.

Lemma urlparse_value_error url e :
  urlparse E url = Raise e → ∃ msg, e = ValueError msg.
Proof.
  unfold urlparse.
  destruct (split_scheme _) as [scheme rest].
  intros Hraise.
  repeat match type of Hraise with
         | context [if ?b then _ else _] => destruct b
         | context [match ?x with Some _ => _ | None => _ end] => destruct x
         end; try done.
  all: injection Hraise as <-; by eexists.
Qed.

Lemma parse_error_value_error url e :
  parse_error E url = Some e → ∃ msg, e = ValueError msg.
Proof.
  unfold parse_error. destruct (Str.is_empty _); [done|].
  destruct (urlparse E (Str.strip url)) as [?|e'] eqn:Hparse; [done|].
  intros [= <-]. by eapply urlparse_value_error.
Qed.

Lemma check_url_parse_error i item :
  match check_url E i item with
  | Raise e => item_error E item = Some e
  | Ok (kept, issues) =>
      ∃ url,
        item = JStr url
        ∧ parse_error E url = None
        ∧ option_list kept = (if retained E url then [Str.strip url] else [])
        ∧ length (List.filter is_rejection issues) = (if retained E url then 0 else 1)%nat
  end.
Proof.
  destruct item as [| | |url| |]; try done.
  assert (match check_url E i (JStr url) with
          | Raise e => parse_error E url = Some e
          | Ok (kept, issues) =>
              parse_error E url = None
              ∧ option_list kept = (if retained E url then [Str.strip url] else [])
              ∧ length (List.filter is_rejection issues)
                = (if retained E url then 0 else 1)%nat
          end) as Hbody.
  { unfold check_url, parse_error, retained, has_scheme_and_host.
    cbn [strip_item].
    destruct (Str.is_empty (Str.strip url)) eqn:Hempty; [done|].
    destruct (urlparse E (Str.strip url)) as [[scheme netloc]|e]; [|done].
    destruct (Str.is_empty scheme), (Str.is_empty netloc);
      cbn [orb andb negb option_list List.filter is_rejection length]; try done.
    split; [done|]. split; [done|].
    by destruct (200 <? _)%nat, (is_suspicious _). }
  destruct (check_url E i (JStr url)) as [[kept issues]|e]; [|done].
  by exists url.
Qed.

Lemma validate_from_spec i items :
  match validate_from E i items [] [] with
  | Raise e =>
      ∃ k item, items !! k = Some item ∧ item_error E item = Some e
                ∧ ∀ j u, (j < k)%nat → items !! j = Some u → item_error E u = None
  | Ok (v, iss) =>
      Forall (λ u, item_error E u = None) items
      ∧ v = List.map Str.strip (List.filter (retained E) (str_items items))
      ∧ (length (List.filter is_rejection iss) + length v = length items)%nat
  end.
Proof.
  revert i. induction items as [|item rest IH]; intros i; [done|].
  cbn [validate_from].
  pose proof (check_url_parse_error i item) as Hc.
  destruct (check_url E i item) as [[kept issues]|e].
  - destruct Hc as (url & -> & Hnone & Hkept & Hrej).
    rewrite validate_from_acc. specialize (IH (S i)).
    destruct (validate_from E (S i) rest [] []) as [[v iss]|e].
    + destruct IH as (Hall & -> & Hlen). cbn [app].
      split; [by constructor|].
      change (str_items (JStr url :: rest)) with (url :: str_items rest).
      rewrite Hkept, List.filter_app, !length_app, Hrej. cbn [List.filter].
      destruct (retained E url); cbn; [split; [done|lia]|split; [done|lia]].
    + destruct IH as (k & u & Hk & He & Hbefore).
      exists (S k), u. split; [done|]. split; [done|].
      intros [|j] u' Hj Hu'; cbn in Hu'.
      * by injection Hu' as <-.
      * apply (Hbefore j); [lia|done].
  - exists 0%nat, item. split; [done|]. split; [done|]. intros j u Hj. lia.
Qed.

Lemma retained_strip url : retained E (Str.strip url) = retained E url.
Proof. unfold retained. by rewrite strip_idemp. Qed.

Lemma retained_parse_error url : retained E url = true → parse_error E url = None.
Proof.
  unfold retained, parse_error, has_scheme_and_host.
  destruct (Str.is_empty (Str.strip url)); [done|]. cbn.
  by destruct (urlparse E (Str.strip url)) as [[]|].
Qed.

Lemma map_strip_filter_retained urls :
  let v := List.map Str.strip (List.filter (retained E) urls) in
  List.map Str.strip (List.filter (retained E) v) = v.
Proof.
  induction urls as [|u r IH]; cbn; [done|].
  destruct (retained E u) eqn:Hu; cbn; [|done].
  rewrite retained_strip, Hu. cbn. rewrite strip_idemp. f_equal. apply IH.
Qed.

End ValidateMore.


(** X2. The URLs that validation returns are clean already: trimming
    changes none of them, each has a scheme and a host, and validating the
    returned list again returns it as it is, with warnings at most. *)
Theorem validated_urls_are_stable E urls v iss :
  validate E urls = Ok (v, iss) →
  Forall (λ u, Str.strip u = u ∧ retained E u = true) v
  ∧ ∃ iss', validate E (List.map JStr v) = Ok (v, iss')
            ∧ Forall (λ i, is_rejection i = false) iss'.
Proof.
  intros Hv.
  pose proof (validate_from_spec E 0 urls) as Hs. unfold validate in Hv.
  rewrite Hv in Hs. destruct Hs as (_ & -> & _).
  generalize (str_items urls). clear urls Hv. intros urls.
  assert (Forall (λ u, Str.strip u = u ∧ retained E u = true)
            (List.map Str.strip (List.filter (retained E) urls))) as Hall.
  { induction urls as [|u r IH]; cbn; [constructor|].
    destruct (retained E u) eqn:Hu; [|done]. cbn. constructor; [|done].
    by rewrite strip_idemp, retained_strip. }
  split; [done|].
  pose proof (map_strip_filter_retained E urls) as Hfix. cbv zeta in Hfix.
  set (v := List.map Str.strip (List.filter (retained E) urls)) in *.
  pose proof (validate_from_spec E 0 (List.map JStr v)) as Hs.
  unfold validate.
  destruct (validate_from E 0 (List.map JStr v) [] []) as [[v' iss']|e].
  - destruct Hs as (_ & -> & Hlen). rewrite str_items_strings in *.
    rewrite Hfix in *. rewrite length_map in Hlen.
    exists iss'. split; [done|].
    assert (length (List.filter is_rejection iss') = 0%nat) as Hz by lia.
    clear -Hz. induction iss' as [|i r IH]; [constructor|].
    cbn in Hz. destruct (is_rejection i) eqn:Hi; [done|]. constructor; auto.
  - destruct Hs as (k & item & Hk & He & _).
    apply list_elem_of_lookup_2 in Hk.
    apply list_elem_of_In, in_map_iff in Hk as (u & <- & Hu).
    apply list_elem_of_In in Hu.
    rewrite Forall_forall in Hall. pose proof (Hall u Hu) as Hu'.
    cbv beta in Hu'. destruct Hu' as [_ Hr].
    apply retained_parse_error in Hr. cbn [item_error] in He. congruence.
Qed.

Section DeduplicateMore.

Lemma unseen_sublist l seen : unseen l seen `sublist_of` l.
Proof.
  revert seen. induction l as [|u r IH]; intros seen; simpl; [done|].
  destruct (decide (u ∈ seen)).
  - by apply sublist_cons.
  - by apply sublist_skip.
Qed.

Lemma unseen_fresh l seen :
  NoDup l → (∀ u, u ∈ l → u ∉ seen) → unseen l seen = l.
Proof.
  revert seen. induction l as [|u r IH]; intros seen Hnd Hfresh; simpl; [done|].
  apply NoDup_cons in Hnd as [Hu Hr].
  destruct (decide (u ∈ seen)) as [Hin|_].
  - exfalso. apply (Hfresh u); [left|done].
  - f_equal. apply IH; [done|]. intros x Hx.
    assert (x ≠ u) by (intros ->; done).
    specialize (Hfresh x). set_solver.
Qed.

Lemma unseen_union l (A B : gset string) :
  unseen l (A ∪ B) = List.filter (λ u, bool_decide (u ∉ A)) (unseen l B).
Proof.
  revert B. induction l as [|u r IH]; intros B; simpl; [done|].
  destruct (decide (u ∈ A ∪ B)) as [Hin|Hnot].
  - destruct (decide (u ∈ B)) as [HB|HB].
    + apply IH.
    + assert (u ∈ A) as HA by set_solver.
      cbn [List.filter]. rewrite bool_decide_eq_false_2 by (intros H; done).
      rewrite <- IH. f_equal. set_solver.
  - destruct (decide (u ∈ B)) as [HB|HB]; [set_solver|].
    cbn [List.filter]. rewrite bool_decide_eq_true_2 by set_solver.
    f_equal. rewrite <- IH. f_equal. set_solver.
Qed.

Lemma unseen_app l1 l2 seen :
  unseen (l1 ++ l2) seen = unseen l1 seen ++ unseen l2 (list_to_set l1 ∪ seen).
Proof.
  revert seen. induction l1 as [|u r IH]; intros seen; simpl.
  - f_equal. set_solver.
  - destruct (decide (u ∈ seen)) as [Hin|Hnot].
    + rewrite IH. do 2 f_equal. set_solver.
    + simpl. f_equal. rewrite IH. do 2 f_equal. set_solver.
Qed.

Lemma total_chars_sublist l k : l `sublist_of` k → (total_chars l ≤ total_chars k)%nat.
Proof.
  unfold total_chars. induction 1; simpl; lia.
Qed.

Lemma sublist_same_length (l k : list string) :
  l `sublist_of` k → length l = length k → l = k.
Proof.
  induction 1 as [|x l k _ IH|x l k Hs _]; simpl; intros Hlen; [done| |].
  - f_equal. apply IH. lia.
  - apply sublist_length in Hs. lia.
Qed.

End DeduplicateMore.

(** X3. [_deduplicate_urls] leaves a list as it is exactly when the list has
    no repeat, so deduplicating twice is deduplicating once; what it returns
    is a sublist of its argument, so the count of characters never grows; and
    it prints the number of removed URLs exactly when the list has a repeat. *)
Theorem deduplicate_idempotent l :
  deduplicate (deduplicate l) = deduplicate l
  ∧ (NoDup l ↔ deduplicate l = l)
  ∧ deduplicate l `sublist_of` l
  ∧ (total_chars (deduplicate l) ≤ total_chars l)%nat
  ∧ ∀ w, new_events (_deduplicate_urls l) w
         = if decide (NoDup l) then []
           else [Print (RemovedDuplicates (length l - length (deduplicate l)))].
Proof.
  rewrite !deduplicate_unseen.
  assert (NoDup l ↔ unseen l ∅ = l) as Hiff.
  { split.
    - intros Hnd. apply unseen_fresh; [done|set_solver].
    - intros <-. apply NoDup_unseen. }
  split; [|split; [|split; [|split]]].
  - apply unseen_fresh; [apply NoDup_unseen|set_solver].
  - done.
  - apply unseen_sublist.
  - apply total_chars_sublist, unseen_sublist.
  - intros w. unfold new_events, _deduplicate_urls, bind. cbn zeta.
    rewrite !deduplicate_unseen.
    pose proof (unseen_sublist l ∅) as Hsub.
    pose proof (sublist_length _ _ Hsub) as Hlen.
    destruct (decide (NoDup l)) as [Hnd|Hnd].
    + apply Hiff in Hnd. rewrite Hnd, Nat.sub_diag. cbn.
      by rewrite drop_all.
    + destruct (0 <? length l - length (unseen l ∅))%nat eqn:Hpos.
      * cbn. by rewrite drop_app_length.
      * apply Nat.ltb_ge in Hpos. exfalso. apply Hnd, Hiff.
        apply sublist_same_length; [done|lia].
Qed.

(** X4. Deduplicating two lists laid end to end, as [load_catalogue] lays
    the URLs of the catalogue after the base URLs: the result is the
    deduplicated first list, then the deduplicated second list without the
    URLs of the first. *)
Theorem deduplicate_keeps_first_list_first l1 l2 :
  deduplicate (l1 ++ l2)
  = deduplicate l1 ++ List.filter (λ u, bool_decide (u ∉ l1)) (deduplicate l2).
Proof.
  rewrite !deduplicate_unseen, unseen_app. f_equal.
  rewrite unseen_union. clear.
  induction (unseen l2 ∅) as [|u r IH]; [done|]. cbn [List.filter].
  rewrite IH. by rewrite (bool_decide_ext (u ∉ list_to_set l1) (u ∉ l1)) by set_solver.
Qed.

Section LoadUrls.

Lemma map_fmap {A B} (f : A → B) (l : list A) : List.map f l = f <$> l.
Proof. induction l as [|a l IH]; [done|]. cbn. by rewrite IH. Qed.

Lemma read_file_elem name f (entries : list (string * file)) :
  NoDup entries.*1 → (name, f) ∈ entries → read_file name entries = f.
Proof.
  induction entries as [|[n g] r IH]; simpl; intros Hnd Hin.
  - by apply elem_of_nil in Hin.
  - apply NoDup_cons in Hnd as [Hn Hr].
    apply elem_of_cons in Hin as [Heq|Hin].
    + injection Heq as <- <-. by rewrite String.eqb_refl.
    + destruct (String.eqb name n) eqn:Hname.
      * apply String.eqb_eq in Hname as ->. exfalso. apply Hn.
        apply list_elem_of_fmap. by exists (n, f).
      * by apply IH.
Qed.

Lemma read_file_missing name (entries : list (string * file)) :
  name ∉ entries.*1 →
  read_file name entries = Unreadable (OSError ("No such file or directory: " ++ name)).
Proof.
  induction entries as [|[n g] r IH]; simpl; intros Hn; [done|].
  apply not_elem_of_cons in Hn as [Hne Hn].
  destruct (String.eqb name n) eqn:Hname.
  - by apply String.eqb_eq in Hname.
  - by apply IH.
Qed.

Lemma read_file_perm name (entries entries' : list (string * file)) :
  NoDup entries.*1 → entries ≡ₚ entries' →
  read_file name entries = read_file name entries'.
Proof.
  intros Hnd Hp.
  assert (NoDup entries'.*1) as Hnd' by (by rewrite <- Hp).
  destruct (decide (name ∈ entries.*1)) as [Hin|Hout].
  - apply list_elem_of_fmap in Hin as ([n f] & -> & Hin). simpl.
    rewrite (read_file_elem n f entries), (read_file_elem n f entries'); try done.
    by rewrite <- Hp.
  - rewrite !read_file_missing; try done. by rewrite <- Hp.
Qed.

Lemma filter_perm {A} (p : A → bool) (l l' : list A) :
  l ≡ₚ l' → List.filter p l ≡ₚ List.filter p l'.
Proof.
  induction 1 as [|x l l' _ IH|x y l|l l' l'' _ IH1 _ IH2]; simpl.
  - done.
  - destruct (p x); by rewrite IH.
  - destruct (p x), (p y); try done. apply Permutation_swap.
  - by rewrite IH1.
Qed.

End LoadUrls.

(** X5. [_load_catalogue_urls] reads the URL files of a directory in
    ascending order of their names ([catalogue_info.json] and the files that
    are not [.json] left out), so the list of URLs does not depend on the
    order in which [os.listdir] yields the entries. *)
Theorem catalogue_urls_in_file_name_order E E' directory entries entries' :
  fs E directory = Some entries →
  fs E' directory = Some entries' →
  entries ≡ₚ entries' →
  NoDup (List.map fst entries) →
  (∃ json_files,
     Sorted str_le json_files
     ∧ json_files ≡ₚ List.filter is_url_file (List.map fst entries)
     ∧ _load_catalogue_urls E directory
       = flat_map (λ f, urls_of_file (read_file f entries)) json_files)
  ∧ _load_catalogue_urls E directory = _load_catalogue_urls E' directory.
Proof.
  intros Hfs Hfs' Hp Hnd. unfold _load_catalogue_urls. rewrite Hfs, Hfs'. split.
  - eexists. split; [apply sort_sorted|]. split; [apply sort_perm|done].
  - rewrite map_fmap in Hnd. cbv zeta.
    rewrite (sort_permutation (List.filter is_url_file (List.map fst entries'))
               (List.filter is_url_file (List.map fst entries))).
    + apply flat_map_ext. intros name. f_equal. by apply read_file_perm.
    + apply filter_perm. by rewrite !map_fmap, Hp.
Qed.

(** ** Invariants of the world *)

Section Preserves.

Context {A B : Type}.
Variable I : world → Prop.

Lemma preserves_ret (a : A) : preserves I (ret a).
Proof. by intros w. Qed.

Lemma preserves_raise e : preserves I (raise (A:=A) e).
Proof. by intros w. Qed.

Lemma preserves_lift (r : result A) : preserves I (lift r).
Proof. intros w. by destruct r. Qed.

Lemma preserves_bind (m : M A) (k : A → M B) :
  preserves I m → (∀ a, preserves I (k a)) → preserves I (bind m k).
Proof.
  intros Hm Hk w Hw. unfold bind. specialize (Hm w Hw).
  destruct (m w) as [[a|e|] w1]; cbn in *; [by apply Hk|done|done].
Qed.

Lemma preserves_try_except (m : M A) (h : exn → M A) :
  preserves I m → (∀ e, preserves I (h e)) → preserves I (try_except m h).
Proof.
  intros Hm Hh w Hw. unfold try_except. specialize (Hm w Hw).
  destruct (m w) as [[a|e|] w1]; cbn in *; [done|by apply Hh|done].
Qed.

Lemma preserves_try_finally (m : M A) (f : M unit) :
  preserves I m → preserves I f → preserves I (try_finally m f).
Proof.
  intros Hm Hf w Hw. unfold try_finally. specialize (Hm w Hw).
  destruct (m w) as [[a|e|] w1]; cbn in *; [| |done].
  all: specialize (Hf w1 Hm); by destruct (f w1) as [[[]|e'|] w2].
Qed.

End Preserves.

Ltac preserves_step :=
  lazymatch goal with
  | |- preserves _ (bind _ _) => apply preserves_bind; [|intros ?]
  | |- preserves _ (try_except _ _) => apply preserves_try_except; [|intros ?]
  | |- preserves _ (try_finally _ _) => apply preserves_try_finally
  | |- preserves _ (ret _) => apply preserves_ret
  | |- preserves _ (raise _) => apply preserves_raise
  | |- preserves _ (lift _) => apply preserves_lift
  | |- preserves _ (call _ _ _) => unfold call
  | |- preserves _ (print _) => unfold print
  | |- preserves _ (sleep _) => unfold sleep
  | |- preserves _ (if ?b then _ else _) => destruct b eqn:?
  | |- preserves _ (match ?x with _ => _ end) => destruct x eqn:?
  | |- preserves _ (let '(_, _) := ?x in _) => destruct x eqn:?
  end.

Section Frames.

Variable E : env.
Variable I : world → Prop.

Hypothesis I_log : ∀ ev, preserves I (emit ev).
Hypothesis I_data_source : ∀ id, preserves I (set_data_source_id id).
Hypothesis I_update : preserves I next_update.

Local Ltac frames :=
  repeat first [preserves_step | apply I_log | apply I_data_source | apply I_update
                | (by intros ?) ].

Lemma preserves_get_world : preserves I get_world.
Proof. by intros w. Qed.

Lemma preserves_time : preserves I time.
Proof. by intros w. Qed.

Lemma validate_preserves urls : preserves I (_validate_and_clean_urls E urls).
Proof. unfold _validate_and_clean_urls. frames. Qed.

Lemma deduplicate_preserves urls : preserves I (_deduplicate_urls urls).
Proof. unfold _deduplicate_urls. frames. Qed.

Lemma find_preserves name : preserves I (_find_data_source_by_name E name).
Proof. unfold _find_data_source_by_name. frames. Qed.

Lemma create_preserves : preserves I (_create_catalogue_data_source E).
Proof.
  unfold _create_catalogue_data_source.
  preserves_step; [|frames].
  preserves_step; [apply validate_preserves|].
  preserves_step; [apply deduplicate_preserves|].
  frames.
Qed.

Lemma get_or_create_preserves : preserves I (_get_or_create_catalogue_data_source E).
Proof.
  unfold _get_or_create_catalogue_data_source.
  preserves_step; [|frames].
  preserves_step; [apply find_preserves|].
  preserves_step; [frames|].
  preserves_step; [frames|apply create_preserves].
Qed.

Lemma update_preserves urls : preserves I (_update_data_source_urls E urls).
Proof. unfold _update_data_source_urls, update_data_source. frames. Qed.

Lemma start_preserves : preserves I (_start_ingestion_job E).
Proof. unfold _start_ingestion_job. frames. Qed.

End Frames.

(** ** Finding or creating the data source *)

Section Resolve.

Variable E : env.
Implicit Types (w : world).

Lemma find_run name w :
  _find_data_source_by_name E name w
  = match list_data_sources_reply E with
    | Ok summaries =>
        (Returns (List.find (λ ds, String.eqb (fst ds) name) summaries),
         log [Call "list_data_sources" [kb_arg E]] w)
    | Raise e =>
        (Returns None,
         log [Print (ErrorListing (str_exn e))]
           (log [Call "list_data_sources" [kb_arg E]] w))
    end.
Proof.
  unfold _find_data_source_by_name, try_except, call, bind, lift. cbn.
  by destruct (list_data_sources_reply E).
Qed.

Lemma deduplicate_run_prints urls w :
  ∃ prints,
    _deduplicate_urls urls w = (Returns (deduplicate urls), log prints w)
    ∧ Forall (λ ev, is_service_call ev = false) prints.
Proof.
  unfold _deduplicate_urls, bind. cbn zeta.
  destruct (0 <? _)%nat; cbn.
  - eexists [_]. split; [done|]. by repeat constructor.
  - exists []. split; [|constructor].
    unfold log. rewrite app_nil_r. by destruct w.
Qed.

(** The world after a listing that does not find the data source. *)
Lemma get_or_create_not_found w :
  found_data_source E = None →
  ∃ w1 prints,
    w1 = log prints w
    ∧ List.filter is_service_call prints = [Call "list_data_sources" [kb_arg E]]
    ∧ (∃ lines, prints = Call "list_data_sources" [kb_arg E] :: List.map Print lines)
    ∧ _get_or_create_catalogue_data_source E w
      = match _create_catalogue_data_source E w1 with
        | (Raises e, w2) => (Raises e, log [Print (ErrorGetOrCreate (str_exn e))] w2)
        | r => r
        end.
Proof.
  intros Hnone. unfold found_data_source in Hnone.
  unfold _get_or_create_catalogue_data_source, try_except, bind at 1.
  rewrite find_run.
  destruct (list_data_sources_reply E) as [summaries|e].
  - rewrite Hnone. unfold bind, print, emit. cbn.
    exists (log [Print CreatingDataSource] (log [Call "list_data_sources" [kb_arg E]] w)),
      [Call "list_data_sources" [kb_arg E]; Print CreatingDataSource].
    split; [unfold log; cbn; by rewrite <- app_assoc|].
    split; [done|]. split; [by exists [CreatingDataSource]|].
    by destruct (_create_catalogue_data_source E _) as [[id|e|] w2].
  - unfold bind, print, emit. cbn.
    exists (log [Print CreatingDataSource]
              (log [Print (ErrorListing (str_exn e))]
                 (log [Call "list_data_sources" [kb_arg E]] w))),
      [Call "list_data_sources" [kb_arg E]; Print (ErrorListing (str_exn e));
       Print CreatingDataSource].
    split; [unfold log; cbn; by rewrite <- !app_assoc|].
    split; [done|].
    split; [by exists [ErrorListing (str_exn e); CreatingDataSource]|].
    by destruct (_create_catalogue_data_source E _) as [[id|e'|] w2].
Qed.

(** What [_create_catalogue_data_source] does, by the result of the
    validation, the budget and the reply of the service. *)
Lemma create_run w :
  match validate E (all_catalogue_urls E) with
  | Raise e =>
      _create_catalogue_data_source E w
      = (Raises e, log [Print (ErrorCreating (str_exn e))] w)
  | Ok (v, iss) =>
      let final_urls := deduplicate v in
      ∃ prints,
        Forall (λ ev, is_service_call ev = false) prints
        ∧ if (3000 <? total_chars final_urls)%nat then
            _create_catalogue_data_source E w
            = (Raises (Exception ("URL character limit exceeded: "
                                  ++ str_nat (total_chars final_urls) ++ " > 3000")),
               log prints w)
          else
            ∃ kwargs,
              Dict.get "name" kwargs = Some (JStr (data_source_name E))
              ∧ Dict.get "dataSourceConfiguration" kwargs
                = Some (new_web_configuration (seed_urls_of final_urls))
              ∧ _create_catalogue_data_source E w
                = match create_data_source_reply E with
                  | Ok id =>
                      (Returns id,
                       log [Print (CreatedDataSource id)]
                         (log [Call "create_data_source" kwargs] (log prints w)))
                  | Raise e =>
                      (Raises e,
                       log [Print (ErrorCreating (str_exn e))]
                         (log [Call "create_data_source" kwargs] (log prints w)))
                  end
  end.
Proof.
  destruct (validate E (all_catalogue_urls E)) as [[v iss]|e] eqn:Hv.
  - cbv zeta.
    destruct (validate_run E _ _ _ w Hv) as [l Hrun].
    destruct (deduplicate_run_prints v (log [Print l] w)) as (prints & Hd & Hprints).
    set (final := deduplicate v) in *.
    set (large := if (50 <? length final)%nat
                  then [Print (LargeUrlCount (length final))] else []).
    assert (Forall (λ ev, is_service_call ev = false) large) as Hlarge.
    { unfold large. destruct (50 <? _)%nat; by repeat constructor. }
    destruct (3000 <? total_chars final)%nat eqn:Hover.
    + exists (Print l :: prints ++ large
              ++ [Print (CreateLimitExceeded (total_chars final));
                  Print (ErrorCreating
                           (str_exn (Exception ("URL character limit exceeded: "
                                                ++ str_nat (total_chars final)
                                                ++ " > 3000"))))]).
      split.
      { constructor; [done|]. rewrite !Forall_app. split; [done|]. split; [done|].
        by repeat constructor. }
      unfold _create_catalogue_data_source, try_except. cbv zeta.
      erewrite bind_returns; [|exact Hrun].
      erewrite bind_returns; [|exact Hd]. fold final.
      assert (∀ w', ((if (50 <? length final)%nat
                      then print (LargeUrlCount (length final)) else ret tt) w')
                    = (Returns tt, log large w')) as Hl.
      { intros w'. unfold large. destruct (50 <? length final)%nat; [done|].
        unfold ret, log. rewrite app_nil_r. by destruct w'. }
      erewrite bind_returns; [|apply Hl]. rewrite Hover.
      unfold bind, print, emit, raise. cbn. f_equal.
      unfold log. cbn. f_equal.
      rewrite <- !app_assoc. cbn [app]. by rewrite <- ?app_assoc.
    + exists (Print l :: prints ++ large).
      split.
      { constructor; [done|]. by rewrite Forall_app. }
      exists [kb_arg E;
              ("name", JStr (data_source_name E));
              ("description",
               JStr ("Fixture-managed data source for " ++ catalogue_name E
                     ++ " catalogue with Claude parser"));
              ("dataSourceConfiguration", new_web_configuration (seed_urls_of final));
              ("vectorIngestionConfiguration",
               parser_configuration
                 (if Str.is_empty (region_name E) then "ca-central-1" else region_name E)
                 (model_id E))].
      split; [|split]; cycle 2.
      * unfold _create_catalogue_data_source, try_except. cbv zeta.
        erewrite bind_returns; [|exact Hrun].
        erewrite bind_returns; [|exact Hd]. fold final.
        assert (∀ w', ((if (50 <? length final)%nat
                        then print (LargeUrlCount (length final)) else ret tt) w')
                      = (Returns tt, log large w')) as Hl.
        { intros w'. unfold large. destruct (50 <? length final)%nat; [done|].
          unfold ret, log. rewrite app_nil_r. by destruct w'. }
        erewrite bind_returns; [|apply Hl]. rewrite Hover.
        unfold call, bind, print, emit, lift. cbn.
        destruct (create_data_source_reply E) as [id|e]; cbn.
        -- f_equal. unfold log. cbn. f_equal.
           rewrite <- !app_assoc. cbn [app]. by rewrite <- ?app_assoc.
        -- f_equal. unfold log. cbn. f_equal.
           rewrite <- !app_assoc. cbn [app]. by rewrite <- ?app_assoc.
      * reflexivity.
      * reflexivity.
  - unfold _create_catalogue_data_source, try_except, _validate_and_clean_urls.
    cbv zeta. unfold bind at 1. unfold bind at 1. unfold lift. by rewrite Hv.
Qed.

End Resolve.

Section ResolveOutcome.

Variable E : env.
Implicit Types (w : world).

Lemma filter_none {A} (p : A → bool) (l : list A) :
  Forall (λ x, p x = false) l → List.filter p l = [].
Proof.
  induction 1 as [|x l Hx _ IH]; [done|]. cbn. by rewrite Hx.
Qed.

Lemma no_call_no_mutation (l : list event) :
  Forall (λ ev, is_service_call ev = false) l →
  Forall (λ ev, is_mutation ev = false) l.
Proof. intros H. eapply Forall_impl; [exact H|]. by intros []. Qed.

Lemma get_or_create_found w ds :
  found_data_source E = Some ds →
  String.eqb (fst ds) (data_source_name E) = true
  ∧ _get_or_create_catalogue_data_source E w
    = (Returns (snd ds),
       log [Print (FoundDataSource (snd ds))]
         (log [Call "list_data_sources" [kb_arg E]] w)).
Proof.
  unfold found_data_source. intros Hfound.
  destruct (list_data_sources_reply E) as [summaries|e] eqn:Hlist; [|done].
  split.
  - by apply find_some in Hfound as [_ Hname].
  - unfold _get_or_create_catalogue_data_source, try_except, bind at 1.
    rewrite find_run, Hlist, Hfound. done.
Qed.

(** The outcome of [_get_or_create_catalogue_data_source] is settled by the
    listing, the validation, the budget and the reply to the creation. *)
Lemma get_or_create_outcome w :
  fst (_get_or_create_catalogue_data_source E w)
  = match found_data_source E with
    | Some ds => Returns (snd ds)
    | None =>
        match validate E (all_catalogue_urls E) with
        | Raise e => Raises e
        | Ok (v, _) =>
            if (3000 <? total_chars (deduplicate v))%nat then
              Raises (Exception ("URL character limit exceeded: "
                                 ++ str_nat (total_chars (deduplicate v)) ++ " > 3000"))
            else
              match create_data_source_reply E with
              | Ok id => Returns id
              | Raise e => Raises e
              end
        end
    end.
Proof.
  destruct (found_data_source E) as [ds|] eqn:Hfound.
  - destruct (get_or_create_found w ds Hfound) as [_ ->]. done.
  - destruct (get_or_create_not_found E w Hfound) as (w1 & prints & _ & _ & _ & ->).
    pose proof (create_run E w1) as Hc.
    destruct (validate E (all_catalogue_urls E)) as [[v iss]|e].
    + cbv zeta in Hc. destruct Hc as (prints' & _ & Hc).
      destruct (3000 <? _)%nat.
      * by rewrite Hc.
      * destruct Hc as (kwargs & _ & _ & ->).
        by destruct (create_data_source_reply E).
    + by rewrite Hc.
Qed.

End ResolveOutcome.

(** X6. When the listing has a data source with the name of the catalogue,
    [_get_or_create_catalogue_data_source] returns the id of the first such
    summary after one call of the service, the listing; it creates nothing
    and does not look at the URLs. *)
Theorem existing_data_source_is_reused E w ds :
  found_data_source E = Some ds →
  fst ds = data_source_name E
  ∧ fst (_get_or_create_catalogue_data_source E w) = Returns (snd ds)
  ∧ new_events (_get_or_create_catalogue_data_source E) w
    = [Call "list_data_sources" [kb_arg E]; Print (FoundDataSource (snd ds))].
Proof.
  intros Hfound. destruct (get_or_create_found E w ds Hfound) as [Hname Hrun].
  split; [by apply String.eqb_eq|]. split; [by rewrite Hrun|].
  apply new_events_eq. rewrite Hrun. cbn. by rewrite <- app_assoc.
Qed.

(** X7. When the listing has no data source with the name, and the URLs
    validate and are within the budget, the resolution calls
    [create_data_source] once, with the name of the catalogue and a web
    configuration whose seed URLs are the validated, deduplicated URLs; it
    returns the id the service answers, or raises the error of the service.
    The configuration it submits is one that [_update_data_source_urls]
    accepts: replacing its seed URLs gives the configuration that a creation
    with the new URLs would submit. *)
Theorem created_data_source_is_seeded E w v iss :
  found_data_source E = None →
  validate E (all_catalogue_urls E) = Ok (v, iss) →
  (total_chars (deduplicate v) ≤ 3000)%nat →
  let final_urls := deduplicate v in
  ∃ kwargs,
    List.filter is_service_call (new_events (_get_or_create_catalogue_data_source E) w)
    = [Call "list_data_sources" [kb_arg E]; Call "create_data_source" kwargs]
    ∧ Dict.get "name" kwargs = Some (JStr (data_source_name E))
    ∧ Dict.get "dataSourceConfiguration" kwargs
      = Some (new_web_configuration (seed_urls_of final_urls))
    ∧ Dict.lookup seed_urls_path (new_web_configuration (seed_urls_of final_urls))
      = Some (seed_urls_of final_urls)
    ∧ (∀ urls, replace_seed_urls (seed_urls_of urls)
                 (new_web_configuration (seed_urls_of final_urls))
               = Ok (new_web_configuration (seed_urls_of urls)))
    ∧ fst (_get_or_create_catalogue_data_source E w)
      = match create_data_source_reply E with
        | Ok id => Returns id
        | Raise e => Raises e
        end.
Proof.
  intros Hfound Hv Hbudget. cbv zeta.
  pose proof (get_or_create_outcome E w) as Hout.
  rewrite Hfound, Hv in Hout. apply Nat.ltb_ge in Hbudget. rewrite Hbudget in Hout.
  destruct (get_or_create_not_found E w Hfound) as (w1 & prints & -> & Hprints & _ & Hrun).
  pose proof (create_run E (log prints w)) as Hc. rewrite Hv in Hc. cbv zeta in Hc.
  destruct Hc as (prints' & Hprints' & Hc). rewrite Hbudget in Hc.
  destruct Hc as (kwargs & Hname & Hconfig & Hc).
  exists kwargs. split; [|by split_and!].
  apply filter_none in Hprints'.
  unfold new_events. rewrite Hrun, Hc.
  destruct (create_data_source_reply E) as [id|e]; cbn.
  all: rewrite <- !app_assoc, drop_app_length, !List.filter_app, Hprints, Hprints'; done.
Qed.

(** ** More about the update of the seed URLs *)

Section UpdateMore.

Variable E : env.
Implicit Types (w : world).

Lemma set_set k v1 v2 kv : Dict.set k v2 (Dict.set k v1 kv) = Dict.set k v2 kv.
Proof.
  induction kv as [|[k' v'] r IH]; simpl.
  - by rewrite String.eqb_refl.
  - destruct (String.eqb k k') eqn:Hk; simpl.
    + by rewrite String.eqb_refl.
    + by rewrite Hk, IH.
Qed.

Lemma set_get_same k v kv : Dict.get k kv = Some v → Dict.set k v kv = kv.
Proof.
  induction kv as [|[k' v'] r IH]; simpl; [done|].
  destruct (String.eqb k k') eqn:Hk.
  - apply String.eqb_eq in Hk as ->. by intros [= ->].
  - intros Hr. by rewrite IH.
Qed.

Lemma item_dict k kv :
  Dict.item k (JDict kv)
  = match Dict.get k kv with Some v => Ok v | None => Raise (KeyError k) end.
Proof. done. Qed.

(** [set_seed_urls] succeeds exactly when the three dicts are on the path. *)
Lemma set_seed_urls_ok seed_urls items items' :
  set_seed_urls seed_urls items = Ok items' →
  ∃ web_items source_items url_items,
    Dict.get "webConfiguration" items = Some (JDict web_items)
    ∧ Dict.get "sourceConfiguration" web_items = Some (JDict source_items)
    ∧ Dict.get "urlConfiguration" source_items = Some (JDict url_items)
    ∧ items' = Dict.set "webConfiguration"
                 (JDict (Dict.set "sourceConfiguration"
                           (JDict (Dict.set "urlConfiguration"
                                     (JDict (Dict.set "seedUrls" seed_urls url_items))
                                     source_items))
                           web_items))
                 items.
Proof.
  unfold set_seed_urls. rewrite item_dict.
  destruct (Dict.get "webConfiguration" items) as [web|] eqn:Hweb; [|done].
  destruct web as [| | | | |web_items]; try done.
  rewrite item_dict.
  destruct (Dict.get "sourceConfiguration" web_items) as [source|] eqn:Hsource; [|done].
  destruct source as [| | | | |source_items]; try done.
  rewrite item_dict.
  destruct (Dict.get "urlConfiguration" source_items) as [url|] eqn:Hurl; [|done].
  destruct url as [| | | | |url_items]; try done.
  intros [= <-]. by eexists _, _, _.
Qed.

Lemma set_seed_urls_paths seed_urls items web_items source_items url_items :
  Dict.get "webConfiguration" items = Some (JDict web_items) →
  Dict.get "sourceConfiguration" web_items = Some (JDict source_items) →
  Dict.get "urlConfiguration" source_items = Some (JDict url_items) →
  set_seed_urls seed_urls items
  = Ok (Dict.set "webConfiguration"
          (JDict (Dict.set "sourceConfiguration"
                    (JDict (Dict.set "urlConfiguration"
                              (JDict (Dict.set "seedUrls" seed_urls url_items))
                              source_items))
                    web_items))
          items).
Proof.
  intros Hweb Hsource Hurl. unfold set_seed_urls.
  rewrite item_dict, Hweb, item_dict, Hsource, item_dict, Hurl. done.
Qed.

Lemma replace_seed_urls_ok seed_urls config config' :
  replace_seed_urls seed_urls config = Ok config' →
  ∃ items items',
    config = JDict items ∧ config' = JDict items'
    ∧ Dict.get "type" items = Some (JStr "WEB")
    ∧ set_seed_urls seed_urls items = Ok items'.
Proof.
  unfold replace_seed_urls.
  destruct config as [| | | | |items]; try done.
  destruct (Dict.get "type" items) as [[| | |t| |]|] eqn:Ht; try done.
  destruct (Dict.get "webConfiguration" items) eqn:Hweb; [|done].
  destruct (String.eqb t "WEB") eqn:Hweb_type; [|done].
  apply String.eqb_eq in Hweb_type as ->.
  destruct (set_seed_urls seed_urls items) as [items'|e] eqn:Hset; [|done].
  intros [= <-]. by eexists _, _.
Qed.

Lemma replace_seed_urls_set seed_urls items items' :
  Dict.get "type" items = Some (JStr "WEB") →
  set_seed_urls seed_urls items = Ok items' →
  replace_seed_urls seed_urls (JDict items) = Ok (JDict items').
Proof.
  intros Ht Hset. unfold replace_seed_urls. rewrite Ht.
  destruct (set_seed_urls_ok _ _ _ Hset) as (web & ? & ? & -> & _).
  by rewrite Hset.
Qed.

Lemma replace_seed_urls_not_web seed_urls config :
  Dict.lookup ["type"] config ≠ Some (JStr "WEB") →
  ∃ e, replace_seed_urls seed_urls config = Raise e.
Proof.
  intros Ht. destruct (replace_seed_urls seed_urls config) as [config'|e] eqn:Hr.
  - apply replace_seed_urls_ok in Hr as (items & items' & -> & _ & Htype & _).
    exfalso. apply Ht. cbn. by rewrite Htype.
  - by eexists.
Qed.

Lemma update_not_replaced urls w e :
  (get_data_source_reply E = Raise e
   ∨ ∃ ds, get_data_source_reply E = Ok ds
           ∧ replace_seed_urls (seed_urls_of urls) (ds_configuration ds) = Raise e) →
  _update_data_source_urls E urls w
  = (Returns tt,
     log [Print (ErrorUpdating (str_exn e))]
       (log [Call "get_data_source" [kb_arg E; ds_arg w]]
          (log [Print (UpdatingDataSource (length urls))] w))).
Proof.
  unfold _update_data_source_urls, try_except, bind, call, lift. cbn.
  intros [Hget|(ds & Hget & Hreplace)]; rewrite Hget; cbn; [done|].
  by rewrite Hreplace.
Qed.

End UpdateMore.

(** X8. [_update_data_source_urls] does not call [update_data_source]
    when it cannot read the data source, or when the data source is no web
    crawler: it prints the error and returns, and the only call of the
    service is [get_data_source]. *)
Theorem update_skipped_when_not_web_crawler E urls w :
  (∀ e, get_data_source_reply E = Raise e →
        _update_data_source_urls E urls w
        = (Returns tt,
           log [Print (ErrorUpdating (str_exn e))]
             (log [Call "get_data_source" [kb_arg E; ds_arg w]]
                (log [Print (UpdatingDataSource (length urls))] w))))
  ∧ (∀ ds, get_data_source_reply E = Ok ds →
           Dict.lookup ["type"] (ds_configuration ds) ≠ Some (JStr "WEB") →
           ∃ e, _update_data_source_urls E urls w
                = (Returns tt,
                   log [Print (ErrorUpdating (str_exn e))]
                     (log [Call "get_data_source" [kb_arg E; ds_arg w]]
                        (log [Print (UpdatingDataSource (length urls))] w)))).
Proof.
  split.
  - intros e Hget. apply update_not_replaced. by left.
  - intros ds Hget Htype.
    destruct (replace_seed_urls_not_web (seed_urls_of urls) _ Htype) as [e He].
    exists e. apply update_not_replaced. right. by exists ds.
Qed.

(** X9. The seed URLs are replaced, not extended: replacing them a second
    time gives what replacing them once with the second list gives; whether
    the replacement succeeds does not depend on the URLs; and replacing them
    by the same list again changes nothing. *)
Theorem seed_urls_last_write_wins seed_urls1 seed_urls2 config config1 :
  replace_seed_urls seed_urls1 config = Ok config1 →
  replace_seed_urls seed_urls2 config1 = replace_seed_urls seed_urls2 config
  ∧ (∃ config2, replace_seed_urls seed_urls2 config = Ok config2)
  ∧ replace_seed_urls seed_urls1 config1 = Ok config1.
Proof.
  intros Hr.
  apply replace_seed_urls_ok in Hr as (items & items1 & -> & -> & Htype & Hset).
  destruct (set_seed_urls_ok _ _ _ Hset) as (web & source & url & Hweb & Hsource & Hurl & ->).
  assert (∀ s, replace_seed_urls s (JDict items)
               = Ok (JDict (Dict.set "webConfiguration"
                              (JDict (Dict.set "sourceConfiguration"
                                        (JDict (Dict.set "urlConfiguration"
                                                  (JDict (Dict.set "seedUrls" s url))
                                                  source))
                                        web))
                              items))) as Hbase.
  { intros s. apply replace_seed_urls_set; [done|]. by apply set_seed_urls_paths. }
  assert (∀ s, replace_seed_urls s
                 (JDict (Dict.set "webConfiguration"
                           (JDict (Dict.set "sourceConfiguration"
                                     (JDict (Dict.set "urlConfiguration"
                                               (JDict (Dict.set "seedUrls" seed_urls1 url))
                                               source))
                                     web))
                           items))
               = Ok (JDict (Dict.set "webConfiguration"
                              (JDict (Dict.set "sourceConfiguration"
                                        (JDict (Dict.set "urlConfiguration"
                                                  (JDict (Dict.set "seedUrls" s url))
                                                  source))
                                        web))
                              items))) as Hnext.
  { intros s. erewrite replace_seed_urls_set; cycle 1.
    - rewrite get_set_ne; [exact Htype|done].
    - apply set_seed_urls_paths; apply get_set_eq.
    - by rewrite !set_set. }
  split; [by rewrite Hnext, Hbase|]. split; [by eexists|]. apply Hnext.
Qed.

(** ** The outcome of a load *)

Section Outcome.

Variable E : env.
Implicit Types (w : world).

Lemma hoare_total {A} (m : M A) (R : A → Prop) w :
  hoare (λ _, True) m R → fst (m w) ≠ OutOfFuel.
Proof. intros Hm. destruct (Hm w) as [_ Ho]. by destruct (fst (m w)). Qed.

Lemma try_except_print_returns (m : M unit) (l : exn → line) w :
  fst (try_except m (λ e, print (l e)) w) ≠ OutOfFuel →
  fst (try_except m (λ e, print (l e)) w) = Returns tt.
Proof.
  unfold try_except. by destruct (m w) as [[[]|e|] w1].
Qed.

Lemma from_dir_returns directory dir_name w :
  fst (_load_django_fixtures_from_dir E directory dir_name w) = Returns tt.
Proof.
  apply (try_except_print_returns _ (λ e, ErrorLoadingFixturesFrom dir_name (str_exn e))).
  apply (hoare_total (_load_django_fixtures_from_dir E directory dir_name) any_value).
  by apply load_from_dir_emits.
Qed.

Lemma load_django_fixtures_returns w : fst (_load_django_fixtures E w) = Returns tt.
Proof.
  apply (try_except_print_returns _ (λ e, ErrorLoadingFixtures (str_exn e))).
  apply (hoare_total (_load_django_fixtures E) any_value).
  by apply load_django_fixtures_emits.
Qed.

Lemma wait_returns job_id T w :
  ∃ b, fst (_wait_for_ingestion_completion E job_id T w) = Returns b
       ∧ (b = true ↔ ∃ n, completes_at E (polls_done w) (T * 60) n).
Proof.
  destruct (wait_run E job_id T w) as (n & mid & w' & o & Hrun & Hpending & _ & _ & _ & _ & _ & Hcase).
  rewrite Hrun. cbn [fst].
  destruct (elapsed_after E (polls_done w) n <? T * 60)%N eqn:Hlt.
  - apply N.ltb_lt in Hlt.
    destruct (classify (reply E (polls_done w + n))) as [|reasons|] eqn:Hclass; [| |done].
    + destruct Hcase as (-> & _). exists true. split; [done|].
      split; [|done]. intros _. by exists n.
    + destruct Hcase as (-> & _). exists false. split; [done|].
      split; [done|]. intros [n' (Hp' & Hlt' & Hc')].
      assert (n = n') as <-.
      { apply (stop_unique E (polls_done w) (T * 60)); try done.
        - right. by rewrite Hclass.
        - right. by rewrite Hc'. }
      congruence.
  - apply N.ltb_ge in Hlt. destruct Hcase as (-> & _). exists false. split; [done|].
    split; [done|]. intros [n' (Hp' & Hlt' & Hc')].
    assert (n = n') as <-.
    { apply (stop_unique E (polls_done w) (T * 60)); try done.
      - by left.
      - right. by rewrite Hc'. }
    lia.
Qed.

Lemma after_start_outcome final_urls job_id w :
  fst (after_start E final_urls job_id w)
  = fst (_wait_for_ingestion_completion E job_id 20 w).
Proof.
  destruct (wait_returns job_id 20 w) as (b & Hb & _).
  unfold after_start, bind at 1.
  destruct (_wait_for_ingestion_completion E job_id 20 w) as [o w1].
  cbn [fst] in Hb. subst o. cbn [fst].
  destruct b; [|done].
  unfold bind at 1.
  pose proof (load_django_fixtures_returns w1) as Hf.
  destruct (_load_django_fixtures E w1) as [o w2]. cbn [fst] in Hf. by subst o.
Qed.

Lemma start_run_outcome w :
  _start_ingestion_job E w
  = let request :=
      Call "start_ingestion_job"
        [kb_arg E; ds_arg w;
         ("description",
          JStr ("LNine AI Knowledge Base ingestion - " ++ catalogue_name E
                ++ " catalogue"))] in
    match start_ingestion_job_reply E with
    | Ok job_id =>
        (Returns job_id,
         log [Print (JobStarted job_id)] (log [request] (log [Print StartingJob] w)))
    | Raise e =>
        (Raises e,
         log [Print (ErrorStartingJob (str_exn e))]
           (log [request] (log [Print StartingJob] w)))
    end.
Proof.
  unfold _start_ingestion_job, try_except, call, bind, lift. cbn.
  by destruct (start_ingestion_job_reply E).
Qed.

(** The status queries of a load start where those before it ended. *)
Lemma polls_done_log evs w : polls_done (log evs w) = polls_done w.
Proof. done. Qed.

Lemma load_catalogue_reaches_start w id w1 v iss :
  path_exists E (ai_kb_fixtures_dir E) = true →
  _get_or_create_catalogue_data_source E w = (Returns id, w1) →
  all_catalogue_urls E ≠ [] →
  validate E (all_catalogue_urls E) = Ok (v, iss) →
  (total_chars (deduplicate v) ≤ 3000)%nat →
  ∃ w4,
    polls_done w4 = polls_done w
    ∧ load_catalogue E w
      = (job_id <- _start_ingestion_job E ;; after_start E (deduplicate v) job_id) w4.
Proof.
  intros Hexists Hresolve Hurls Hvalid Hbudget.
  assert (polls_done w1 = polls_done w) as Hp1.
  { pose proof (get_or_create_preserves E (λ w', polls_done w' = polls_done w)) as Hp.
    specialize (Hp (λ _ _ H, H) w eq_refl). by rewrite Hresolve in Hp. }
  set (w2 := snd (set_data_source_id id w1)).
  destruct (validate_run E _ _ _ w2 Hvalid) as [l Hv].
  destruct (deduplicate_run v (log [Print l] w2)) as [prints Hd].
  set (final := deduplicate v) in *.
  set (w3 := log [Print LimitOk]
               (log [Print (UrlStats (length final) (total_chars final))]
                  (log prints (log [Print l] w2)))).
  pose proof (update_returns E final w3) as Ho4.
  assert (polls_done (snd (_update_data_source_urls E final w3)) = polls_done w) as Hp4.
  { pose proof (update_preserves E (λ w', polls_done w' = polls_done w)) as Hp.
    apply Hp; try done; by intros ? ?. }
  destruct (_update_data_source_urls E final w3) as [o4 w4] eqn:Hupdate.
  cbn [fst snd] in *. subst o4.
  exists w4. split; [done|].
  unfold load_catalogue. rewrite Hexists. cbn [negb].
  erewrite bind_returns; [|exact Hresolve].
  erewrite bind_returns; [|reflexivity]. fold w2.
  destruct (all_catalogue_urls E) as [|u us] eqn:Hall; [done|].
  erewrite bind_returns; [|exact Hv].
  erewrite bind_returns; [|exact Hd].
  cbn zeta. fold final.
  erewrite bind_returns; [|reflexivity].
  apply Nat.ltb_ge in Hbudget. rewrite Hbudget.
  erewrite bind_returns; [|reflexivity]. fold w3.
  erewrite bind_returns; [|exact Hupdate].
  reflexivity.
Qed.

End Outcome.

Section LoadOutcome.

Variable E : env.
Implicit Types (w : world).

Lemma load_catalogue_outcome w :
  ∃ w5,
    polls_done w5 = polls_done w
    ∧ fst (load_catalogue E w)
      = if negb (path_exists E (ai_kb_fixtures_dir E)) then Returns false
        else
          match fst (_get_or_create_catalogue_data_source E w) with
          | Returns _ =>
              match all_catalogue_urls E with
              | [] => Returns false
              | _ :: _ =>
                  match validate E (all_catalogue_urls E) with
                  | Raise e => Raises e
                  | Ok (v, _) =>
                      if (3000 <? total_chars (deduplicate v))%nat then Returns false
                      else
                        match start_ingestion_job_reply E with
                        | Raise e => Raises e
                        | Ok job_id =>
                            fst (_wait_for_ingestion_completion E job_id 20 w5)
                        end
                  end
              end
          | Raises e => Raises e
          | OutOfFuel => OutOfFuel
          end.
Proof.
  destruct (path_exists E (ai_kb_fixtures_dir E)) eqn:Hexists; cbn [negb].
  2: { exists w. split; [done|]. unfold load_catalogue. by rewrite Hexists. }
  destruct (_get_or_create_catalogue_data_source E w) as [[id|e|] w1] eqn:Hresolve;
    cbn [fst].
  2,3: exists w; split; [done|]; unfold load_catalogue; rewrite Hexists;
       cbn [negb]; unfold bind at 1; by rewrite Hresolve.
  destruct (all_catalogue_urls E) as [|u us] eqn:Hall.
  { exists w. split; [done|].
    by destruct (load_catalogue_no_urls E w id w1 Hexists Hresolve Hall) as [-> _]. }
  rewrite <- Hall.
  destruct (validate E (all_catalogue_urls E)) as [[v iss]|e] eqn:Hvalid.
  2: { exists w. split; [done|]. unfold load_catalogue. rewrite Hexists. cbn [negb].
       erewrite bind_returns; [|exact Hresolve].
       erewrite bind_returns; [|reflexivity].
       rewrite Hall, <- Hall.
       unfold _validate_and_clean_urls, bind at 1, bind at 1, lift. by rewrite Hvalid. }
  destruct (3000 <? total_chars (deduplicate v))%nat eqn:Hover.
  { exists w. split; [done|]. unfold load_catalogue. rewrite Hexists. cbn [negb].
    erewrite bind_returns; [|exact Hresolve].
    erewrite bind_returns; [|reflexivity].
    rewrite Hall, <- Hall.
    destruct (validate_run E _ _ _ (snd (set_data_source_id id w1)) Hvalid) as [l Hv].
    destruct (deduplicate_run v (log [Print l] (snd (set_data_source_id id w1))))
      as [prints Hd].
    erewrite bind_returns; [|exact Hv].
    erewrite bind_returns; [|exact Hd].
    cbn zeta.
    erewrite bind_returns; [|reflexivity].
    by rewrite Hover. }
  apply Nat.ltb_ge in Hover.
  destruct (load_catalogue_reaches_start E w id w1 v iss) as (w4 & Hp4 & ->);
    try done.
  { by rewrite Hall. }
  unfold bind at 1. rewrite start_run_outcome. cbv zeta.
  destruct (start_ingestion_job_reply E) as [job_id|e].
  - eexists. split; [|apply after_start_outcome]. done.
  - by exists w.
Qed.

End LoadOutcome.

(** X10. [load_catalogue] returns [True] exactly when the directory of the
    catalogue exists, its files have a URL, the validation returns a list
    within the budget of 3000 characters, the data source is found or
    created, the ingestion job starts, and a status query made within 20
    minutes finds the job [COMPLETE]. *)
Theorem load_succeeds_exactly_when E w :
  fst (load_catalogue E w) = Returns true
  ↔ path_exists E (ai_kb_fixtures_dir E) = true
    ∧ all_catalogue_urls E ≠ []
    ∧ (∃ v iss, validate E (all_catalogue_urls E) = Ok (v, iss)
                ∧ (total_chars (deduplicate v) ≤ 3000)%nat)
    ∧ (is_Some (found_data_source E) ∨ ∃ id, create_data_source_reply E = Ok id)
    ∧ (∃ job_id, start_ingestion_job_reply E = Ok job_id)
    ∧ ∃ n, completes_at E (polls_done w) (20 * 60) n.
Proof.
  destruct (load_catalogue_outcome E w) as (w5 & Hp5 & ->).
  rewrite (get_or_create_outcome E w), <- Hp5.
  destruct (path_exists E (ai_kb_fixtures_dir E)); cbn [negb].
  2: { split; [done|]. by intros [? _]. }
  destruct (all_catalogue_urls E) as [|u us] eqn:Hall.
  { split.
    - destruct (found_data_source E); [done|].
      destruct (validate E []) as [[v ?]|]; [|done].
      destruct (3000 <? _)%nat; [done|]. by destruct (create_data_source_reply E).
    - by intros (_ & ? & _). }
  destruct (validate E (u :: us)) as [[v iss]|e] eqn:Hvalid.
  2: { split.
       - by destruct (found_data_source E).
       - by intros (_ & _ & (? & ? & ? & _) & _). }
  destruct (3000 <? total_chars (deduplicate v))%nat eqn:Hover.
  { split.
    - by destruct (found_data_source E).
    - intros (_ & _ & (v' & iss' & [= <- <-] & Hle) & _).
      apply Nat.ltb_lt in Hover. lia. }
  apply Nat.ltb_ge in Hover.
  assert (∀ (o : outcome string),
            (∃ id, o = Returns id) →
            match o with
            | Returns _ =>
                match start_ingestion_job_reply E with
                | Ok job_id => fst (_wait_for_ingestion_completion E job_id 20 w5)
                | Raise e => Raises e
                end
            | Raises e => Raises e
            | OutOfFuel => OutOfFuel
            end = Returns true
            ↔ (∃ job_id, start_ingestion_job_reply E = Ok job_id)
              ∧ ∃ n, completes_at E (polls_done w5) (20 * 60) n) as Hrest.
  { intros o [id ->].
    destruct (start_ingestion_job_reply E) as [job_id|e].
    - destruct (wait_returns E job_id 20 w5) as (b & -> & Hb). split.
      + intros [= ->]. split; [by eexists|]. by apply Hb.
      + intros [_ Hn]. f_equal. by apply Hb.
    - split; [done|]. by intros [[? ?] _]. }
  destruct (found_data_source E) as [ds|].
  - rewrite (Hrest (Returns (snd ds))) by (by eexists). split.
    + intros [Hs Hn]. split_and!; try done; [by eexists _, _|by left].
    + by intros (_ & _ & _ & _ & Hs & Hn).
  - destruct (create_data_source_reply E) as [id|e].
    + rewrite (Hrest (Returns id)) by (by eexists). split.
      * intros [Hs Hn]. split_and!; try done; [by eexists _, _|right; by eexists].
      * by intros (_ & _ & _ & _ & Hs & Hn).
    + split; [done|]. intros (_ & _ & _ & [[? ?]|[? ?]] & _); done.
Qed.

Lemma load_raises_iff E w e :
  fst (load_catalogue E w) = Raises e
  ↔ path_exists E (ai_kb_fixtures_dir E) = true
    ∧ match validate E (all_catalogue_urls E) with
      | Raise e' =>
          e = e' ∧ (found_data_source E = None ∨ all_catalogue_urls E ≠ [])
      | Ok (v, _) =>
          if (3000 <? total_chars (deduplicate v))%nat then
            found_data_source E = None
            ∧ e = Exception ("URL character limit exceeded: "
                             ++ str_nat (total_chars (deduplicate v)) ++ " > 3000")
          else
            (found_data_source E = None ∧ create_data_source_reply E = Raise e)
            ∨ ((is_Some (found_data_source E) ∨ ∃ id, create_data_source_reply E = Ok id)
               ∧ all_catalogue_urls E ≠ []
               ∧ start_ingestion_job_reply E = Raise e)
      end.
Proof.
  destruct (load_catalogue_outcome E w) as (w5 & Hp5 & ->).
  rewrite (get_or_create_outcome E w).
  destruct (path_exists E (ai_kb_fixtures_dir E)); cbn [negb].
  2: { split; [done|]. by intros [? _]. }
  destruct (validate E (all_catalogue_urls E)) as [[v iss]|e'] eqn:Hvalid.
  - destruct (3000 <? total_chars (deduplicate v))%nat eqn:Hover.
    + destruct (found_data_source E) as [ds|].
      * split; [|by intros (_ & ? & _)].
        by destruct (all_catalogue_urls E).
      * split; [by intros [= <-]|by intros (_ & _ & ->)].
    + assert (∀ job_id e0, fst (_wait_for_ingestion_completion E job_id 20 w5) ≠ Raises e0)
        as Hwait.
      { intros job_id e0. by destruct (wait_returns E job_id 20 w5) as (b & -> & _). }
      destruct (found_data_source E) as [ds|].
      * destruct (all_catalogue_urls E) as [|u us].
        { split; [done|]. by intros (_ & [[? _]|(_ & ? & _)]). }
        destruct (start_ingestion_job_reply E) as [job_id|e0].
        -- split; [by intros ?%Hwait|]. by intros (_ & [[? _]|(_ & _ & ?)]).
        -- split.
           ++ intros [= <-]. split; [done|]. right. split_and!; try done. by left.
           ++ by intros (_ & [[? _]|(_ & _ & [= <-])]).
      * destruct (create_data_source_reply E) as [id|e0].
        -- destruct (all_catalogue_urls E) as [|u us].
           { split; [done|]. by intros (_ & [[_ ?]|(_ & ? & _)]). }
           destruct (start_ingestion_job_reply E) as [job_id|e1].
           ++ split; [by intros ?%Hwait|]. by intros (_ & [[_ ?]|(_ & _ & ?)]).
           ++ split.
              ** intros [= <-]. split; [done|]. right. split_and!; try done.
                 right. by eexists.
              ** by intros (_ & [[_ ?]|(_ & _ & [= <-])]).
        -- split.
           ++ intros [= <-]. split; [done|]. by left.
           ++ intros (_ & [[_ [= <-]]|([[? ?]|[? ?]] & _)]); done.
  - destruct (found_data_source E) as [ds|].
    + destruct (all_catalogue_urls E) as [|u us].
      * split; [done|]. by intros (_ & _ & [?|?]).
      * split; [intros [= <-]; split; [done|]; split; [done|by right]|].
        by intros (_ & -> & _).
    + split; [intros [= <-]; split; [done|]; split; [done|by left]|].
      by intros (_ & -> & _).
Qed.

(** X11. [load_catalogue] raises exactly in these cases, the directory of
    the catalogue existing: the validation raises, which it does at the
    first item of the files that is no string ([AttributeError]) or is a
    string that [urlparse] rejects ([ValueError]); no data source has the
    name and the URLs are over the budget, or the service refuses the
    creation; the service refuses to start the ingestion job. A failed
    update, a failed status query and a failed fixture never make it
    raise. *)
Theorem load_raises_exactly_when E w e :
  fst (load_catalogue E w) = Raises e
  ↔ path_exists E (ai_kb_fixtures_dir E) = true
    ∧ match validate E (all_catalogue_urls E) with
      | Raise e' =>
          e = e'
          ∧ (found_data_source E = None ∨ all_catalogue_urls E ≠ [])
          ∧ ∃ k item,
              all_catalogue_urls E !! k = Some item
              ∧ item_error E item = Some e
              ∧ (∀ j u, (j < k)%nat → all_catalogue_urls E !! j = Some u →
                        item_error E u = None)
              ∧ match item with
                | JStr _ => ∃ msg, e = ValueError msg
                | _ => e = no_attribute item "strip"
                end
      | Ok (v, _) =>
          if (3000 <? total_chars (deduplicate v))%nat then
            found_data_source E = None
            ∧ e = Exception ("URL character limit exceeded: "
                             ++ str_nat (total_chars (deduplicate v)) ++ " > 3000")
          else
            (found_data_source E = None ∧ create_data_source_reply E = Raise e)
            ∨ ((is_Some (found_data_source E) ∨ ∃ id, create_data_source_reply E = Ok id)
               ∧ all_catalogue_urls E ≠ []
               ∧ start_ingestion_job_reply E = Raise e)
      end.
Proof.
  rewrite load_raises_iff.
  pose proof (validate_from_spec E 0 (all_catalogue_urls E)) as Hspec. unfold validate.
  destruct (validate_from E 0 (all_catalogue_urls E) [] []) as [[v iss]|e'];
    [reflexivity|].
  destruct Hspec as (k & item & Hk & He & Hbefore).
  split.
  - intros (Hexists & -> & Hcase). split_and!; try done.
    exists k, item. split_and!; try done.
    destruct item as [| | |url| |]; try by injection He as <-.
    by eapply parse_error_value_error.
  - by intros (Hexists & -> & Hcase & _).
Qed.

(** ** What a load that does not succeed leaves undone *)

Section Unless.

Context {A B : Type}.
Variable P : event → Prop.

Lemma unless_of_hoare (m : M A) (R : A → Prop) (S : outcome A → Prop) :
  hoare P m R → hoare_unless P m S.
Proof.
  intros Hm w. destruct (Hm w) as [(new & Ht & HP) _]. exists new. auto.
Qed.

Lemma unless_bind (m : M A) (k : A → M B) (R1 : A → Prop) (S : outcome B → Prop) :
  hoare P m R1 → (∀ a, R1 a → hoare_unless P (k a) S) →
  hoare_unless P (bind m k) S.
Proof.
  intros Hm Hk w. destruct (Hm w) as [(new1 & Ht1 & HP1) Hr]. unfold bind.
  destruct (m w) as [[a|e|] w1]; cbn [fst snd] in *; [|by eauto|done].
  destruct (Hk a Hr w1) as (new2 & Ht2 & HS).
  exists (new1 ++ new2). rewrite Ht2, Ht1, <- app_assoc. split; [done|].
  destruct HS as [HS|HP2]; [by left|]. right. by apply Forall_app.
Qed.

Lemma unless_outcome (m : M A) (R : A → Prop) (S : outcome A → Prop) :
  hoare (λ _, True) m R → (∀ w, S (fst (m w))) → hoare_unless P m S.
Proof.
  intros Hm HS w. destruct (Hm w) as [(new & Ht & _) _]. exists new. auto.
Qed.

End Unless.

Section NoFixtures.

Variable E : env.
Variable P : event → Prop.

Hypothesis P_print : ∀ l, P (Print l).
Hypothesis P_sleep : ∀ d, P (Sleep d).
Hypothesis P_call : ∀ method kwargs, P (Call method kwargs).

Lemma retry_event_allowed ev : is_retry_event ev = true → P ev.
Proof.
  destruct ev as [method kwargs|d|path| |l]; cbn.
  - intros _. apply P_call.
  - intros _. apply P_sleep.
  - intros H. discriminate H.
  - intros H. discriminate H.
  - intros _. apply P_print.
Qed.

Lemma wait_allowed job_id T :
  hoare P (_wait_for_ingestion_completion E job_id T) any_value.
Proof.
  intros w.
  destruct (poll_loop_run E (poll_fuel T) job_id (clock (log [Print (Monitoring job_id)] w))
              T (log [Print (Monitoring job_id)] w))
    as (n & mid & w' & o & Hloop & _ & Hmid & _ & _ & _ & _ & Hend).
  { lia. }
  { unfold poll_fuel. lia. }
  assert (_wait_for_ingestion_completion E job_id T w = (o, w')) as ->.
  { unfold _wait_for_ingestion_completion, bind at 1 2.
    cbn [print emit time fst snd]. exact Hloop. }
  cbn [fst snd].
  assert (Forall P mid) as HPmid.
  { eapply Forall_impl; [exact Hmid|]. apply retry_event_allowed. }
  cbn [log trace] in Hend.
  destruct (_ <? _)%N;
    [destruct (classify (reply E (polls_done (log [Print (Monitoring job_id)] w) + n)))|];
    [| |done|].
  all: destruct Hend as (-> & Ht & _).
  1,2: destruct Ht as [kw Ht].
  all: split; [|done].
  all: eexists; rewrite Ht, <- app_assoc; split; [reflexivity|].
  all: apply Forall_app; split; [by repeat constructor; apply P_print|].
  all: apply Forall_app; split; [done|].
  all: repeat constructor; try apply P_print; apply P_call.
Qed.

(** Everything [load_catalogue] adds to the trace is allowed by [P],
    unless it returns [True]. *)
Lemma load_catalogue_unless :
  hoare_unless P (load_catalogue E) (λ o, o = Returns true).
Proof.
  assert (∀ l, l ≠ NoUrlsFound → P (Print l)) as P_print' by (intros l _; apply P_print).
  unfold load_catalogue.
  destruct (negb (path_exists E (ai_kb_fixtures_dir E))).
  { eapply (unless_of_hoare _ _ any_value). hoare_steps. apply P_print. }
  eapply unless_bind; [by apply get_or_create_emits|]. intros id _.
  eapply unless_bind; [hoare_steps|]. intros _ _.
  destruct (all_catalogue_urls E) as [|u us].
  { eapply (unless_of_hoare _ _ any_value). hoare_steps. apply P_print. }
  eapply unless_bind; [by apply validate_emits|]. intros v _.
  eapply unless_bind; [by apply deduplicate_emits|]. intros final _.
  cbv zeta.
  eapply unless_bind; [hoare_steps; apply P_print|]. intros _ _.
  destruct (3000 <? total_chars final)%nat.
  { eapply (unless_of_hoare _ _ any_value). hoare_steps. apply P_print. }
  eapply unless_bind; [hoare_steps; apply P_print|]. intros _ _.
  eapply unless_bind; [apply update_emits; auto|]. intros _ _.
  eapply unless_bind; [by apply start_emits|]. intros job_id _.
  eapply unless_bind; [apply wait_allowed|]. intros [] _.
  - eapply (unless_outcome _ _ any_value).
    + hoare_step; [by apply load_django_fixtures_emits|]. hoare_steps; done.
    + intros w. unfold bind at 1.
      pose proof (load_django_fixtures_returns E w) as Hf.
      destruct (_load_django_fixtures E w) as [o w1]. cbn [fst] in Hf. by subst o.
  - eapply (unless_of_hoare _ _ any_value). hoare_steps. apply P_print.
Qed.

End NoFixtures.

(** X12. A load that does not return [True] loads no Django fixture and
    does not touch the compliance framework. *)
Theorem fixtures_loaded_only_on_success E w :
  fst (load_catalogue E w) ≠ Returns true →
  Forall (λ ev, is_fixture_event ev = false) (new_events (load_catalogue E) w).
Proof.
  intros Hfail.
  destruct (load_catalogue_unless E (λ ev, is_fixture_event ev = false)) with (w := w)
    as (new & Ht & [Hs|HP]); try done.
  by rewrite (new_events_eq _ _ _ Ht).
Qed.

(** ** The audit handlers across a load *)

Section AuditInvariant.

Variable E : env.

Lemma wait_preserves_receivers job_id T :
  preserves connected_in (_wait_for_ingestion_completion E job_id T).
Proof.
  intros w Hw. unfold connected_in.
  destruct (wait_run E job_id T w) as (n & mid & w' & o & Hrun & _ & _ & _ & _ & Hr & _).
  rewrite Hrun. cbn [snd]. by rewrite Hr.
Qed.

Lemma from_dir_preserves_connected directory dir_name :
  preserves connected_in (_load_django_fixtures_from_dir E directory dir_name).
Proof.
  intros w Hw. unfold connected_in.
  unfold _load_django_fixtures_from_dir, try_except, lift.
  destruct (listdir E directory) as [names|e]; [|done].
  rewrite bind_ret.
  destruct (List.filter is_django_fixture names) as [|f rest] eqn:Hf; [done|].
  pose proof (guarded_block_connected
                (load_each E directory (Str.sort (f :: rest)))
                (FixturesLoaded dir_name) w) as Hconn.
  destruct ((disconnect_audit_signals ;;; _) w) as [[[]|e|] w2];
    apply Hconn; intros w3; apply load_each_receivers.
Qed.

Lemma load_catalogue_preserves_connected : preserves connected_in (load_catalogue E).
Proof.
  assert (∀ ev, preserves connected_in (emit ev)) as I_log by (by intros ? ?).
  assert (∀ id, preserves connected_in (set_data_source_id id)) as I_ds by (by intros ? ?).
  assert (preserves connected_in next_update) as I_update by (by intros ?).
  unfold load_catalogue.
  preserves_step; [preserves_step; [apply I_log|apply preserves_ret]|].
  preserves_step; [by apply get_or_create_preserves|].
  preserves_step; [apply I_ds|].
  preserves_step; [preserves_step; [apply I_log|apply preserves_ret]|].
  preserves_step; [by apply validate_preserves|].
  preserves_step; [by apply deduplicate_preserves|].
  cbv zeta.
  preserves_step; [apply I_log|].
  preserves_step; [preserves_step; [apply I_log|apply preserves_ret]|].
  preserves_step; [apply I_log|].
  preserves_step; [by apply update_preserves|].
  preserves_step; [by apply start_preserves|].
  preserves_step; [apply wait_preserves_receivers|].
  preserves_step; [|preserves_step; [apply I_log|apply preserves_ret]].
  preserves_step.
  - unfold _load_django_fixtures.
    preserves_step; [|apply I_log].
    preserves_step.
    + preserves_step; [apply from_dir_preserves_connected|apply preserves_ret].
    + preserves_step; [apply from_dir_preserves_connected|].
      unfold _update_compliance_framework.
      repeat first [preserves_step | apply I_log].
  - preserves_step; [apply I_log|apply preserves_ret].
Qed.

End AuditInvariant.

(** X13. However [load_catalogue] ends, audit handlers that were connected
    before the load are connected after it. *)
Theorem load_keeps_audit_handlers_connected E w :
  audit_connected (receivers_of w) →
  audit_connected (receivers_of (snd (load_catalogue E w))).
Proof. apply load_catalogue_preserves_connected. Qed.

(** ** How long the poll loop runs *)

Section PollBounds.

Variable E : env.
Variable L : N.
Hypothesis latency_bound : ∀ k, (latency E k ≤ L)%N.

Lemma poll_loop_bounds fuel job_id start_time T w o w' :
  (start_time ≤ clock w)%N →
  (T * 60 ≤ clock w - start_time + 30 * N.of_nat fuel)%N →
  poll_loop E fuel job_id start_time T w = (o, w') →
  (clock w ≤ clock w')%N
  ∧ (((T * 60 ≤ clock w - start_time)%N ∧ polls_done w' = polls_done w)
     ∨ ((clock w - start_time < T * 60)%N
        ∧ (30 * N.of_nat (polls_done w' - polls_done w)
           < T * 60 - (clock w - start_time) + 30)%N))
  ∧ ((clock w - start_time < T * 60 + L + 30)%N →
     (clock w' - start_time < T * 60 + L + 30)%N)
  ∧ (last (trace w') = Some (Print (IngestionTimeout T)) →
     (T * 60 ≤ clock w' - start_time)%N).
Proof.
  revert w.
  induction fuel as [|fuel IH]; intros w Hstart Hfuel.
  all: cbn [poll_loop]; unfold bind at 1; cbn [time].
  all: destruct (clock w - start_time <? T * 60)%N eqn:Hcond.
  - apply N.ltb_lt in Hcond. lia.
  - apply N.ltb_ge in Hcond. intros [= <- <-]. cbn.
    split_and!; [lia|by left|done|done].
  - apply N.ltb_lt in Hcond.
    destruct (poll_once_run E job_id start_time w)
      as (w1 & kwargs & Hpolls & _ & _ & _ & Hrun).
    pose proof (latency_bound (polls_done w)) as Hlat.
    unfold bind.
    destruct (classify (reply E (polls_done w))) as [|reasons|] eqn:Hverdict.
    + destruct Hrun as (-> & Htrace & Hclock). intros [= <- <-].
      split_and!; [lia|right; split; [done|lia]|lia|].
      intros Hl. rewrite Htrace in Hl.
      pose proof (last_retry_events2 [] (Call "get_ingestion_job" kwargs)) as Hlast.
      cbn [app] in Hlast. rewrite Hlast in Hl. done.
    + destruct Hrun as (-> & Htrace & Hclock). intros [= <- <-].
      split_and!; [lia|right; split; [done|lia]|lia|].
      intros Hl. rewrite Htrace in Hl.
      pose proof (last_retry_events2 [] (Call "get_ingestion_job" kwargs)) as Hlast.
      cbn [app] in Hlast. rewrite Hlast in Hl. done.
    + destruct Hrun as (-> & _ & Hclock). intros Hloop.
      destruct (IH w1) as (Hmono & Hq & Hupper & Htimeout); [lia|lia|done|].
      split_and!.
      * lia.
      * right. split; [done|].
        destruct Hq as [[Hover Hsame]|[Hunder Hq]].
        -- rewrite Hsame, Hpolls. lia.
        -- assert (polls_done w1 ≤ polls_done w' ∨ polls_done w' < polls_done w1)%nat
             as [Hle|Hlt] by lia; lia.
      * intros _. apply Hupper. lia.
      * done.
  - apply N.ltb_ge in Hcond. intros [= <- <-]. cbn.
    split_and!; [lia|by left|done|done].
Qed.

End PollBounds.

(** X14. [_wait_for_ingestion_completion] with a timeout of [T] minutes
    makes at most [2 * T] status queries; when no query takes longer than [L]
    seconds it returns less than [60 * T + L + 30] seconds after it started;
    and it reports a timeout only when [60 * T] seconds have passed. *)
Theorem wait_is_bounded E job_id T L w :
  (∀ k, (latency E k ≤ L)%N) →
  let r := _wait_for_ingestion_completion E job_id T w in
  (N.of_nat (polls_done (snd r) - polls_done w) ≤ 2 * T)%N
  ∧ (clock w ≤ clock (snd r))%N
  ∧ (clock (snd r) - clock w < T * 60 + L + 30)%N
  ∧ (last (new_events (_wait_for_ingestion_completion E job_id T) w)
     = Some (Print (IngestionTimeout T)) →
     (T * 60 ≤ clock (snd r) - clock w)%N).
Proof.
  intros Hlat. cbv zeta.
  set (w0 := log [Print (Monitoring job_id)] w).
  assert (_wait_for_ingestion_completion E job_id T w
          = poll_loop E (poll_fuel T) job_id (clock w) T w0) as Hwait.
  { unfold _wait_for_ingestion_completion, bind at 1 2. done. }
  destruct (trace_extends (_wait_for_ingestion_completion E job_id T) any_value w)
    as [new Hnew].
  { by apply wait_emits. }
  rewrite (new_events_eq _ _ _ Hnew).
  destruct (_wait_for_ingestion_completion E job_id T w) as [o w'].
  destruct (poll_loop_bounds E L Hlat (poll_fuel T) job_id (clock w) T w0 o w')
    as (Hmono & Hq & Hupper & Htimeout).
  { done. }
  { unfold poll_fuel. cbn. lia. }
  { done. }
  cbn [snd] in *.
  change (clock w0) with (clock w) in *. change (polls_done w0) with (polls_done w) in *.
  split_and!.
  - destruct Hq as [[_ ->]|[_ Hq]]; lia.
  - done.
  - apply Hupper. lia.
  - intros Hlast. apply Htimeout. rewrite Hnew.
    destruct new as [|ev new _] using rev_ind; [done|].
    rewrite last_snoc in Hlast. by rewrite app_assoc, last_snoc.
Qed.

(** ** The order in which fixtures are loaded *)

Section Fixtures.

Variable E : env.
Implicit Types (w : world).

Lemma path_join_inj directory f g :
  path_join directory f = path_join directory g → f = g.
Proof.
  unfold path_join. intros H.
  induction directory as [|c d IH]; cbn in H.
  - by injection H.
  - injection H as H. by apply IH.
Qed.

Lemma load_each_events directory f rest w :
  new_events (load_each E directory (f :: rest)) w
  = Print (LoadingFixture f) :: LoadData (path_join directory f)
    :: match loaddata_reply E (path_join directory f) with
       | Ok _ =>
           new_events (load_each E directory rest)
             (log [LoadData (path_join directory f)] (log [Print (LoadingFixture f)] w))
       | Raise _ => []
       end.
Proof.
  apply new_events_eq. cbn [load_each]. unfold bind, print, emit, lift. cbn [fst snd].
  destruct (loaddata_reply E (path_join directory f)) as [[]|e]; cbn [fst snd ret raise].
  - set (w2 := log _ (log _ w)).
    destruct (trace_extends (load_each E directory rest) any_value w2) as [new Hnew].
    { by apply load_each_emits. }
    rewrite (new_events_eq _ _ _ Hnew), Hnew. subst w2. cbn.
    by rewrite <- !app_assoc.
  - cbn. by rewrite <- !app_assoc.
Qed.

Lemma load_each_outcome directory f rest w :
  fst (load_each E directory (f :: rest) w)
  = match loaddata_reply E (path_join directory f) with
    | Ok _ =>
        fst (load_each E directory rest
               (log [LoadData (path_join directory f)] (log [Print (LoadingFixture f)] w)))
    | Raise e => Raises e
    end.
Proof.
  cbn [load_each]. unfold bind, print, emit, lift. cbn [fst snd].
  by destruct (loaddata_reply E (path_join directory f)) as [[]|e].
Qed.

(** A fixture is loaded exactly when all those before it loaded; the
    first one that fails ends the loop with its exception. *)
Lemma load_each_spec directory fixtures w :
  NoDup fixtures →
  let new := new_events (load_each E directory fixtures) w in
  (∀ i f, fixtures !! i = Some f →
          (LoadData (path_join directory f) ∈ new
           ↔ ∀ j g, (j < i)%nat → fixtures !! j = Some g →
                    loaddata_reply E (path_join directory g) = Ok tt))
  ∧ (∀ p, LoadData p ∈ new → ∃ f, f ∈ fixtures ∧ p = path_join directory f)
  ∧ match fst (load_each E directory fixtures w) with
    | Returns _ =>
        ∀ f, f ∈ fixtures → loaddata_reply E (path_join directory f) = Ok tt
    | Raises e =>
        ∃ i f, fixtures !! i = Some f
               ∧ loaddata_reply E (path_join directory f) = Raise e
               ∧ ∀ j g, (j < i)%nat → fixtures !! j = Some g →
                        loaddata_reply E (path_join directory g) = Ok tt
    | OutOfFuel => False
    end.
Proof.
  revert w. induction fixtures as [|f rest IH]; intros w Hnd; cbv zeta.
  { split_and!.
    - intros i f Hi. by rewrite lookup_nil in Hi.
    - intros p Hp. unfold new_events in Hp. cbn in Hp.
      rewrite drop_all in Hp. by apply elem_of_nil in Hp.
    - cbn. intros f Hf. by apply elem_of_nil in Hf. }
  apply NoDup_cons in Hnd as [Hf Hnd].
  rewrite load_each_events, load_each_outcome.
  set (w2 := log _ (log _ w)).
  specialize (IH w2 Hnd). cbv zeta in IH. destruct IH as (IHi & IHp & IHo).
  destruct (loaddata_reply E (path_join directory f)) as [[]|e] eqn:Hreply.
  - split_and!.
    + intros [|i] g Hi; cbn in Hi.
      * injection Hi as <-. split; [intros _ j g Hj; lia|].
        intros _. apply elem_of_cons. right. apply elem_of_cons. by left.
      * split.
        -- intros Hin. apply elem_of_cons in Hin as [Hin|Hin]; [done|].
           apply elem_of_cons in Hin as [Hin|Hin].
           { injection Hin as Hin. apply path_join_inj in Hin as <-.
             exfalso. apply Hf. by eapply list_elem_of_lookup_2. }
           intros [|j] h Hj Hh; cbn in Hh.
           { by injection Hh as <-. }
           apply (proj1 (IHi i g Hi) Hin j h); [lia|done].
        -- intros Hall. apply elem_of_cons. right. apply elem_of_cons. right.
           apply (IHi i g Hi). intros j h Hj Hh. apply (Hall (S j) h); [lia|done].
    + intros p Hp. apply elem_of_cons in Hp as [Hp|Hp]; [done|].
      apply elem_of_cons in Hp as [Hp|Hp].
      * injection Hp as ->. exists f. split; [by left|done].
      * destruct (IHp p Hp) as (g & Hg & ->). exists g. split; [by right|done].
    + destruct (fst (load_each E directory rest w2)) as [[]|e|]; [| |done].
      * intros g Hg. apply elem_of_cons in Hg as [->|Hg]; [done|by apply IHo].
      * destruct IHo as (i & g & Hi & Hg & Hbefore).
        exists (S i), g. split; [done|]. split; [done|].
        intros [|j] h Hj Hh; cbn in Hh.
        -- by injection Hh as <-.
        -- apply (Hbefore j h); [lia|done].
  - split_and!.
    + intros [|i] g Hi; cbn in Hi.
      * injection Hi as <-. split; [intros _ j g Hj; lia|].
        intros _. apply elem_of_cons. right. apply elem_of_cons. by left.
      * split.
        -- intros Hin. apply elem_of_cons in Hin as [Hin|Hin]; [done|].
           apply elem_of_cons in Hin as [Hin|Hin]; [|by apply elem_of_nil in Hin].
           injection Hin as Hin. apply path_join_inj in Hin as <-.
           exfalso. apply Hf. by eapply list_elem_of_lookup_2.
        -- intros Hall. specialize (Hall 0%nat f). cbn in Hall.
           rewrite Hreply in Hall. by discriminate Hall; [lia|].
    + intros p Hp. apply elem_of_cons in Hp as [Hp|Hp]; [done|].
      apply elem_of_cons in Hp as [Hp|Hp]; [|by apply elem_of_nil in Hp].
      injection Hp as ->. exists f. split; [by left|done].
    + exists 0%nat, f. split; [done|]. split; [done|]. intros j g Hj. lia.
Qed.

End Fixtures.

Section FixtureLoaders.

Variable E : env.
Implicit Types (w : world).

Lemma new_events_bind {A B} (m : M A) (k : A → M B) (R : A → Prop) (R' : B → Prop) w :
  hoare (λ _, True) m R →
  (∀ a, hoare (λ _, True) (k a) R') →
  new_events (bind m k) w
  = new_events m w
    ++ match m w with
       | (Returns a, w1) => new_events (k a) w1
       | _ => []
       end.
Proof.
  intros Hm Hk.
  destruct (trace_extends m R w Hm) as [new1 Hnew1].
  rewrite (new_events_eq m w new1 Hnew1).
  apply new_events_eq. unfold bind.
  destruct (m w) as [[a|e|] w1]; cbn [snd] in *.
  - destruct (trace_extends (k a) R' w1 (Hk a)) as [new2 Hnew2].
    rewrite (new_events_eq _ _ _ Hnew2), Hnew2, Hnew1. by rewrite app_assoc.
  - by rewrite app_nil_r.
  - by rewrite app_nil_r.
Qed.

Lemma sort_NoDup names : NoDup names → NoDup (Str.sort names).
Proof. intros Hnd. by rewrite sort_perm. Qed.

Lemma filter_NoDup {A} (p : A → bool) (l : list A) : NoDup l → NoDup (List.filter p l).
Proof.
  induction 1 as [|x l Hx Hl IH]; cbn; [constructor|].
  destruct (p x); [|done]. constructor; [|done].
  intros Hin. apply Hx. apply list_elem_of_In in Hin. apply filter_In in Hin as [Hin _].
  by apply list_elem_of_In.
Qed.

Lemma elem_of_sort_filter (p : string → bool) names f :
  f ∈ Str.sort (List.filter p names) ↔ f ∈ names ∧ p f = true.
Proof.
  rewrite sort_perm, list_elem_of_In, filter_In, <- list_elem_of_In. done.
Qed.

(** [load_fixtures] adds to the trace what its loop adds, and ends as the
    loop ends. *)
Lemma load_fixtures_run names w :
  listdir E fixtures_dir = Ok names →
  ∃ w1,
    new_events (load_fixtures E) w
    = new_events (load_each E fixtures_dir
                    (Str.sort (List.filter is_loaded_fixture names))) w1
    ∧ fst (load_fixtures E w)
      = fst (load_each E fixtures_dir
               (Str.sort (List.filter is_loaded_fixture names)) w1).
Proof.
  intros Hnames.
  set (files := Str.sort (List.filter is_loaded_fixture names)).
  destruct (disconnect_audit_signals_run w) as [w1 Hd].
  assert (trace w1 = trace w) as Ht1.
  { revert Hd. unfold disconnect_audit_signals, disconnect, update_receivers, bind.
    cbn. by intros [= <-]. }
  exists w1.
  assert (∃ w3, load_fixtures E w = (fst (load_each E fixtures_dir files w1), w3)
                ∧ trace w3 = trace (snd (load_each E fixtures_dir files w1)))
    as (w3 & Hrun & Ht3).
  { unfold load_fixtures, bind at 1. rewrite Hd.
    unfold try_finally, bind, lift. rewrite Hnames. cbn [ret]. fold files.
    pose proof (load_each_receivers E fixtures_dir files w1) as [_ Htotal].
    destruct (load_each E fixtures_dir files w1) as [[[]|e|] w2]; [| |done].
    all: destruct (connect_audit_signals_run w2) as (w3 & -> & Ht & _); by exists w3. }
  split; [|by rewrite Hrun].
  unfold new_events. rewrite Hrun. cbn [snd]. by rewrite Ht3, Ht1.
Qed.

End FixtureLoaders.

(** X15. [load_fixtures] loads the [.json] files of [fixtures] whose name
    up to the first dot is not in [skip_fixtures], in ascending order of
    their names, and stops at the first one that fails: a fixture is loaded
    exactly when every fixture before it loaded, and the exception of the
    first failure is the exception of [load_fixtures]. *)
Theorem load_fixtures_stops_at_first_failure E w names :
  listdir E fixtures_dir = Ok names →
  NoDup names →
  let fixture_files := Str.sort (List.filter is_loaded_fixture names) in
  let new := new_events (load_fixtures E) w in
  Sorted str_le fixture_files
  ∧ (∀ i f, fixture_files !! i = Some f →
            (LoadData (path_join fixtures_dir f) ∈ new
             ↔ ∀ j g, (j < i)%nat → fixture_files !! j = Some g →
                      loaddata_reply E (path_join fixtures_dir g) = Ok tt))
  ∧ (∀ p, LoadData p ∈ new →
          ∃ f, f ∈ names ∧ is_loaded_fixture f = true ∧ p = path_join fixtures_dir f)
  ∧ match fst (load_fixtures E w) with
    | Returns _ =>
        ∀ f, f ∈ fixture_files → loaddata_reply E (path_join fixtures_dir f) = Ok tt
    | Raises e =>
        ∃ i f, fixture_files !! i = Some f
               ∧ loaddata_reply E (path_join fixtures_dir f) = Raise e
               ∧ ∀ j g, (j < i)%nat → fixture_files !! j = Some g →
                        loaddata_reply E (path_join fixtures_dir g) = Ok tt
    | OutOfFuel => False
    end.
Proof.
  intros Hnames Hnd. cbv zeta.
  destruct (load_fixtures_run E names w Hnames) as (w1 & -> & ->).
  destruct (load_each_spec E fixtures_dir
              (Str.sort (List.filter is_loaded_fixture names)) w1)
    as (Hindex & Hpaths & Hout).
  { by apply sort_NoDup, filter_NoDup. }
  split; [apply sort_sorted|]. split; [done|]. split; [|done].
  intros p Hp. destruct (Hpaths p Hp) as (f & Hf & ->).
  apply elem_of_sort_filter in Hf as [Hf Hloaded]. by exists f.
Qed.

(** ** The Django fixtures of a catalogue *)

Section DjangoFixtures.

Variable E : env.
Implicit Types (w : world).

Lemma framework_returns w : fst (_update_compliance_framework E w) = Returns tt.
Proof.
  apply (try_except_print_returns _ (λ e, ErrorUpdatingFramework (str_exn e))).
  apply (hoare_total (_update_compliance_framework E) any_value).
  by apply framework_emits.
Qed.

Lemma new_events_returns {A B} (m : M A) (k : A → M B) (R : A → Prop) (R' : B → Prop)
    w a w1 :
  hoare (λ _, True) m R →
  (∀ a, hoare (λ _, True) (k a) R') →
  m w = (Returns a, w1) →
  new_events (bind m k) w = new_events m w ++ new_events (k a) w1.
Proof.
  intros Hm Hk Hrun. rewrite (new_events_bind m k R R' w Hm Hk). by rewrite Hrun.
Qed.

(** What [_load_django_fixtures_from_dir] adds to the trace when the
    directory has Django fixtures: what the loop adds, then one line. *)
Lemma from_dir_events directory dir_name names w :
  listdir E directory = Ok names →
  List.filter is_django_fixture names ≠ [] →
  ∃ w1 l,
    new_events (_load_django_fixtures_from_dir E directory dir_name) w
    = new_events (load_each E directory
                    (Str.sort (List.filter is_django_fixture names))) w1
      ++ [Print l].
Proof.
  intros Hnames Hsome.
  set (files := Str.sort (List.filter is_django_fixture names)).
  destruct (disconnect_audit_signals_run w) as [w1 Hd].
  assert (trace w1 = trace w) as Ht1.
  { revert Hd. unfold disconnect_audit_signals, disconnect, update_receivers, bind.
    cbn. by intros [= <-]. }
  exists w1.
  destruct (trace_extends (load_each E directory files) any_value w1) as [new Hnew].
  { by apply load_each_emits. }
  rewrite (new_events_eq _ _ _ Hnew).
  assert (∃ l, trace (snd (_load_django_fixtures_from_dir E directory dir_name w))
               = trace w ++ new ++ [Print l]) as [l Hl].
  { unfold _load_django_fixtures_from_dir, try_except, lift. rewrite Hnames, bind_ret.
    destruct (List.filter is_django_fixture names) as [|f rest] eqn:Hf; [done|].
    fold files. unfold bind at 1. rewrite Hd.
    unfold bind at 1. unfold try_finally.
    pose proof (load_each_receivers E directory files w1) as [_ Htotal].
    destruct (load_each E directory files w1) as [[[]|e|] w2]; [| |done];
      cbn [snd] in Hnew.
    all: destruct (connect_audit_signals_run w2) as (w3 & -> & Ht3 & _).
    all: eexists; cbn; rewrite Ht3, Hnew, Ht1, <- app_assoc; reflexivity. }
  exists l. apply new_events_eq. exact Hl.
Qed.

Lemma framework_events w :
  new_events (_update_compliance_framework E) w
  = match fs E (ai_kb_fixtures_dir E) with
    | Some entries =>
        if existsb (String.eqb "catalogue_info.json") (List.map fst entries)
        then match read_file "catalogue_info.json" entries with
             | Unreadable e => [Print (ErrorUpdatingFramework (str_exn e))]
             | Content (JDict _) =>
                 UpsertFramework
                 :: match compliance_framework_reply E with
                    | Ok _ => []
                    | Raise e => [Print (ErrorUpdatingFramework (str_exn e))]
                    end
             | Content catalogue_info =>
                 [Print (ErrorUpdatingFramework
                           (str_exn (no_attribute catalogue_info "get")))]
             end
        else []
    | None => []
    end.
Proof.
  apply new_events_eq.
  unfold _update_compliance_framework, try_except, bind, emit, print, emit, lift.
  destruct (fs E (ai_kb_fixtures_dir E)) as [entries|]; cbn; [|by rewrite app_nil_r].
  destruct (existsb _ _); cbn; [|by rewrite app_nil_r].
  destruct (read_file "catalogue_info.json" entries) as [e|[| | | | |items]]; cbn;
    try done.
  destruct (compliance_framework_reply E) as [[]|e]; cbn; [done|].
  by rewrite <- app_assoc.
Qed.

(** The three steps of [_load_django_fixtures], none of which raises. *)
Lemma load_django_fixtures_events w :
  ∃ w1 w2 before,
    Forall (λ ev, ev ≠ UpsertFramework) before
    ∧ new_events (_load_django_fixtures E) w
      = before
        ++ new_events (_load_django_fixtures_from_dir E (ai_kb_fixtures_dir E)
                         (catalogue_name E)) w1
        ++ new_events (_update_compliance_framework E) w2.
Proof.
  set (base := if uses_base E
               then _load_django_fixtures_from_dir E base_fixtures_dir "base"
               else ret tt).
  assert (∀ P : event → Prop,
            (∀ l, P (Print l)) → (∀ p, P (LoadData p)) → hoare P base any_value)
    as Hbase.
  { intros P HP HL. unfold base. destruct (uses_base E).
    - apply load_from_dir_emits; auto.
    - by apply hoare_ret. }
  assert (∀ w', fst (base w') = Returns tt) as Hbase_returns.
  { intros w'. unfold base. destruct (uses_base E); [apply from_dir_returns|done]. }
  pose proof (Hbase_returns w) as Hb.
  destruct (base w) as [ob w1] eqn:Hrun1. cbn [fst] in Hb. subst ob.
  pose proof (from_dir_returns E (ai_kb_fixtures_dir E) (catalogue_name E) w1) as Hc.
  destruct (_load_django_fixtures_from_dir E (ai_kb_fixtures_dir E) (catalogue_name E) w1)
    as [oc w2] eqn:Hrun2. cbn [fst] in Hc. subst oc.
  pose proof (framework_returns w2) as Hf.
  destruct (_update_compliance_framework E w2) as [o3 w3] eqn:Hrun3.
  cbn [fst] in Hf. subst o3.
  exists w1, w2, (new_events base w).
  split.
  { destruct (hoare_new_events (λ ev, ev ≠ UpsertFramework) base any_value w) as [_ H];
      [by apply Hbase|done]. }
  assert (_load_django_fixtures E w
          = (base ;;;
             _load_django_fixtures_from_dir E (ai_kb_fixtures_dir E) (catalogue_name E) ;;;
             _update_compliance_framework E) w) as Hbody.
  { unfold _load_django_fixtures, try_except. fold base.
    unfold bind at 1 3. rewrite Hrun1. unfold bind at 1 2. by rewrite Hrun2, Hrun3. }
  unfold new_events at 1. rewrite Hbody.
  change (drop (length (trace w)) (trace (snd (?m w)))) with (new_events m w).
  erewrite (new_events_returns base _ any_value any_value); [|by apply Hbase| |exact Hrun1].
  2: { intros _. hoare_step; [by apply load_from_dir_emits|]. by apply framework_emits. }
  f_equal.
  erewrite (new_events_returns _ _ any_value any_value);
    [|by apply load_from_dir_emits| |exact Hrun2].
  2: { intros _. by apply framework_emits. }
  done.
Qed.

End DjangoFixtures.

(** X16. [_load_django_fixtures] never raises, and an error in one of its
    steps does not keep it from the next: whatever happened in the base
    directory, a Django fixture of the catalogue is loaded when the fixtures
    before it, in ascending order of their names, loaded; and [get_or_create]
    is called for the compliance framework exactly when the directory of
    the catalogue has a [catalogue_info.json] that can be read and holds a
    dict, whether or not the fixtures loaded. *)
Theorem django_fixture_errors_are_contained E w :
  let new := new_events (_load_django_fixtures E) w in
  fst (_load_django_fixtures E w) = Returns tt
  ∧ (∀ names,
       listdir E (ai_kb_fixtures_dir E) = Ok names → NoDup names →
       let django_fixtures := Str.sort (List.filter is_django_fixture names) in
       ∀ i f,
         django_fixtures !! i = Some f →
         (∀ j g, (j < i)%nat → django_fixtures !! j = Some g →
                 loaddata_reply E (path_join (ai_kb_fixtures_dir E) g) = Ok tt) →
         LoadData (path_join (ai_kb_fixtures_dir E) f) ∈ new)
  ∧ (UpsertFramework ∈ new
     ↔ ∃ entries items,
         fs E (ai_kb_fixtures_dir E) = Some entries
         ∧ "catalogue_info.json" ∈ List.map fst entries
         ∧ read_file "catalogue_info.json" entries = Content (JDict items)).
Proof.
  cbv zeta. split; [apply load_django_fixtures_returns|].
  destruct (load_django_fixtures_events E w) as (w1 & w2 & before & Hbefore & ->).
  split.
  - intros names Hnames Hnd i f Hi Hall.
    apply elem_of_app. right. apply elem_of_app. left.
    assert (List.filter is_django_fixture names ≠ []) as Hsome.
    { intros Hnil. rewrite Hnil in Hi. cbn in Hi. by rewrite lookup_nil in Hi. }
    destruct (from_dir_events E (ai_kb_fixtures_dir E) (catalogue_name E) names w1
                Hnames Hsome) as (w' & l & ->).
    apply elem_of_app. left.
    destruct (load_each_spec E (ai_kb_fixtures_dir E)
                (Str.sort (List.filter is_django_fixture names)) w')
      as (Hindex & _).
    { by apply sort_NoDup, filter_NoDup. }
    by apply (Hindex i f Hi).
  - rewrite framework_events.
    assert (∀ l, UpsertFramework ∈ before ++ l ↔ UpsertFramework ∈ l) as Hskip.
    { intros l. rewrite elem_of_app. split; [|by right].
      intros [Hin|Hin]; [|done]. rewrite Forall_forall in Hbefore.
      by destruct (Hbefore _ Hin). }
    assert (UpsertFramework
            ∉ new_events (_load_django_fixtures_from_dir E (ai_kb_fixtures_dir E)
                            (catalogue_name E)) w1) as Hdir.
    { destruct (hoare_new_events (λ ev, ev ≠ UpsertFramework)
                  (_load_django_fixtures_from_dir E (ai_kb_fixtures_dir E)
                     (catalogue_name E)) any_value w1) as [_ H].
      - by apply load_from_dir_emits.
      - intros Hin. rewrite Forall_forall in H. by destruct (H _ Hin). }
    rewrite Hskip, elem_of_app.
    assert (∀ l : line, UpsertFramework ∉ [Print l]) as Hprint.
    { intros l Hin. apply list_elem_of_singleton in Hin. discriminate Hin. }
    destruct (fs E (ai_kb_fixtures_dir E)) as [entries|].
    + destruct (existsb (String.eqb "catalogue_info.json") (List.map fst entries))
        eqn:Hinfo.
      * apply existsb_exists in Hinfo as (x & Hx & Heq%String.eqb_eq). subst x.
        apply list_elem_of_In in Hx.
        destruct (read_file "catalogue_info.json" entries)
          as [e|[| | | | |items]] eqn:Hread.
        7: { split; [|intros _; right; by left]. intros _. by exists entries, items. }
        all: split; [intros [Hin|Hin]; [done|by destruct (Hprint _ Hin)]|].
        all: intros (entries' & items & [= <-] & _ & Hcontent); congruence.
      * split.
        -- intros [Hin|Hin]; [done|by apply elem_of_nil in Hin].
        -- intros (entries' & items & [= <-] & Hin & _). exfalso.
           apply list_elem_of_In in Hin.
           assert (existsb (String.eqb "catalogue_info.json") (List.map fst entries) = true)
             as Htrue.
           { apply existsb_exists. exists "catalogue_info.json". split; [done|].
             apply String.eqb_refl. }
           congruence.
    + split.
      * intros [Hin|Hin]; [done|by apply elem_of_nil in Hin].
      * by intros (entries' & items & ? & _).
Qed.

(** ** The script and its batch of catalogues *)

Section Allowed.

Variable E : env.
Variable P : event → Prop.

Hypothesis P_print : ∀ l, P (Print l).
Hypothesis P_sleep : P (Sleep 30).
Hypothesis P_loaddata : ∀ path, P (LoadData path).
Hypothesis P_upsert : P UpsertFramework.
Hypothesis P_call :
  ∀ method kwargs, method ≠ "list_data_sources" → P (Call method kwargs).

Local Ltac allowed :=
  hoare_steps;
  first [ apply P_print | apply P_sleep | apply P_loaddata | apply P_upsert
        | (apply P_call; discriminate) | idtac ].

Lemma retry_event_fine ev : is_retry_event ev = true → P ev.
Proof.
  destruct ev as [method kwargs|d|path| |l]; cbn.
  - intros Hm. apply String.eqb_eq in Hm as ->. by apply P_call.
  - intros Hd. apply N.eqb_eq in Hd as ->. apply P_sleep.
  - intros H. discriminate H.
  - intros H. discriminate H.
  - intros _. apply P_print.
Qed.

Lemma wait_fine job_id T :
  hoare P (_wait_for_ingestion_completion E job_id T) any_value.
Proof.
  intros w.
  destruct (poll_loop_run E (poll_fuel T) job_id (clock (log [Print (Monitoring job_id)] w))
              T (log [Print (Monitoring job_id)] w))
    as (n & mid & w' & o & Hloop & _ & Hmid & _ & _ & _ & _ & Hend).
  { lia. }
  { unfold poll_fuel. lia. }
  assert (_wait_for_ingestion_completion E job_id T w = (o, w')) as ->.
  { unfold _wait_for_ingestion_completion, bind at 1 2.
    cbn [print emit time fst snd]. exact Hloop. }
  cbn [fst snd].
  assert (Forall P mid) as HPmid.
  { eapply Forall_impl; [exact Hmid|]. apply retry_event_fine. }
  cbn [log trace] in Hend.
  destruct (_ <? _)%N;
    [destruct (classify (reply E (polls_done (log [Print (Monitoring job_id)] w) + n)))|];
    [| |done|].
  all: destruct Hend as (-> & Ht & _).
  1,2: destruct Ht as [kw Ht].
  all: split; [|done].
  all: eexists; rewrite Ht, <- app_assoc; split; [reflexivity|].
  all: apply Forall_app; split; [by repeat constructor; apply P_print|].
  all: apply Forall_app; split; [done|].
  all: repeat constructor; try apply P_print; by apply P_call.
Qed.

Lemma create_fine : hoare P (_create_catalogue_data_source E) any_value.
Proof. apply create_emits; [auto|]. intros kwargs. by apply P_call. Qed.

Lemma update_fine urls : hoare P (_update_data_source_urls E urls) any_value.
Proof. unfold _update_data_source_urls, update_data_source. allowed. Qed.

Lemma start_fine : hoare P (_start_ingestion_job E) any_value.
Proof. apply start_emits; [auto|]. intros kwargs. by apply P_call. Qed.

Lemma load_django_fixtures_fine : hoare P (_load_django_fixtures E) any_value.
Proof. apply load_django_fixtures_emits; auto. Qed.

Lemma after_resolution_fine id : hoare P (after_resolution E id) any_value.
Proof.
  unfold after_resolution, after_start.
  hoare_step; [hoare_steps|].
  hoare_step; [hoare_steps; apply P_print|].
  hoare_step; [apply validate_emits; auto|].
  hoare_step; [apply deduplicate_emits; auto|].
  cbv zeta.
  hoare_step; [hoare_steps; apply P_print|].
  hoare_step; [hoare_steps; apply P_print|].
  hoare_step; [hoare_steps; apply P_print|].
  hoare_step; [apply update_fine|].
  hoare_step; [apply start_fine|].
  hoare_step; [apply wait_fine|].
  hoare_step; [|hoare_steps; apply P_print].
  hoare_step; [apply load_django_fixtures_fine|].
  hoare_steps; apply P_print.
Qed.

End Allowed.

Section Batch.

Implicit Types (w : world) (E : env).

Lemma load_catalogue_unfold E :
  load_catalogue E
  = if negb (path_exists E (ai_kb_fixtures_dir E))
    then print CatalogueDirNotFound ;;; ret false
    else id <- _get_or_create_catalogue_data_source E ;; after_resolution E id.
Proof. reflexivity. Qed.

Lemma filter_batch_prints (lines : list line) :
  List.filter is_batch_event (List.map Print lines) = [].
Proof. induction lines as [|l r IH]; [done|]. apply IH. Qed.

Lemma not_batch_fine E id w :
  ∃ new, trace (snd (after_resolution E id w)) = trace w ++ new
         ∧ List.filter is_batch_event new = [].
Proof.
  destruct (after_resolution_fine E (λ ev, is_batch_event ev = false)) with (id := id) (w := w)
    as [(new & Ht & HP) _]; try done.
  { intros method kwargs Hm. cbn. by apply String.eqb_neq. }
  exists new. split; [done|]. by apply filter_none.
Qed.

(** A load of a catalogue that has a directory lists the data sources
    once, first of all, and never sleeps 60 seconds. *)
Lemma load_batch_events E w :
  path_exists E (ai_kb_fixtures_dir E) = true →
  ∃ new, trace (snd (load_catalogue E w)) = trace w ++ new
         ∧ List.filter is_batch_event new = [Call "list_data_sources" [kb_arg E]].
Proof.
  intros Hexists. rewrite load_catalogue_unfold, Hexists. cbn [negb].
  assert (∃ new1, trace (snd (_get_or_create_catalogue_data_source E w)) = trace w ++ new1
                  ∧ List.filter is_batch_event new1 = [Call "list_data_sources" [kb_arg E]])
    as (new1 & Ht1 & Hf1).
  { destruct (found_data_source E) as [ds|] eqn:Hfound.
    - destruct (get_or_create_found E w ds Hfound) as [_ ->].
      eexists. cbn. rewrite <- app_assoc. split; [done|]. done.
    - destruct (get_or_create_not_found E w Hfound)
        as (w1 & prints & -> & _ & (lines & ->) & ->).
      destruct (create_fine E (λ ev, is_batch_event ev = false)) with (w := log (Call "list_data_sources" [kb_arg E] :: List.map Print lines) w)
        as [(new & Ht & HP) _]; try done.
      { intros method kwargs Hm. cbn. by apply String.eqb_neq. }
      apply filter_none in HP.
      destruct (_create_catalogue_data_source E _) as [[id|e|] w2]; cbn [snd] in *.
      + eexists. rewrite Ht. cbn [log trace]. rewrite <- app_assoc. split; [done|].
        cbn [app List.filter is_batch_event String.eqb]. cbn.
        by rewrite List.filter_app, filter_batch_prints, HP.
      + eexists. cbn [log trace]. rewrite Ht. cbn [log trace].
        rewrite <- !app_assoc. split; [done|]. cbn.
        by rewrite !List.filter_app, filter_batch_prints, HP.
      + eexists. rewrite Ht. cbn [log trace]. rewrite <- app_assoc. split; [done|].
        cbn. by rewrite List.filter_app, filter_batch_prints, HP. }
  unfold bind.
  destruct (_get_or_create_catalogue_data_source E w) as [[id|e|] w1]; cbn [snd] in *.
  - destruct (not_batch_fine E id w1) as (new2 & Ht2 & Hf2).
    exists (new1 ++ new2). rewrite Ht2, Ht1, <- app_assoc. split; [done|].
    by rewrite List.filter_app, Hf1, Hf2.
  - by exists new1.
  - by exists new1.
Qed.

End Batch.

Section LoadAll.

Variable S : script.
Implicit Types (w : world).

Lemma is_last_catalogue (pre : list string) c rest :
  NoDup (pre ++ c :: rest) →
  ∃ l, last (pre ++ c :: rest) = Some l ∧ (String.eqb c l = true ↔ rest = []).
Proof.
  intros Hnd. rewrite last_app_cons.
  destruct rest as [|d r].
  - exists c. split; [done|]. by rewrite String.eqb_refl.
  - rewrite last_cons_cons.
    destruct (last (d :: r)) as [l|] eqn:Hl; [|by apply last_None in Hl].
    exists l. split; [done|]. split; [|done].
    intros ->%String.eqb_eq. exfalso.
    apply NoDup_app in Hnd as (_ & _ & Hnd). apply NoDup_cons in Hnd as [Hc _].
    by apply Hc, last_Some_elem_of.
Qed.

Lemma available_has_directory c :
  c ∈ available_catalogues S →
  path_exists (loader_env S c) (ai_kb_fixtures_dir (loader_env S c)) = true.
Proof.
  unfold available_catalogues.
  destruct (files S "fixtures/ai_kb") as [entries|]; [|by intros ?%elem_of_nil].
  intros Hc. apply elem_of_sort_filter in Hc as [_ Hdir].
  unfold path_exists, ai_kb_fixtures_dir, path_join in *. cbn in *.
  by destruct (files S _).
Qed.

(** The loop of the [all] mode when no load raises: every catalogue that
    is left is loaded, with a sleep before the next one; a load that
    returns [False] only lowers the flag. *)
Lemma load_all_run available pre rest success w :
  available = pre ++ rest →
  NoDup available →
  (∀ c, c ∈ rest →
        path_exists (loader_env S c) (ai_kb_fixtures_dir (loader_env S c)) = true) →
  (∀ c, c ∈ rest → ∀ w', ∃ b, fst (load_catalogue (loader_env S c) w') = Returns b) →
  ∃ b new,
    fst (load_all S available rest success w) = Returns b
    ∧ trace (snd (load_all S available rest success w)) = trace w ++ new
    ∧ List.filter is_batch_event new = batch_events S rest
    ∧ ((∀ c, c ∈ rest → ∀ w', fst (load_catalogue (loader_env S c) w') = Returns true) →
       b = success)
    ∧ ((success = false
        ∨ ∃ c, c ∈ rest ∧ ∀ w', fst (load_catalogue (loader_env S c) w') = Returns false) →
       b = false).
Proof.
  revert pre success w.
  induction rest as [|c rest IH]; intros pre success w Hav Hnd Hdirs Hreturns.
  { exists success, []. cbn. rewrite app_nil_r. split_and!; try done.
    intros [->|(c & Hc & _)]; [done|by apply elem_of_nil in Hc]. }
  cbn [load_all].
  set (w0' := snd (new_loader w)).
  assert (trace w0' = trace w) as Ht0 by done.
  destruct (load_batch_events (loader_env S c) w0') as (new1 & Ht1 & Hf1).
  { apply Hdirs. by left. }
  destruct (Hreturns c (list_elem_of_here _ _) w0') as [bc Hbc].
  destruct (load_catalogue (loader_env S c) w0') as [o1 w1] eqn:Hload.
  cbn [fst snd] in *. subst o1.
  rewrite Hav in Hnd.
  destruct (is_last_catalogue pre c rest Hnd) as (l & Hlast & Hl).
  set (success' := if bc then success else false).
  set (pause := if negb (String.eqb c l) then sleep 60 else ret tt).
  assert (∃ w2 gap, pause w1 = (Returns tt, w2)
                    ∧ trace w2 = trace w1 ++ gap
                    ∧ gap = match rest with [] => [] | _ :: _ => [Sleep 60] end)
    as (w2 & gap & Hpause & Ht2 & Hgap).
  { unfold pause. destruct rest as [|d r].
    - rewrite (proj2 Hl eq_refl). exists w1, []. by rewrite app_nil_r.
    - destruct (String.eqb c l) eqn:Hcl; [discriminate (proj1 Hl eq_refl)|].
      eexists _, _. split; [reflexivity|]. split; done. }
  destruct (IH (pre ++ [c]) success' w2) as (b & new2 & Hb & Ht & Hf & Htrue & Hfalse).
  { by rewrite <- app_assoc. }
  { by rewrite Hav. }
  { intros d Hd. apply Hdirs. by right. }
  { intros d Hd. apply Hreturns. by right. }
  assert (load_all S available (c :: rest) success w
          = load_all S available rest success' w2) as Hrun.
  { cbn [load_all].
    rewrite (bind_returns new_loader _ w tt w0' eq_refl).
    rewrite (bind_returns _ _ w0' bc w1 Hload). cbv zeta. fold success'.
    assert (lift (last_catalogue available) w1 = (Returns l, w1)) as Hlift.
    { unfold lift, last_catalogue. by rewrite Hav, Hlast. }
    rewrite (bind_returns _ _ w1 l w1 Hlift). fold pause.
    by rewrite (bind_returns _ _ w1 tt w2 Hpause). }
  cbn [load_all] in Hrun. rewrite Hrun.
  exists b, (new1 ++ gap ++ new2).
  split; [done|]. split; [by rewrite Ht, Ht2, Ht1, Ht0, <- !app_assoc|].
  split.
  { rewrite !List.filter_app, Hf1, Hf, Hgap. cbn [batch_events app].
    by destruct rest. }
  split.
  - intros Hall. rewrite Htrue.
    + unfold success'.
      pose proof (Hall c (list_elem_of_here _ _) w0') as Hc.
      rewrite Hload in Hc. cbn in Hc. by injection Hc as ->.
    + intros d Hd. apply Hall. by right.
  - intros Hsome. apply Hfalse.
    destruct Hsome as [->|(d & Hd & Hfail)].
    + left. unfold success'. by destruct bc.
    + apply elem_of_cons in Hd as [->|Hd].
      * left. unfold success'.
        specialize (Hfail w0'). rewrite Hload in Hfail. cbn in Hfail.
        by injection Hfail as ->.
      * right. by exists d.
Qed.

End LoadAll.

Section LoadAllAborts.

Variable S : script.
Implicit Types (w : world).

(** The loop of the [all] mode when a load raises: the catalogues after it
    are not loaded. *)
Lemma load_all_aborts available pre loaded c rest success w :
  available = pre ++ loaded ++ c :: rest →
  NoDup available →
  (∀ d, d ∈ loaded ++ [c] →
        path_exists (loader_env S d) (ai_kb_fixtures_dir (loader_env S d)) = true) →
  (∀ d, d ∈ loaded → ∀ w', ∃ b, fst (load_catalogue (loader_env S d) w') = Returns b) →
  (∀ w', ∃ e, fst (load_catalogue (loader_env S c) w') = Raises e) →
  ∃ e new,
    fst (load_all S available (loaded ++ c :: rest) success w) = Raises e
    ∧ trace (snd (load_all S available (loaded ++ c :: rest) success w)) = trace w ++ new
    ∧ List.filter is_batch_event new = batch_events S (loaded ++ [c]).
Proof.
  revert pre success w.
  induction loaded as [|d loaded IH]; intros pre success w Hav Hnd Hdirs Hreturns Hraises.
  - cbn [app load_all].
    set (w0' := snd (new_loader w)).
    destruct (load_batch_events (loader_env S c) w0') as (new1 & Ht1 & Hf1).
    { apply Hdirs. by left. }
    destruct (Hraises w0') as [e He].
    destruct (load_catalogue (loader_env S c) w0') as [o1 w1] eqn:Hload.
    cbn [fst snd] in *. subst o1.
    exists e, new1.
    assert (load_all S available (c :: rest) success w = (Raises e, w1)) as Hrun.
    { cbn [load_all]. rewrite (bind_returns new_loader _ w tt w0' eq_refl).
      unfold bind at 1. by rewrite Hload. }
    cbn [load_all] in Hrun. rewrite Hrun. cbn [fst snd].
    split; [done|]. split; [exact Ht1|exact Hf1].
  - cbn [app load_all].
    set (w0' := snd (new_loader w)).
    assert (trace w0' = trace w) as Ht0 by done.
    destruct (load_batch_events (loader_env S d) w0') as (new1 & Ht1 & Hf1).
    { apply Hdirs. by left. }
    destruct (Hreturns d (list_elem_of_here _ _) w0') as [bd Hbd].
    destruct (load_catalogue (loader_env S d) w0') as [o1 w1] eqn:Hload.
    cbn [fst snd] in *. subst o1.
    rewrite Hav in Hnd. cbn [app] in Hnd.
    destruct (is_last_catalogue pre d (loaded ++ c :: rest) Hnd) as (l & Hlast & Hl).
    set (success' := if bd then success else false).
    assert (String.eqb d l = false) as Hdl.
    { destruct (String.eqb d l); [|done].
      pose proof (proj1 Hl eq_refl) as Hnil. by destruct loaded. }
    destruct (IH (pre ++ [d]) success' (snd (sleep 60 w1))) as (e & new2 & He & Ht & Hf).
    { by rewrite <- app_assoc. }
    { rewrite Hav. cbn [app]. done. }
    { intros x Hx. apply Hdirs. by right. }
    { intros x Hx. apply Hreturns. by right. }
    { done. }
    assert (load_all S available (d :: loaded ++ c :: rest) success w
            = load_all S available (loaded ++ c :: rest) success' (snd (sleep 60 w1)))
      as Hrun.
    { cbn [load_all].
      rewrite (bind_returns new_loader _ w tt w0' eq_refl).
      rewrite (bind_returns _ _ w0' bd w1 Hload). cbv zeta. fold success'.
      assert (lift (last_catalogue available) w1 = (Returns l, w1)) as Hlift.
      { unfold lift, last_catalogue. rewrite Hav. cbn [app]. by rewrite Hlast. }
      rewrite (bind_returns _ _ w1 l w1 Hlift). rewrite Hdl. cbn [negb].
      by rewrite (bind_returns _ _ w1 tt (snd (sleep 60 w1)) eq_refl). }
    cbn [load_all] in Hrun. rewrite Hrun.
    exists e, (new1 ++ [Sleep 60] ++ new2).
    split; [done|]. split.
    { rewrite Ht. cbn. by rewrite Ht1, Ht0, <- !app_assoc. }
    rewrite !List.filter_app, Hf1, Hf. cbn [batch_events app].
    by destruct loaded.
Qed.

End LoadAllAborts.

Section LoadWhen.

Variable E : env.
Implicit Types (w : world).

Lemma load_catalogue_total w : fst (load_catalogue E w) ≠ OutOfFuel.
Proof.
  destruct (load_catalogue_outcome E w) as (w5 & _ & ->).
  rewrite (get_or_create_outcome E w).
  destruct (negb _); [done|].
  assert (∀ o : outcome string,
            o ≠ OutOfFuel →
            match o with
            | Returns _ =>
                match all_catalogue_urls E with
                | [] => Returns false
                | _ :: _ =>
                    match validate E (all_catalogue_urls E) with
                    | Ok (v, _) =>
                        if (3000 <? total_chars (deduplicate v))%nat then Returns false
                        else
                          match start_ingestion_job_reply E with
                          | Ok job_id => fst (_wait_for_ingestion_completion E job_id 20 w5)
                          | Raise e => Raises e
                          end
                    | Raise e => Raises e
                    end
                end
            | Raises e => Raises e
            | OutOfFuel => OutOfFuel
            end ≠ OutOfFuel) as Hrest.
  { intros [id|e|] Ho; [|done|done].
    destruct (all_catalogue_urls E); [done|].
    destruct (validate E _) as [[v iss]|e]; [|done].
    destruct (_ <? _)%nat; [done|].
    destruct (start_ingestion_job_reply E) as [job_id|e]; [|done].
    by destruct (wait_returns E job_id 20 w5) as (b & -> & _). }
  apply Hrest.
  destruct (found_data_source E); [done|].
  destruct (validate E _) as [[v iss]|e]; [|done].
  destruct (_ <? _)%nat; [done|].
  by destruct (create_data_source_reply E).
Qed.

(** A catalogue whose data source exists and whose URLs are over the
    budget: the load returns [False], from any world. *)
Lemma load_returns_false_when w ds v iss :
  path_exists E (ai_kb_fixtures_dir E) = true →
  found_data_source E = Some ds →
  all_catalogue_urls E ≠ [] →
  validate E (all_catalogue_urls E) = Ok (v, iss) →
  (3000 < total_chars (deduplicate v))%nat →
  fst (load_catalogue E w) = Returns false.
Proof.
  intros Hexists Hfound Hurls Hvalid Hover.
  destruct (load_catalogue_outcome E w) as (w5 & _ & ->).
  rewrite (get_or_create_outcome E w), Hexists, Hfound, Hvalid. cbn [negb].
  apply Nat.ltb_lt in Hover. rewrite Hover.
  by destruct (all_catalogue_urls E).
Qed.

(** A catalogue whose data source exists, whose URLs are within the budget
    and whose job is complete at every query: the load returns [True]. *)
Lemma load_returns_true_when w ds v iss job_id :
  path_exists E (ai_kb_fixtures_dir E) = true →
  found_data_source E = Some ds →
  all_catalogue_urls E ≠ [] →
  validate E (all_catalogue_urls E) = Ok (v, iss) →
  (total_chars (deduplicate v) ≤ 3000)%nat →
  start_ingestion_job_reply E = Ok job_id →
  (∀ p, classify (reply E p) = Complete) →
  fst (load_catalogue E w) = Returns true.
Proof.
  intros Hexists Hfound Hurls Hvalid Hbudget Hstart Hcomplete.
  destruct (load_catalogue_outcome E w) as (w5 & _ & ->).
  rewrite (get_or_create_outcome E w), Hexists, Hfound, Hvalid, Hstart. cbn [negb].
  apply Nat.ltb_ge in Hbudget. rewrite Hbudget.
  destruct (all_catalogue_urls E); [done|].
  destruct (wait_returns E job_id 20 w5) as (b & -> & Hb).
  f_equal. apply Hb. exists 0%nat. split_and!.
  - intros i Hi. lia.
  - done.
  - apply Hcomplete.
Qed.

(** A catalogue that has no data source, and whose creation the service
    refuses: the load raises, from any world. *)
Lemma load_raises_when w v iss e :
  path_exists E (ai_kb_fixtures_dir E) = true →
  found_data_source E = None →
  validate E (all_catalogue_urls E) = Ok (v, iss) →
  (total_chars (deduplicate v) ≤ 3000)%nat →
  create_data_source_reply E = Raise e →
  fst (load_catalogue E w) = Raises e.
Proof.
  intros Hexists Hfound Hvalid Hbudget Hcreate.
  destruct (load_catalogue_outcome E w) as (w5 & _ & ->).
  rewrite (get_or_create_outcome E w), Hexists, Hfound, Hvalid, Hcreate. cbn [negb].
  apply Nat.ltb_ge in Hbudget. by rewrite Hbudget.
Qed.

End LoadWhen.

Section Script.

Variable S : script.
Implicit Types (w : world).

Lemma script_all_mode w :
  requested S = Some "all" →
  load_ai_knowledge_base S w
  = try_except
      (success <- load_all S (available_catalogues S) (available_catalogues S) true ;;
       if success then lift (last_catalogue (available_catalogues S)) ;;; ret 0%nat
       else ret 1%nat)
      (λ _, ret 1%nat) w.
Proof.
  unfold requested, load_ai_knowledge_base.
  destruct (argv S) as [|prog [|arg args]]; [done|done|].
  intros [= ->]. done.
Qed.

Lemma script_single_mode w c :
  requested S = Some c → c ≠ "all" →
  load_ai_knowledge_base S w
  = if existsb (String.eqb c) known_catalogues
       || existsb (String.eqb c) (available_catalogues S)
    then
      try_except
        (success <- (new_loader ;;; load_catalogue (loader_env S c)) ;;
         if success then ret 0%nat else ret 1%nat)
        (λ _, ret 1%nat) w
    else (Returns 1%nat, w).
Proof.
  unfold requested, load_ai_knowledge_base.
  destruct (argv S) as [|prog [|arg args]]; [done|done|].
  intros [= ->] Hc. cbv zeta.
  apply String.eqb_neq in Hc. rewrite Hc. cbn [negb].
  by destruct (_ || _).
Qed.

Lemma script_single_run (load : M bool) w :
  try_except
    (success <- (new_loader ;;; load) ;;
     if success then ret 0%nat else ret 1%nat)
    (λ _, ret 1%nat) w
  = match load (snd (new_loader w)) with
    | (Returns true, w1) => (Returns 0%nat, w1)
    | (Returns false, w1) | (Raises _, w1) => (Returns 1%nat, w1)
    | (OutOfFuel, w1) => (OutOfFuel, w1)
    end.
Proof.
  set (w0 := snd (new_loader w)).
  unfold try_except, bind.
  change (new_loader w) with (Returns tt, w0). cbv iota beta.
  destruct (load w0) as [[[]|e|] w1]; reflexivity.
Qed.

Lemma script_all_run (loop : M bool) (available : list string) w :
  try_except
    (success <- loop ;;
     if success then lift (last_catalogue available) ;;; ret 0%nat
     else ret 1%nat)
    (λ _, ret 1%nat) w
  = match loop w with
    | (Returns true, w1) =>
        (Returns (match last available with Some _ => 0 | None => 1 end)%nat, w1)
    | (Returns false, w1) | (Raises _, w1) => (Returns 1%nat, w1)
    | (OutOfFuel, w1) => (OutOfFuel, w1)
    end.
Proof.
  unfold try_except, bind, lift, last_catalogue.
  destruct (loop w) as [[[]|e|] w1]; try reflexivity.
  by destruct (last available).
Qed.

Lemma existsb_eqb_elem c (l : list string) :
  existsb (String.eqb c) l = true ↔ c ∈ l.
Proof.
  rewrite existsb_exists, list_elem_of_In. split.
  - by intros (x & Hx & ->%String.eqb_eq).
  - intros Hc. exists c. split; [done|apply String.eqb_refl].
Qed.

End Script.

(** X17. The script, for one catalogue: it ends with status 0 or 1; with
    0 exactly when the name is one the script accepts (a known name, or a
    directory of [fixtures/ai_kb]) and [load_catalogue] returns [True], so a
    load that raises ends with status 1 like one that returns [False]; and a
    name without a directory ends with status 1 and no call of the service. *)
Theorem single_catalogue_exit_status S w c :
  requested S = Some c →
  c ≠ "all" →
  let r := load_ai_knowledge_base S w in
  let load := load_catalogue (loader_env S c) (snd (new_loader w)) in
  (fst r = Returns 0%nat ∨ fst r = Returns 1%nat)
  ∧ (fst r = Returns 0%nat
     ↔ (c ∈ known_catalogues ∨ c ∈ available_catalogues S) ∧ fst load = Returns true)
  ∧ (files S (path_join "fixtures/ai_kb" c) = None →
     fst r = Returns 1%nat
     ∧ Forall (λ ev, is_service_call ev = false) (new_events (load_ai_knowledge_base S) w)).
Proof.
  intros Hrequested Hc. cbv zeta.
  assert (existsb (String.eqb c) known_catalogues
          || existsb (String.eqb c) (available_catalogues S) = true
          ↔ c ∈ known_catalogues ∨ c ∈ available_catalogues S) as Haccepted.
  { by rewrite orb_true_iff, !existsb_eqb_elem. }
  unfold new_events. rewrite (script_single_mode S w c Hrequested Hc).
  destruct (existsb (String.eqb c) known_catalogues
            || existsb (String.eqb c) (available_catalogues S)) eqn:Hacc.
  2: { split; [by right|]. split.
       - split; [done|]. intros [Hin _]. apply Haccepted in Hin. done.
       - intros _. split; [done|]. cbn. rewrite drop_all. constructor. }
  apply proj1 in Haccepted. specialize (Haccepted eq_refl).
  rewrite script_single_run.
  pose proof (load_catalogue_total (loader_env S c) (snd (new_loader w))) as Htotal.
  split; [|split].
  - destruct (load_catalogue (loader_env S c) (snd (new_loader w))) as [[[]|e|] w1];
      cbn in *; try done; auto.
  - destruct (load_catalogue (loader_env S c) (snd (new_loader w))) as [[[]|e|] w1];
      cbn in *; try done; split; try done; by intros [_ ?].
  - intros Hnone.
    assert (load_catalogue (loader_env S c) (snd (new_loader w))
            = (Returns false, log [Print CatalogueDirNotFound] (snd (new_loader w))))
      as ->.
    { assert (path_exists (loader_env S c) (ai_kb_fixtures_dir (loader_env S c)) = false)
        as Hmissing.
      { unfold path_exists.
        change (fs (loader_env S c) (ai_kb_fixtures_dir (loader_env S c)))
          with (files S (path_join "fixtures/ai_kb" c)).
        by rewrite Hnone. }
      unfold load_catalogue. by rewrite Hmissing. }
    cbn. split; [done|]. rewrite drop_app_length. by repeat constructor.
Qed.

(** X18. The script in [all] mode, when no load raises: every directory
    of [fixtures/ai_kb] is loaded, in ascending order of the names, with a
    sleep of 60 seconds between two loads and none after the last. A load
    that returns [False] does not end the batch; it makes the status 1. The
    status is 0 when every load returns [True] and there is a catalogue; with
    no catalogue at all it is 1. *)
Theorem all_mode_loads_every_catalogue S w :
  requested S = Some "all" →
  NoDup (available_catalogues S) →
  (∀ c, c ∈ available_catalogues S →
        ∀ w', ∃ b, fst (load_catalogue (loader_env S c) w') = Returns b) →
  let r := load_ai_knowledge_base S w in
  List.filter is_batch_event (new_events (load_ai_knowledge_base S) w)
  = batch_events S (available_catalogues S)
  ∧ ((∀ c, c ∈ available_catalogues S →
           ∀ w', fst (load_catalogue (loader_env S c) w') = Returns true) →
     available_catalogues S ≠ [] →
     fst r = Returns 0%nat)
  ∧ ((∃ c, c ∈ available_catalogues S
           ∧ ∀ w', fst (load_catalogue (loader_env S c) w') = Returns false) →
     fst r = Returns 1%nat)
  ∧ (available_catalogues S = [] → fst r = Returns 1%nat).
Proof.
  intros Hrequested Hnd Hreturns. cbv zeta.
  unfold new_events. rewrite (script_all_mode S w Hrequested).
  destruct (load_all_run S (available_catalogues S) [] (available_catalogues S) true w)
    as (b & new & Hb & Ht & Hf & Htrue & Hfalse); try done.
  { intros c Hc. by apply available_has_directory. }
  rewrite script_all_run.
  destruct (load_all S (available_catalogues S) (available_catalogues S) true w)
    as [o w1]. cbn [fst snd] in *. subst o.
  split; [|split; [|split]].
  - destruct b; cbn [snd]; by rewrite Ht, drop_app_length.
  - intros Hall Hsome. rewrite (Htrue Hall).
    apply last_is_Some in Hsome as [l ->]. done.
  - intros Hsome. rewrite Hfalse; [done|by right].
  - intros Hnil. destruct b; [|done]. rewrite Hnil. done.
Qed.

(** X19. The script in [all] mode, when a load raises: the catalogues
    after it are not loaded, and the status is 1. *)
Theorem all_mode_stops_at_an_exception S w loaded c rest :
  requested S = Some "all" →
  NoDup (available_catalogues S) →
  available_catalogues S = loaded ++ c :: rest →
  (∀ d, d ∈ loaded → ∀ w', ∃ b, fst (load_catalogue (loader_env S d) w') = Returns b) →
  (∀ w', ∃ e, fst (load_catalogue (loader_env S c) w') = Raises e) →
  fst (load_ai_knowledge_base S w) = Returns 1%nat
  ∧ List.filter is_batch_event (new_events (load_ai_knowledge_base S) w)
    = batch_events S (loaded ++ [c]).
Proof.
  intros Hrequested Hnd Hav Hreturns Hraises.
  unfold new_events. rewrite (script_all_mode S w Hrequested).
  destruct (load_all_aborts S (available_catalogues S) [] loaded c rest true w)
    as (e & new & He & Ht & Hf); try done.
  { intros d Hd. apply available_has_directory. rewrite Hav.
    apply elem_of_app in Hd as [Hd|Hd]; apply elem_of_app; [by left|right].
    apply list_elem_of_singleton in Hd as ->. by left. }
  rewrite <- Hav in He, Ht.
  rewrite script_all_run.
  destruct (load_all S (available_catalogues S) (available_catalogues S) true w)
    as [o w1]. cbn [fst snd] in *. subst o. cbn [fst snd].
  split; [done|]. by rewrite Ht, drop_app_length.
Qed.

(** ** The fixtures of a tenant *)

Section TenantFiles.

Lemma scan_fields_spec items count required :
  scan_fields items count required
  = ((count + length (counted_fields items))%nat,
     required ++ List.filter is_critical (counted_fields items)).
Proof.
  revert count required.
  induction items as [|[name value] rest IH]; intros count required.
  { cbn. by rewrite Nat.add_0_r, app_nil_r. }
  cbn [scan_fields]. unfold counted_fields. cbn [List.filter fst snd].
  destruct (is_empty_string value && negb (existsb (String.eqb name) optional_fields)).
  - rewrite IH. unfold counted_fields. cbn [List.map fst length List.filter].
    fold (is_critical name). f_equal; [lia|].
    destruct (is_critical name); [by rewrite <- app_assoc|done].
  - apply IH.
Qed.

Lemma scan_records_spec data count required :
  well_formed data →
  scan_records data count required
  = Ok ((count + length (empty_fields data))%nat,
        required ++ List.filter is_critical (empty_fields data)).
Proof.
  intros Hwf. revert count required.
  induction Hwf as [|record rest Hrecord _ IH]; intros count required.
  { cbn. by rewrite Nat.add_0_r, app_nil_r. }
  destruct record as [|error|items]; cbn [scan_records empty_fields flat_map].
  - apply IH.
  - by destruct (Hrecord error).
  - rewrite scan_fields_spec, IH, length_app, List.filter_app.
    unfold empty_fields. f_equal. f_equal; [lia|by rewrite <- app_assoc].
Qed.

Lemma filter_critical_nil (l : list string) :
  List.filter is_critical l = [] ↔ ∀ name, name ∈ l → name ∉ critical_fields.
Proof.
  induction l as [|x r IH]; cbn [List.filter].
  { split; [|done]. intros _ name Hin. by apply elem_of_nil in Hin. }
  destruct (is_critical x) eqn:Hx.
  - split; [done|]. intros Hall. exfalso. apply (Hall x); [by left|].
    unfold is_critical in Hx. apply existsb_exists in Hx as (y & Hy & ->%String.eqb_eq).
    by apply list_elem_of_In.
  - rewrite IH. split.
    + intros Hall name Hin. apply elem_of_cons in Hin as [->|Hin]; [|by apply Hall].
      intros Hc. apply list_elem_of_In in Hc.
      assert (is_critical x = true); [|congruence].
      apply existsb_exists. exists x. split; [done|apply String.eqb_refl].
    + intros Hall name Hin. apply Hall. by right.
Qed.

(** No [W] in the digits of a number, nor in the line of a valid file. *)
Lemma contains_needs_first c needle hay :
  Str.all (λ d, negb (Ascii.eqb c d)) hay = true →
  Str.contains (String c needle) hay = false.
Proof.
  induction hay as [|d r IH]; [done|]. cbn [Str.all Str.contains Str.startswith].
  intros [Hd Hr]%andb_prop. apply negb_true_iff in Hd. rewrite Hd. cbn.
  by apply IH.
Qed.

Lemma all_app p s t : Str.all p (s +:+ t) = Str.all p s && Str.all p t.
Proof.
  induction s as [|c r IH]; [done|].
  change (String c r +:+ t) with (String c (r +:+ t)).
  cbn [Str.all]. by rewrite IH, andb_assoc.
Qed.

Lemma all_digits p d :
  (∀ c, Str.isdigit c = true → p c = true) →
  Str.all p (NilEmpty.string_of_uint d) = true.
Proof.
  intros Hp. induction d; cbn; [done|..]; rewrite IHd, andb_true_r; by apply Hp.
Qed.

Lemma all_str_nat p n :
  (∀ c, Str.isdigit c = true → p c = true) → Str.all p (str_nat n) = true.
Proof.
  intros Hp. unfold str_nat, NilZero.string_of_uint.
  destruct (Nat.to_uint n) eqn:Hn; try (rewrite <- Hn; by apply all_digits).
  cbn. rewrite andb_true_r. by apply Hp.
Qed.

Lemma valid_line_has_no_warning n :
  Str.contains "Warning:" ("Valid fixture with " +:+ str_nat n +:+ " records") = false.
Proof.
  apply contains_needs_first. rewrite !all_app, all_str_nat; [done|].
  intros c Hc. apply negb_true_iff, Ascii.eqb_neq. intros <-. done.
Qed.

End TenantFiles.

(** X20. [validate_ato_fixture_file], for a file that is a list of
    records, not empty: the file is accepted exactly when more than five of
    its fields are counted as empty (an empty string in a field that is not
    optional), or none of the counted fields is critical. So with more than
    five empty fields a file is accepted although a critical field is empty;
    and an accepted file carries a warning exactly in that case. *)
Theorem many_empty_fields_hide_the_critical_ones data :
  data ≠ [] →
  well_formed data →
  let result := validate_ato_fixture_file (Records data) in
  let n := length (empty_fields data) in
  (fst result = true
   ↔ (5 < n)%nat ∨ ∀ name, name ∈ empty_fields data → name ∉ critical_fields)
  ∧ (fst result = true →
     (Str.contains "Warning:" (snd result) = true ↔ (5 < n)%nat)).
Proof.
  intros Hdata Hwf. cbv zeta.
  unfold validate_ato_fixture_file.
  destruct data as [|record rest]; [done|].
  rewrite (scan_records_spec _ 0 [] Hwf). cbn [Nat.add app].
  set (fields := empty_fields (record :: rest)).
  destruct (5 <? length fields)%nat eqn:Hmany.
  - apply Nat.ltb_lt in Hmany. cbn [fst snd]. split; [by split; [left|]|].
    intros _. split; [done|]. intros _. done.
  - apply Nat.ltb_ge in Hmany.
    destruct (List.filter is_critical fields) as [|name names] eqn:Hcritical.
    + cbn [fst snd]. split.
      * split; [|done]. intros _. right. by apply filter_critical_nil.
      * intros _. rewrite valid_line_has_no_warning. split; [done|lia].
    + cbn [fst snd]. split; [|done]. split; [done|].
      intros [Hlt|Hnone]; [lia|].
      apply filter_critical_nil in Hnone. congruence.
Qed.

Section TenantLists.

Variable entries : list (string * tenant_file).

Let verdict (json_file : string) : bool * string :=
  validate_ato_fixture_file (read_tenant_file json_file entries).

Lemma sort_out_spec names fixture_files invalid_files warning_files :
  sort_out entries names fixture_files invalid_files warning_files
  = (fixture_files ++ List.filter (λ n, fst (verdict n)) names,
     invalid_files
       ++ List.map (λ n, (n, snd (verdict n)))
            (List.filter (λ n, negb (fst (verdict n))) names),
     warning_files
       ++ List.map (λ n, (n, snd (verdict n)))
            (List.filter
               (λ n, fst (verdict n) && Str.contains "Warning:" (snd (verdict n)))
               names)).
Proof.
  revert fixture_files invalid_files warning_files.
  induction names as [|n rest IH]; intros fixture_files invalid_files warning_files.
  { cbn. by rewrite !app_nil_r. }
  cbn [sort_out List.filter]. fold (verdict n).
  destruct (verdict n) as [[] message] eqn:Hverdict;
    cbn [fst snd negb andb]; rewrite IH.
  - destruct (Str.contains "Warning:" message); cbn [List.map];
      by rewrite ?Hverdict, <- ?app_assoc.
  - cbn [List.map]. by rewrite Hverdict, <- ?app_assoc.
Qed.

Lemma filter_split_length {A} (p : A → bool) (l : list A) :
  (length (List.filter p l) + length (List.filter (λ a, negb (p a)) l))%nat = length l.
Proof.
  induction l as [|a r IH]; [done|]. cbn [List.filter].
  destruct (p a); cbn [negb length]; lia.
Qed.

End TenantLists.

(** X21. [get_ato_fixture_files], when it returns the four lists: the
    directory exists and has a [.json] file; every [.json] file is either
    in [fixture_files] (the accepted ones, in ascending order of name) or
    in [invalid_files] (the others, in the order of the directory, with the
    message of the validation); [warning_files] are the accepted files
    whose message has a warning; and [skipped_files] is empty. *)
Theorem tenant_files_are_sorted_out fs directory
    fixture_files skipped_files invalid_files warning_files :
  get_ato_fixture_files fs directory
  = FixtureFiles fixture_files skipped_files invalid_files warning_files →
  ∃ entries,
    fs directory = Some entries
    ∧ let names := List.filter (Str.endswith ".json") (List.map fst entries) in
      let verdict n := validate_ato_fixture_file (read_tenant_file n entries) in
      names ≠ []
      ∧ skipped_files = []
      ∧ Sorted str_le fixture_files
      ∧ fixture_files ≡ₚ List.filter (λ n, fst (verdict n)) names
      ∧ invalid_files
        = List.map (λ n, (n, snd (verdict n)))
            (List.filter (λ n, negb (fst (verdict n))) names)
      ∧ warning_files
        = List.map (λ n, (n, snd (verdict n)))
            (List.filter
               (λ n, fst (verdict n) && Str.contains "Warning:" (snd (verdict n)))
               names)
      ∧ (length fixture_files + length invalid_files)%nat = length names.
Proof.
  unfold get_ato_fixture_files.
  destruct (fs directory) as [entries|]; [|done].
  destruct (List.filter _ (List.map fst entries)) as [|n names] eqn:Hnames; [done|].
  rewrite sort_out_spec. cbn [app]. intros [= <- <- <- <-].
  exists entries. split; [done|]. cbv zeta. rewrite Hnames.
  split_and!; try done.
  - apply sort_sorted.
  - apply sort_perm.
  - rewrite sort_perm, length_map.
    apply (filter_split_length
             (λ n, fst (validate_ato_fixture_file (read_tenant_file n entries)))
             (n :: names)).
Qed.

Section TenantLoad.

Variable E : env.
Variable fetch : string → tenant_fs → tenant_fs.

(** The loop goes on after a fixture that fails. *)
Lemma load_each_ato_run directory files loaded failed w :
  ∃ failed' w',
    load_each_ato E directory files loaded failed w
    = (Returns (loaded ++ List.filter (loads E directory) files, failed'), w')
    ∧ List.map fst failed'
      = List.map fst failed ++ List.filter (λ f, negb (loads E directory f)) files
    ∧ trace w' = trace w ++ List.map (λ f, LoadData (path_join directory f)) files
    ∧ receivers_of w' = receivers_of w.
Proof.
  revert loaded failed w.
  induction files as [|f rest IH]; intros loaded failed w.
  { exists failed, w. cbn. by rewrite !app_nil_r. }
  cbn [load_each_ato List.filter List.map]. unfold loads at 1 4.
  unfold bind at 1. unfold try_except, bind, emit, lift.
  destruct (loaddata_reply E (path_join directory f)) as [[]|e]; cbn [ret raise negb].
  - destruct (IH (loaded ++ [f]) failed (log [LoadData (path_join directory f)] w))
      as (failed' & w' & -> & Hfailed & Htrace & Hreceivers).
    exists failed', w'. split_and!; [|done| |done].
    + by rewrite <- app_assoc.
    + rewrite Htrace. cbn [log trace]. by rewrite <- app_assoc.
  - destruct (IH loaded (failed ++ [(f, str_exn e)])
                (log [LoadData (path_join directory f)] w))
      as (failed' & w' & -> & Hfailed & Htrace & Hreceivers).
    exists failed', w'. split_and!; [done| | |done].
    + rewrite Hfailed, map_app. cbn [List.map fst]. by rewrite <- app_assoc.
    + rewrite Htrace. cbn [log trace]. by rewrite <- app_assoc.
Qed.

Lemma no_invalid_some_fixture fs directory files skipped warning :
  get_ato_fixture_files fs directory = FixtureFiles files skipped [] warning →
  files ≠ [].
Proof.
  unfold get_ato_fixture_files.
  destruct (fs directory) as [entries|]; [|done].
  destruct (List.filter _ (List.map fst entries)) as [|n names]; [done|].
  rewrite sort_out_spec. cbn [app List.filter].
  destruct (validate_ato_fixture_file (read_tenant_file n entries)) as [[] message];
    cbn [fst snd negb List.map]; [|done].
  intros [= <- _ _] Hnil.
  apply (Permutation_nil_cons (l := List.filter
           (λ n0, fst (validate_ato_fixture_file (read_tenant_file n0 entries))) names)
           (x := n)).
  rewrite <- Hnil. apply (sort_perm (n :: _)).
Qed.

Lemma filter_nil_all {A} (p : A → bool) (l : list A) :
  List.filter (λ a, negb (p a)) l = [] ↔ ∀ a, a ∈ l → p a = true.
Proof.
  induction l as [|a r IH]; cbn [List.filter].
  { split; [|done]. intros _ a Ha. by apply elem_of_nil in Ha. }
  destruct (p a) eqn:Hp; cbn [negb].
  - rewrite IH. split.
    + intros Hall b [->|Hb]%elem_of_cons; [done|by apply Hall].
    + intros Hall b Hb. apply Hall. by right.
  - split; [done|]. intros Hall. rewrite Hall in Hp; [done|by left].
Qed.

Lemma load_ato_tenant_fixtures_run fs tenant_name verbose remote_bucket w
    fs' files skipped warning :
  check_ato_workflow_completion fetch fs tenant_name remote_bucket = (true, fs') →
  get_ato_fixture_files fs' (tenant_fixtures_dir tenant_name)
  = FixtureFiles files skipped [] warning →
  ∃ b w',
    load_ato_tenant_fixtures E fetch fs tenant_name verbose remote_bucket w
    = (Returns b, w')
    ∧ (b = true
       ↔ ∀ f, f ∈ files → loads E (tenant_fixtures_dir tenant_name) f = true)
    ∧ trace w'
      = trace w
        ++ List.map (λ f, LoadData (path_join (tenant_fixtures_dir tenant_name) f))
             files
    ∧ connected_in w'.
Proof.
  intros Hready Hfiles.
  pose proof (no_invalid_some_fixture _ _ _ _ _ Hfiles) as Hsome.
  unfold load_ato_tenant_fixtures. rewrite Hready. cbn [negb].
  fold (tenant_fixtures_dir tenant_name). rewrite Hfiles.
  clear Hfiles Hready.
  set (directory := tenant_fixtures_dir tenant_name).
  destruct files as [|f0 rest0]; [done|]. clear Hsome.
  set (files := f0 :: rest0).
  unfold bind at 1.
  destruct (disconnect_audit_signals_run w) as [w1 Hd]. rewrite Hd.
  assert (trace w1 = trace w) as Ht1.
  { revert Hd. unfold disconnect_audit_signals, disconnect, update_receivers, bind.
    cbn. by intros [= <-]. }
  unfold try_finally, try_except. unfold bind at 1.
  destruct (load_each_ato_run directory files [] [] w1)
    as (failed & w2 & -> & Hfailed & Htrace & _).
  cbn [app List.map] in Hfailed. cbn [app].
  destruct (connect_audit_signals_run w2) as (w3 & Hconnect & Ht3 & Hconn).
  destruct failed as [|[f1 m1] failed].
  - symmetry in Hfailed. cbn [List.map] in Hfailed.
    pose proof (proj1 (filter_nil_all (loads E directory) files) Hfailed) as Hall.
    assert (List.filter (loads E directory) files
            = f0 :: List.filter (loads E directory) rest0) as ->.
    { subst files. cbn [List.filter]. rewrite Hall; [done|by left]. }
    cbn [ret]. rewrite Hconnect.
    exists true, w3. split_and!; try done. by rewrite Ht3, Htrace, Ht1.
  - cbn [ret]. rewrite Hconnect.
    exists false, w3. split_and!; try done.
    + split; [done|]. intros Hall. apply (filter_nil_all (loads E directory) files) in Hall.
      rewrite Hall in Hfailed. done.
    + by rewrite Ht3, Htrace, Ht1.
Qed.

(** X22. [load_ato_tenant_fixtures], when the directory is ready and
    no file is invalid: every fixture is given to [loaddata], in ascending
    order of name, also after one that failed; the result is [True] exactly
    when every fixture loaded, and [False] otherwise; no exception leaves
    the function, and the audit handlers are connected at the end. *)
Theorem tenant_load_attempts_every_fixture fs tenant_name verbose remote_bucket w
    fs' files skipped warning :
  check_ato_workflow_completion fetch fs tenant_name remote_bucket = (true, fs') →
  get_ato_fixture_files fs' (tenant_fixtures_dir tenant_name)
  = FixtureFiles files skipped [] warning →
  let load := load_ato_tenant_fixtures E fetch fs tenant_name verbose remote_bucket in
  let directory := tenant_fixtures_dir tenant_name in
  new_events load w = List.map (λ f, LoadData (path_join directory f)) files
  ∧ (fst (load w) = Returns true ↔ ∀ f, f ∈ files → loads E directory f = true)
  ∧ (fst (load w) = Returns true ∨ fst (load w) = Returns false)
  ∧ connected_in (snd (load w)).
Proof.
  intros Hready Hfiles. cbv zeta.
  destruct (load_ato_tenant_fixtures_run fs tenant_name verbose remote_bucket w
              fs' files skipped warning Hready Hfiles)
    as (b & w' & Hrun & Hb & Htrace & Hconn).
  unfold new_events. rewrite Hrun. cbn [fst snd]. split_and!.
  - by rewrite Htrace, drop_app_length.
  - rewrite <- Hb. split; [by intros [= ->]|by intros ->].
  - destruct b; [by left|by right].
  - done.
Qed.

(** X23. [load_ato_tenant_fixtures] with an invalid [.json] file in
    the directory of the tenant: the result is [False], and nothing is
    loaded and no signal is touched, however many valid files there are. *)
Theorem one_invalid_file_blocks_the_tenant fs tenant_name verbose remote_bucket w
    entries json_file :
  snd (check_ato_workflow_completion fetch fs tenant_name remote_bucket)
    (tenant_fixtures_dir tenant_name) = Some entries →
  json_file ∈ List.map fst entries →
  Str.endswith ".json" json_file = true →
  fst (validate_ato_fixture_file (read_tenant_file json_file entries)) = false →
  load_ato_tenant_fixtures E fetch fs tenant_name verbose remote_bucket w
  = (Returns false, w).
Proof.
  intros Hentries Hin Hjson Hinvalid.
  unfold load_ato_tenant_fixtures.
  destruct (check_ato_workflow_completion fetch fs tenant_name remote_bucket)
    as [[] fs']; [|done].
  cbn [snd negb] in *. fold (tenant_fixtures_dir tenant_name).
  unfold get_ato_fixture_files. rewrite Hentries.
  set (names := List.filter (Str.endswith ".json") (List.map fst entries)).
  assert (json_file ∈ names) as Hname.
  { apply list_elem_of_In, filter_In. by rewrite <- list_elem_of_In. }
  destruct names as [|n rest] eqn:Hnames; [by apply elem_of_nil in Hname|].
  rewrite <- Hnames in *. rewrite sort_out_spec. cbn [app].
  set (invalid_files :=
         List.map
           (λ n, (n, snd (validate_ato_fixture_file (read_tenant_file n entries))))
           (List.filter
              (λ n, negb (fst (validate_ato_fixture_file (read_tenant_file n entries))))
              names)).
  assert ((json_file,
           snd (validate_ato_fixture_file (read_tenant_file json_file entries)))
          ∈ invalid_files) as Hlisted.
  { apply list_elem_of_In, in_map_iff. exists json_file. split; [done|].
    apply filter_In. split; [by apply list_elem_of_In|].
    by rewrite Hinvalid. }
  destruct invalid_files as [|invalid invalid_files];
    [by apply elem_of_nil in Hlisted|].
  done.
Qed.

(** X24. [load_ato_tenant_fixtures] for a named tenant that has no
    directory: the result is [False] and nothing is loaded, with or without
    a remote bucket, as long as the fetch does not create the directory of
    that name: what was fetched is in [.temp], and the fixtures are looked
    for under the name of the tenant. *)
Theorem remote_bucket_does_not_serve_a_named_tenant fs tenant verbose remote_bucket w :
  tenant ≠ EmptyString →
  fs ("fixtures/tenants/" +:+ tenant) = None →
  fetch (str_option remote_bucket) fs ("fixtures/tenants/" +:+ tenant) = None →
  load_ato_tenant_fixtures E fetch fs (Some tenant) verbose remote_bucket w
  = (Returns false, w).
Proof.
  intros Hnamed Hlocal Hfetched.
  destruct tenant as [|c tenant]; [done|].
  unfold load_ato_tenant_fixtures, check_ato_workflow_completion.
  change (str_option (Some (String c tenant))) with (String c tenant).
  cbn [truthy]. rewrite Hlocal.
  destruct (truthy remote_bucket); cbn [negb]; [|done].
  destruct (fetch (str_option remote_bucket) fs "fixtures/tenants/.temp");
    cbn [negb]; [|done].
  unfold get_ato_fixture_files. by rewrite Hfetched.
Qed.

End TenantLoad.

(** ** The update of a data source, and what [load_catalogue] submits *)

Section Submitted.

Variable E : env.
Implicit Types (w : world).

(** A run of [load_catalogue] that gets as far as the update: what the
    update adds to the trace stands between the lines about the budget and
    the start of the job, and the update is run for the data source that
    was resolved. *)
Lemma load_catalogue_update_events w id w1 v iss :
  path_exists E (ai_kb_fixtures_dir E) = true →
  _get_or_create_catalogue_data_source E w = (Returns id, w1) →
  all_catalogue_urls E ≠ [] →
  validate E (all_catalogue_urls E) = Ok (v, iss) →
  (total_chars (deduplicate v) ≤ 3000)%nat →
  ∃ pre w3 post,
    data_source_id w3 = Some id
    ∧ new_events (load_catalogue E) w
      = pre
        ++ [Print (UrlStats (length (deduplicate v)) (total_chars (deduplicate v)));
            Print LimitOk]
        ++ new_events (_update_data_source_urls E (deduplicate v)) w3
        ++ [Print StartingJob;
            Call "start_ingestion_job"
              [kb_arg E; ("dataSourceId", JStr id);
               ("description",
                JStr ("LNine AI Knowledge Base ingestion - " ++ catalogue_name E
                      ++ " catalogue"))]]
        ++ post.
Proof.
  intros Hexists Hresolve Hurls Hvalid Hbudget.
  destruct (trace_extends (_get_or_create_catalogue_data_source E) any_value w)
    as [new1 Hnew1].
  { by apply get_or_create_emits. }
  rewrite Hresolve in Hnew1. cbn [snd] in Hnew1.
  set (w2 := snd (set_data_source_id id w1)).
  destruct (validate_run E _ _ _ w2 Hvalid) as [l Hv].
  destruct (deduplicate_run v (log [Print l] w2)) as [prints Hd].
  set (final := deduplicate v) in *.
  set (w3 := log [Print LimitOk]
               (log [Print (UrlStats (length final) (total_chars final))]
                  (log prints (log [Print l] w2)))).
  destruct (update_first_event E final w3) as [Hds _].
  destruct (hoare_new_events (λ _, True) (_update_data_source_urls E final) any_value w3)
    as [Hmid _].
  { by apply update_emits. }
  pose proof (update_returns E final w3) as Ho4.
  set (mid := new_events (_update_data_source_urls E final) w3) in *.
  destruct (_update_data_source_urls E final w3) as [o4 w4] eqn:Hupdate.
  cbn [fst snd] in *. subst o4.
  destruct (start_run E w4) as [rest Hstart].
  assert (load_catalogue E w
          = (job_id <- _start_ingestion_job E ;; after_start E final job_id) w4) as Hload.
  { unfold load_catalogue. rewrite Hexists. cbn [negb].
    erewrite bind_returns; [|exact Hresolve].
    erewrite bind_returns; [|reflexivity]. fold w2.
    destruct (all_catalogue_urls E) as [|u us] eqn:Hall; [done|].
    erewrite bind_returns; [|exact Hv].
    erewrite bind_returns; [|exact Hd].
    cbn zeta. fold final.
    erewrite bind_returns; [|reflexivity].
    apply Nat.ltb_ge in Hbudget. rewrite Hbudget.
    erewrite bind_returns; [|reflexivity]. fold w3.
    erewrite bind_returns; [|exact Hupdate].
    reflexivity. }
  assert (∃ post, trace (snd (load_catalogue E w))
                  = trace w4 ++ Print StartingJob
                      :: Call "start_ingestion_job"
                           [kb_arg E; ds_arg w4;
                            ("description",
                             JStr ("LNine AI Knowledge Base ingestion - "
                                   ++ catalogue_name E ++ " catalogue"))]
                      :: post) as [post Hpost].
  { rewrite Hload. unfold bind.
    destruct (_start_ingestion_job E w4) as [[job_id|e|] w5]; cbn [snd] in *.
    2,3: by eexists.
    destruct (trace_extends (after_start E final job_id) any_value w5) as [new5 Hnew5].
    { apply after_start_extends. }
    exists (rest ++ new5). rewrite Hnew5, Hstart, <- app_assoc. done. }
  exists (new1 ++ [Print l] ++ prints), w3, post.
  split; [subst w3 w2; reflexivity|].
  fold mid. clearbody mid.
  apply new_events_eq. rewrite Hpost, Hmid.
  unfold ds_arg. rewrite Hds.
  subst w3 w2. cbn [log trace set_data_source_id snd data_source_id json_of_id].
  rewrite Hnew1, <- !app_assoc. done.
Qed.

(** Everything an update adds to the trace. *)
Lemma update_events urls w :
  new_events (_update_data_source_urls E urls) w
  = Print (UpdatingDataSource (length urls))
    :: Call "get_data_source" [kb_arg E; ds_arg w]
    :: match get_data_source_reply E with
       | Raise e => [Print (ErrorUpdating (str_exn e))]
       | Ok ds =>
           match replace_seed_urls (seed_urls_of urls) (ds_configuration ds) with
           | Raise e => [Print (ErrorUpdating (str_exn e))]
           | Ok config =>
               let request :=
                 update_request E w (default (data_source_name E) (ds_name ds))
                   (default "Catalogue-specific data source" (ds_description ds))
                   config in
               Print UpdatedWebConfiguration
               :: Call "update_data_source" request
               :: match update_data_source_reply E (updates_done w) with
                  | Ok _ => [Print UpdatedOk]
                  | Raise e1 =>
                      if Str.contains "vectorIngestionConfiguration" (str_exn e1)
                      then [Print TryingWithoutVectorConfig;
                            Call "update_data_source" request;
                            Print
                              match update_data_source_reply E (S (updates_done w)) with
                              | Ok _ => UpdatedOkWithoutVectorConfig
                              | Raise e2 => StillFailed (str_exn e2)
                              end]
                      else [Print (ErrorUpdating (str_exn e1))]
                  end
           end
       end.
Proof.
  apply new_events_eq.
  unfold _update_data_source_urls, update_data_source, try_except, bind, call, lift.
  cbn.
  destruct (get_data_source_reply E) as [ds|e]; cbn;
    [|by rewrite <- !app_assoc].
  destruct (replace_seed_urls _ _) as [config|e]; cbn;
    [|by rewrite <- !app_assoc].
  destruct (update_data_source_reply E (updates_done w)) as [[]|e1]; cbn;
    [by rewrite <- !app_assoc|].
  destruct (Str.contains _ _); cbn; [|by rewrite <- !app_assoc].
  destruct (update_data_source_reply E (S (updates_done w))) as [[]|e2]; cbn;
    by rewrite <- !app_assoc.
Qed.

(** With a data source that is a web crawler, the update request of such a
    run carries the final list as the new seed URLs, and the job is started
    after it. *)
Lemma load_catalogue_submits w id w1 v iss ds config :
  path_exists E (ai_kb_fixtures_dir E) = true →
  _get_or_create_catalogue_data_source E w = (Returns id, w1) →
  all_catalogue_urls E ≠ [] →
  validate E (all_catalogue_urls E) = Ok (v, iss) →
  (total_chars (deduplicate v) ≤ 3000)%nat →
  get_data_source_reply E = Ok ds →
  replace_seed_urls (seed_urls_of (deduplicate v)) (ds_configuration ds) = Ok config →
  ∃ before after,
    new_events (load_catalogue E) w
    = before
      ++ Call "update_data_source"
           [("knowledgeBaseId", JStr (knowledge_base_id E));
            ("dataSourceId", JStr id);
            ("name", JStr (default (data_source_name E) (ds_name ds)));
            ("description",
             JStr (default "Catalogue-specific data source" (ds_description ds)
                   ++ " - Updated " ++ catalogue_name E ++ " URLs"));
            ("dataSourceConfiguration", config)]
         :: after
    ∧ Call "start_ingestion_job"
        [("knowledgeBaseId", JStr (knowledge_base_id E));
         ("dataSourceId", JStr id);
         ("description",
          JStr ("LNine AI Knowledge Base ingestion - " ++ catalogue_name E
                ++ " catalogue"))]
      ∈ after.
Proof.
  intros Hexists Hresolve Hurls Hvalid Hbudget Hget Hconfig.
  destruct (load_catalogue_update_events w id w1 v iss Hexists Hresolve Hurls Hvalid Hbudget)
    as (pre & w3 & post & Hid & Hnew).
  rewrite update_events, Hget, Hconfig in Hnew.
  assert (ds_arg w3 = ("dataSourceId", JStr id)) as Hds
    by (unfold ds_arg; by rewrite Hid).
  cbv zeta in Hnew. unfold update_request in Hnew. rewrite Hds in Hnew.
  eexists (pre ++ [_; _; _; _; _]), _. split.
  - rewrite Hnew, <- !app_assoc. cbn [app]. reflexivity.
  - unfold kb_arg. repeat (rewrite ?elem_of_cons, ?elem_of_app). naive_solver.
Qed.

End Submitted.

(** The rest of C4 holds. Updating an existing (web) data source: the
    current configuration is fetched with [get_data_source]; the request
    that is submitted keeps the name, appends [" - Updated <catalogue> URLs"]
    to the description and carries the fetched configuration in which only
    the seed URLs are replaced. The update never raises, and the ingestion
    job is started after it, whatever the replies to the updates were: in
    the two statements as [load_catalogue] has them, and in every run of
    [load_catalogue] that gets as far as the update. *)
Lemma update_replaces_seed_urls E urls w ds config :
  get_data_source_reply E = Ok ds →
  replace_seed_urls (seed_urls_of urls) (ds_configuration ds) = Ok config →
  let current_name := default (data_source_name E) (ds_name ds) in
  let current_description :=
    default "Catalogue-specific data source" (ds_description ds) in
  let request := update_request E w current_name current_description config in
  Dict.get "name" request = Some (JStr current_name)
  ∧ Dict.get "description" request
    = Some (JStr (current_description ++ " - Updated " ++ catalogue_name E ++ " URLs"))
  ∧ Dict.get "dataSourceConfiguration" request = Some config
  ∧ Dict.get "vectorIngestionConfiguration" request = None
  ∧ Dict.lookup seed_urls_path config = Some (seed_urls_of urls)
  ∧ (∀ path, diverges path seed_urls_path = true →
             Dict.lookup path config = Dict.lookup path (ds_configuration ds))
  ∧ List.filter is_service_call (new_events (_update_data_source_urls E urls) w)
    = Call "get_data_source" [kb_arg E; ds_arg w]
      :: Call "update_data_source" request
      :: (if rejected_for_vector_config (update_data_source_reply E (updates_done w))
          then [Call "update_data_source" request]
          else [])
  ∧ fst (_update_data_source_urls E urls w) = Returns tt
  ∧ existsb (is_call "start_ingestion_job")
      (new_events (_update_data_source_urls E urls ;;; _start_ingestion_job E) w)
    = true
  ∧ (∀ w' id w1 v iss,
       path_exists E (ai_kb_fixtures_dir E) = true →
       _get_or_create_catalogue_data_source E w' = (Returns id, w1) →
       all_catalogue_urls E ≠ [] →
       validate E (all_catalogue_urls E) = Ok (v, iss) →
       (total_chars (deduplicate v) ≤ 3000)%nat →
       existsb (is_call "start_ingestion_job") (new_events (load_catalogue E) w') = true).
Proof.
  intros Hget Hconfig. cbn zeta.
  destruct (replace_seed_urls_lookup _ _ _ Hconfig) as [Hseed Hframe].
  split_and!; try done.
  - by apply update_calls.
  - apply update_returns.
  - apply update_then_start.
  - intros w' id w1 v iss Hexists Hresolve Hurls Hvalid Hbudget.
    destruct (load_catalogue_proceeds E w' id w1 v iss Hexists Hresolve Hurls Hvalid Hbudget)
      as (pre & mid & post & ->).
    rewrite !existsb_app. cbn. by rewrite !orb_true_r.
Qed.

(** C4, where the code departs from it: when the first update is rejected
    with an error that names [vectorIngestionConfiguration], the update is
    tried once more with exactly the arguments of the first call, the same
    name, description and configuration: nothing is removed, and a
    [vectorIngestionConfiguration] that the fetched configuration holds is
    in the second request as it is in the first. The line printed before
    the retry says that it is made without it. The seed URLs of both
    requests are those of the new list, and the update does not raise. *)
Theorem update_retry_repeats_the_request E urls w ds config e :
  get_data_source_reply E = Ok ds →
  replace_seed_urls (seed_urls_of urls) (ds_configuration ds) = Ok config →
  update_data_source_reply E (updates_done w) = Raise e →
  Str.contains "vectorIngestionConfiguration" (str_exn e) = true →
  let request :=
    [("knowledgeBaseId", JStr (knowledge_base_id E));
     ("dataSourceId", json_of_id (data_source_id w));
     ("name", JStr (default (data_source_name E) (ds_name ds)));
     ("description",
      JStr (default "Catalogue-specific data source" (ds_description ds)
            ++ " - Updated " ++ catalogue_name E ++ " URLs"));
     ("dataSourceConfiguration", config)] in
  new_events (_update_data_source_urls E urls) w
  = [Print (UpdatingDataSource (length urls));
     Call "get_data_source"
       [("knowledgeBaseId", JStr (knowledge_base_id E));
        ("dataSourceId", json_of_id (data_source_id w))];
     Print UpdatedWebConfiguration;
     Call "update_data_source" request;
     Print TryingWithoutVectorConfig;
     Call "update_data_source" request;
     Print match update_data_source_reply E (S (updates_done w)) with
           | Ok _ => UpdatedOkWithoutVectorConfig
           | Raise second_error => StillFailed (str_exn second_error)
           end]
  ∧ Dict.lookup ["webConfiguration"; "sourceConfiguration"; "urlConfiguration"; "seedUrls"]
      config
    = Some (JList (List.map (λ url, JDict [("url", JStr url)]) urls))
  ∧ (∀ removed,
       Dict.lookup ["vectorIngestionConfiguration"] (ds_configuration ds) = Some removed →
       Dict.lookup ["vectorIngestionConfiguration"] config = Some removed)
  ∧ fst (_update_data_source_urls E urls w) = Returns tt.
Proof.
  intros Hget Hconfig Hfirst Hvic. cbn zeta.
  destruct (replace_seed_urls_lookup _ _ _ Hconfig) as [Hseed Hframe].
  split_and!.
  - by rewrite update_events, Hget, Hconfig, Hfirst, Hvic.
  - exact Hseed.
  - intros removed Hheld. by rewrite Hframe.
  - apply update_returns.
Qed.

(** C5. With a base directory, for a catalogue other than [base], the
    items are those of the base files followed by those of the catalogue's
    files. When [_validate_and_clean_urls] returns on them, it returns the
    trimmed URLs that it keeps of the base files, then those of the
    catalogue's files; [_deduplicate_urls] then returns a list without
    duplicates, with the same URLs, in the order of their first occurrences
    in the validated list. A run of [load_catalogue] that gets past the
    budget check prints the statistics of that list and runs the update
    with it; and when the data source is a web crawler, the update request
    carries that list as its seed URLs. *)
Theorem final_urls_first_seen_order E w v w1 :
  uses_base E = true →
  _validate_and_clean_urls E (all_catalogue_urls E) w = (Returns v, w1) →
  let base_urls := _load_catalogue_urls E base_fixtures_dir in
  let catalogue_urls := _load_catalogue_urls E (ai_kb_fixtures_dir E) in
  all_catalogue_urls E = base_urls ++ catalogue_urls
  ∧ v = List.map Str.strip (List.filter (retained E) (str_items base_urls))
        ++ List.map Str.strip (List.filter (retained E) (str_items catalogue_urls))
  ∧ ∃ final_urls w2,
      _deduplicate_urls v w1 = (Returns final_urls, w2)
      ∧ NoDup final_urls
      ∧ (∀ u, u ∈ final_urls ↔ u ∈ v)
      ∧ (∀ i j a b,
           final_urls !! i = Some a → final_urls !! j = Some b → (i < j)%nat →
           ∃ p q, index_of a v = Some p ∧ index_of b v = Some q ∧ (p < q)%nat)
      ∧ (∀ w' id w'',
           path_exists E (ai_kb_fixtures_dir E) = true →
           _get_or_create_catalogue_data_source E w' = (Returns id, w'') →
           all_catalogue_urls E ≠ [] →
           (total_chars final_urls ≤ 3000)%nat →
           (∃ pre w3 post,
              new_events (load_catalogue E) w'
              = pre
                ++ [Print (UrlStats (length final_urls) (total_chars final_urls));
                    Print LimitOk]
                ++ new_events (_update_data_source_urls E final_urls) w3
                ++ post)
           ∧ ∀ ds config,
               get_data_source_reply E = Ok ds →
               replace_seed_urls
                 (JList (List.map (λ url, JDict [("url", JStr url)]) final_urls))
                 (ds_configuration ds)
               = Ok config →
               Dict.lookup
                 ["webConfiguration"; "sourceConfiguration"; "urlConfiguration";
                  "seedUrls"] config
               = Some (JList (List.map (λ url, JDict [("url", JStr url)]) final_urls))
               ∧ ∃ before after,
                   new_events (load_catalogue E) w'
                   = before
                     ++ Call "update_data_source"
                          [("knowledgeBaseId", JStr (knowledge_base_id E));
                           ("dataSourceId", JStr id);
                           ("name", JStr (default (data_source_name E) (ds_name ds)));
                           ("description",
                            JStr (default "Catalogue-specific data source"
                                    (ds_description ds)
                                  ++ " - Updated " ++ catalogue_name E ++ " URLs"));
                           ("dataSourceConfiguration", config)]
                        :: after).
Proof.
  intros Hbase Hrun. cbn zeta.
  assert (∃ iss, validate E (all_catalogue_urls E) = Ok (v, iss)) as [iss Hvalid].
  { revert Hrun. unfold _validate_and_clean_urls, bind at 1, lift.
    destruct (validate E (all_catalogue_urls E)) as [[v' iss]|e]; [|done].
    cbn [ret]. unfold bind. destruct iss; cbn; intros [= <- _]; by eexists. }
  assert (all_catalogue_urls E
          = _load_catalogue_urls E base_fixtures_dir
            ++ _load_catalogue_urls E (ai_kb_fixtures_dir E)) as Hall.
  { unfold all_catalogue_urls. by rewrite Hbase. }
  split; [done|]. split.
  { apply validate_from_retained in Hvalid.
    rewrite Hvalid, Hall. unfold str_items.
    by rewrite flat_map_app, List.filter_app, List.map_app. }
  destruct (deduplicate_run v w1) as [prints Hd].
  exists (deduplicate v), (log prints w1). split; [done|].
  rewrite deduplicate_unseen. split_and!.
  - apply NoDup_unseen.
  - intros u. rewrite elem_of_unseen. split; [tauto|]. intros Hu. split; [done|].
    apply not_elem_of_empty.
  - apply unseen_order.
  - rewrite <- deduplicate_unseen.
    intros w' id w'' Hexists Hresolve Hurls Hbudget.
    split.
    + destruct (load_catalogue_update_events E w' id w'' v iss
                  Hexists Hresolve Hurls Hvalid Hbudget)
        as (pre & w3 & post & _ & ->).
      exists pre, w3. eexists. reflexivity.
    + intros ds config Hget Hconfig.
      split; [by apply (replace_seed_urls_lookup _ _ _ Hconfig)|].
      destruct (load_catalogue_submits E w' id w'' v iss ds config
                  Hexists Hresolve Hurls Hvalid Hbudget Hget Hconfig)
        as (before & after & Hnew & _).
      by exists before, after.
Qed.

(** C10. When the files yield some item but validation rejects every one
    of them, the load goes on (given the catalogue directory and a data
    source): the final list is empty and has 0 characters, the budget check
    passes, the update is run with 0 URLs and fetches the data source. When
    the data source is a web crawler, [update_data_source] is called with
    the fetched name and configuration, in which the seed URLs are the
    empty list, and the ingestion job is started after that call. Every
    update request carries the empty list; the job is started for the data
    source that was resolved; and the "no URLs found" line is not printed.
    That line is printed only when the files yield no item at all, and then
    the load returns [False]. *)
Theorem all_rejected_still_ingests :
  (∀ E w id w1 iss,
     path_exists E (ai_kb_fixtures_dir E) = true →
     _get_or_create_catalogue_data_source E w = (Returns id, w1) →
     all_catalogue_urls E ≠ [] →
     validate E (all_catalogue_urls E) = Ok ([], iss) →
     let new := new_events (load_catalogue E) w in
     let start :=
       Call "start_ingestion_job"
         [("knowledgeBaseId", JStr (knowledge_base_id E));
          ("dataSourceId", JStr id);
          ("description",
           JStr ("LNine AI Knowledge Base ingestion - " ++ catalogue_name E
                 ++ " catalogue"))] in
     Print (UrlStats 0 0) ∈ new
     ∧ Print LimitOk ∈ new
     ∧ Print (UpdatingDataSource 0) ∈ new
     ∧ Call "get_data_source"
         [("knowledgeBaseId", JStr (knowledge_base_id E)); ("dataSourceId", JStr id)]
       ∈ new
     ∧ (∀ ds config,
          get_data_source_reply E = Ok ds →
          replace_seed_urls (JList []) (ds_configuration ds) = Ok config →
          Dict.lookup
            ["webConfiguration"; "sourceConfiguration"; "urlConfiguration"; "seedUrls"]
            config
          = Some (JList [])
          ∧ ∃ before after,
              new
              = before
                ++ Call "update_data_source"
                     [("knowledgeBaseId", JStr (knowledge_base_id E));
                      ("dataSourceId", JStr id);
                      ("name", JStr (default (data_source_name E) (ds_name ds)));
                      ("description",
                       JStr (default "Catalogue-specific data source" (ds_description ds)
                             ++ " - Updated " ++ catalogue_name E ++ " URLs"));
                      ("dataSourceConfiguration", config)]
                   :: after
              ∧ start ∈ after)
     ∧ Forall submits_no_seed_urls new
     ∧ start ∈ new
     ∧ Print NoUrlsFound ∉ new)
  ∧ (∀ E w,
       Print NoUrlsFound ∈ new_events (load_catalogue E) w →
       all_catalogue_urls E = [])
  ∧ (∀ E w id w1,
       path_exists E (ai_kb_fixtures_dir E) = true →
       _get_or_create_catalogue_data_source E w = (Returns id, w1) →
       all_catalogue_urls E = [] →
       fst (load_catalogue E w) = Returns false
       ∧ last (new_events (load_catalogue E) w) = Some (Print NoUrlsFound)).
Proof.
  assert (∀ E w, all_catalogue_urls E ≠ [] →
                 Print NoUrlsFound ∉ new_events (load_catalogue E) w) as Hquiet.
  { intros E w Hurls Hin.
    pose proof (load_catalogue_emits E (λ ev, ev ≠ Print NoUrlsFound)) as Hload.
    destruct (hoare_new_events _ _ _ w
                (Hload ltac:(congruence) ltac:(done) ltac:(done) ltac:(done)
                   ltac:(done) ltac:(done) ltac:(done) Hurls ltac:(done)))
      as [_ HP].
    rewrite Forall_forall in HP. by apply (HP _ Hin). }
  split_and!.
  - intros E w id w1 iss Hexists Hresolve Hurls Hvalid. cbn zeta.
    destruct (load_catalogue_update_events E w id w1 [] iss Hexists Hresolve Hurls Hvalid)
      as (pre & w3 & post & Hid & Hnew); [cbn; lia|].
    change (deduplicate []) with (@nil string) in Hnew.
    change (length (@nil string)) with 0%nat in Hnew.
    change (total_chars []) with 0%nat in Hnew.
    rewrite update_events in Hnew.
    assert (ds_arg w3 = ("dataSourceId", JStr id)) as Hds
      by (unfold ds_arg; by rewrite Hid).
    rewrite Hds in Hnew. change (length (@nil string)) with 0%nat in Hnew.
    set (start := Call "start_ingestion_job" _) in *.
    assert (start ∈ [Print StartingJob; start] ++ post) as Hstart.
    { apply elem_of_app. left. right. by left. }
    split_and!.
    1-4: rewrite Hnew, !elem_of_app, !elem_of_cons; naive_solver.
    + intros ds config Hget Hconfig.
      split; [by apply (replace_seed_urls_lookup _ _ _ Hconfig)|].
      apply (load_catalogue_submits E w id w1 [] iss ds config); try done.
      cbn. lia.
    + clear Hnew.
      pose proof (load_catalogue_emits E submits_no_seed_urls) as Hload.
      eapply (hoare_new_events _ _ any_value), Hload; try done.
      * intros method kwargs Hm kwargs' [= -> ->]. done.
      * intros v iss' w' name description config config' Hv Hc kwargs [= <-].
        rewrite Hvalid in Hv. injection Hv as <- <-.
        exists config'. split; [done|].
        by apply (replace_seed_urls_lookup _ _ _ Hc).
    + rewrite Hnew. do 3 (apply elem_of_app; right). exact Hstart.
    + by apply Hquiet.
  - intros E w Hin.
    destruct (all_catalogue_urls E) as [|u us] eqn:Hurls; [done|].
    exfalso. apply (Hquiet E w); [by rewrite Hurls|done].
  - intros E w id w1. apply load_catalogue_no_urls.
Qed.

(** ** The further theorems at concrete inputs *)

Lemma validated_urls_are_stable_witness :
  validate layered_env [JStr " https://c.example/z "; JStr "not-a-url"]
  = Ok (["https://c.example/z"], [InvalidFormat "not-a-url"])
  ∧ ∃ iss', validate layered_env [JStr "https://c.example/z"]
            = Ok (["https://c.example/z"], iss').
Proof.
  assert (validate layered_env [JStr " https://c.example/z "; JStr "not-a-url"]
          = Ok (["https://c.example/z"], [InvalidFormat "not-a-url"])) as Hvalid
    by reflexivity.
  split; [exact Hvalid|].
  destruct (validated_urls_are_stable layered_env _ _ _ Hvalid) as [_ (iss' & Hv & _)].
  by exists iss'.
Defined.

Lemma catalogue_urls_in_file_name_order_witness :
  _load_catalogue_urls layered_env "fixtures/ai_kb/demo"
  = _load_catalogue_urls relisted_env "fixtures/ai_kb/demo".
Proof.
  refine (proj2 (catalogue_urls_in_file_name_order layered_env relisted_env
                   "fixtures/ai_kb/demo" _ _ eq_refl eq_refl _ _)).
  - apply Permutation_swap.
  - apply (bool_decide_unpack _). by vm_compute.
Defined.

Lemma existing_data_source_is_reused_witness :
  found_data_source over_budget_env = Some ("fixtures-demo-kb-source", "DS1")
  ∧ fst (_get_or_create_catalogue_data_source over_budget_env w0) = Returns "DS1".
Proof.
  assert (found_data_source over_budget_env = Some ("fixtures-demo-kb-source", "DS1"))
    as Hfound by reflexivity.
  split; [exact Hfound|].
  exact (proj1 (proj2 (existing_data_source_is_reused over_budget_env w0 _ Hfound))).
Defined.

Lemma created_data_source_is_seeded_witness :
  found_data_source fresh_env = None
  ∧ validate fresh_env (all_catalogue_urls fresh_env)
    = Ok (["https://a.example/x"; "https://a.example/x"], [])
  ∧ fst (_get_or_create_catalogue_data_source fresh_env w0) = Returns "DS2".
Proof.
  assert (found_data_source fresh_env = None) as Hfound by reflexivity.
  assert (validate fresh_env (all_catalogue_urls fresh_env)
          = Ok (["https://a.example/x"; "https://a.example/x"], [])) as Hvalid
    by reflexivity.
  assert (total_chars (deduplicate ["https://a.example/x"; "https://a.example/x"])
          ≤ 3000)%nat as Hbudget by (apply Nat.leb_le; vm_compute; reflexivity).
  split; [exact Hfound|]. split; [exact Hvalid|].
  destruct (created_data_source_is_seeded fresh_env w0 _ _ Hfound Hvalid Hbudget)
    as (kwargs & _ & _ & _ & _ & _ & Hout).
  exact Hout.
Defined.

Lemma update_skipped_witness :
  get_data_source_reply bucket_env
  = Ok {| ds_name := Some "fixtures-demo-kb-source";
          ds_description := None;
          ds_configuration := JDict [("type", JStr "S3")] |}
  ∧ ∃ e, _update_data_source_urls bucket_env ["https://a.example/x"] w0
         = (Returns tt,
            log [Print (ErrorUpdating (str_exn e))]
              (log [Call "get_data_source" [kb_arg bucket_env; ds_arg w0]]
                 (log [Print (UpdatingDataSource 1)] w0))).
Proof.
  split; [reflexivity|].
  refine (proj2 (update_skipped_when_not_web_crawler bucket_env ["https://a.example/x"] w0)
            _ eq_refl _).
  cbn. discriminate.
Defined.

Lemma seed_urls_last_write_wins_witness :
  replace_seed_urls (seed_urls_of ["https://b.example/"])
    (new_web_configuration (seed_urls_of ["https://a.example/"]))
  = Ok (new_web_configuration (seed_urls_of ["https://b.example/"]))
  ∧ replace_seed_urls (seed_urls_of ["https://c.example/"])
      (new_web_configuration (seed_urls_of ["https://b.example/"]))
    = replace_seed_urls (seed_urls_of ["https://c.example/"])
        (new_web_configuration (seed_urls_of ["https://a.example/"])).
Proof.
  assert (replace_seed_urls (seed_urls_of ["https://b.example/"])
            (new_web_configuration (seed_urls_of ["https://a.example/"]))
          = Ok (new_web_configuration (seed_urls_of ["https://b.example/"]))) as Hfirst
    by reflexivity.
  split; [exact Hfirst|].
  exact (proj1 (seed_urls_last_write_wins _ (seed_urls_of ["https://c.example/"]) _ _
                  Hfirst)).
Defined.

Lemma fixtures_loaded_only_on_success_witness :
  fst (load_catalogue failing_env w0) ≠ Returns true
  ∧ Forall (λ ev, is_fixture_event ev = false) (new_events (load_catalogue failing_env) w0).
Proof.
  assert (fst (load_catalogue failing_env w0) ≠ Returns true) as Hfail
    by (vm_compute; discriminate).
  split; [exact Hfail|].
  exact (fixtures_loaded_only_on_success failing_env w0 Hfail).
Defined.

Lemma load_keeps_audit_handlers_connected_witness :
  audit_connected (receivers_of w0)
  ∧ audit_connected (receivers_of (snd (load_catalogue layered_env w0))).
Proof.
  assert (audit_connected (receivers_of w0)) as Hconnected.
  { unfold audit_connected. cbn. split_and!; by left. }
  split; [exact Hconnected|].
  exact (load_keeps_audit_handlers_connected layered_env w0 Hconnected).
Defined.

Lemma wait_is_bounded_witness :
  (∀ k, (latency stuck_env k ≤ 0)%N)
  ∧ (N.of_nat (polls_done (snd (_wait_for_ingestion_completion stuck_env "JOB1" 1 w0))
               - polls_done w0) ≤ 2 * 1)%N.
Proof.
  assert (∀ k, (latency stuck_env k ≤ 0)%N) as Hlatency by (intros k; reflexivity).
  split; [exact Hlatency|].
  exact (proj1 (wait_is_bounded stuck_env "JOB1" 1 0 w0 Hlatency)).
Defined.

Lemma load_fixtures_stops_at_first_failure_witness :
  listdir fixtures_env fixtures_dir
  = Ok ["30_teams.json"; "colors.json"; "10_users.json"; "README.md"; "20_roles.json"]
  ∧ Sorted str_le
      (Str.sort (List.filter is_loaded_fixture
                   ["30_teams.json"; "colors.json"; "10_users.json"; "README.md";
                    "20_roles.json"])).
Proof.
  assert (listdir fixtures_env fixtures_dir
          = Ok ["30_teams.json"; "colors.json"; "10_users.json"; "README.md";
                "20_roles.json"]) as Hnames by reflexivity.
  assert (NoDup ["30_teams.json"; "colors.json"; "10_users.json"; "README.md";
                 "20_roles.json"]) as Hnd
    by (apply (bool_decide_unpack _); by vm_compute).
  split; [exact Hnames|].
  exact (proj1 (load_fixtures_stops_at_first_failure fixtures_env w0 _ Hnames Hnd)).
Defined.

Example fixtures_after_a_failure_are_not_loaded :
  List.filter is_fixture_event (new_events (load_fixtures fixtures_env) w0)
  = [LoadData "fixtures/10_users.json"; LoadData "fixtures/20_roles.json"]
  ∧ fst (load_fixtures fixtures_env w0) = Raises (Exception "IntegrityError").
Proof. by vm_compute. Qed.

Lemma demo_script_loads args c w :
  c ∈ available_catalogues (demo_script args) →
  (c = "big" ∧ fst (load_catalogue (loader_env (demo_script args) c) w) = Returns false)
  ∨ (c = "nist" ∧ fst (load_catalogue (loader_env (demo_script args) c) w) = Returns true).
Proof.
  change (available_catalogues (demo_script args)) with ["big"; "nist"].
  intros Hc. apply elem_of_cons in Hc as [->|Hc]; [left|right].
  - split; [done|].
    apply (load_returns_false_when _ w ("fixtures-big-kb-source", "DS1") [long_url]
             [VeryLong 3018 (Str.take 50 long_url)]).
    + reflexivity.
    + reflexivity.
    + by vm_compute.
    + vm_compute. reflexivity.
    + apply Nat.ltb_lt. vm_compute. reflexivity.
  - apply list_elem_of_singleton in Hc as ->. split; [done|].
    apply (load_returns_true_when _ w ("fixtures-nist-kb-source", "DS2")
             ["https://a.example/x"] [] "JOB1").
    + reflexivity.
    + reflexivity.
    + by vm_compute.
    + reflexivity.
    + apply Nat.leb_le. vm_compute. reflexivity.
    + reflexivity.
    + intros p. reflexivity.
Qed.

Lemma single_catalogue_exit_status_witness :
  requested (demo_script [" NIST "]) = Some "nist"
  ∧ "nist" ≠ "all"
  ∧ (fst (load_ai_knowledge_base (demo_script [" NIST "]) w0) = Returns 0%nat
     ↔ ("nist" ∈ known_catalogues ∨ "nist" ∈ available_catalogues (demo_script [" NIST "]))
       ∧ fst (load_catalogue (loader_env (demo_script [" NIST "]) "nist")
                (snd (new_loader w0))) = Returns true).
Proof.
  assert (requested (demo_script [" NIST "]) = Some "nist") as Hrequested by reflexivity.
  assert ("nist" ≠ "all") as Hc by discriminate.
  split; [exact Hrequested|]. split; [exact Hc|].
  exact (proj1 (proj2 (single_catalogue_exit_status (demo_script [" NIST "]) w0 "nist"
                         Hrequested Hc))).
Defined.

Lemma all_mode_loads_every_catalogue_witness :
  requested (demo_script ["all"]) = Some "all"
  ∧ available_catalogues (demo_script ["all"]) = ["big"; "nist"]
  ∧ List.filter is_batch_event (new_events (load_ai_knowledge_base (demo_script ["all"])) w0)
    = batch_events (demo_script ["all"]) ["big"; "nist"]
  ∧ fst (load_ai_knowledge_base (demo_script ["all"]) w0) = Returns 1%nat.
Proof.
  assert (requested (demo_script ["all"]) = Some "all") as Hrequested by reflexivity.
  assert (NoDup (available_catalogues (demo_script ["all"]))) as Hnd
    by (apply (bool_decide_unpack _); by vm_compute).
  assert (∀ c, c ∈ available_catalogues (demo_script ["all"]) →
               ∀ w', ∃ b, fst (load_catalogue (loader_env (demo_script ["all"]) c) w')
                          = Returns b) as Hreturns.
  { intros c Hc w'.
    destruct (demo_script_loads ["all"] c w' Hc) as [[_ H]|[_ H]]; by eexists. }
  split; [exact Hrequested|]. split; [reflexivity|].
  pose proof (all_mode_loads_every_catalogue (demo_script ["all"]) w0
                Hrequested Hnd Hreturns) as H.
  cbv zeta in H. split; [exact (proj1 H)|].
  apply (proj1 (proj2 (proj2 H))).
  exists "big". split.
  - change (available_catalogues (demo_script ["all"])) with ["big"; "nist"]. by left.
  - intros w'.
    destruct (demo_script_loads ["all"] "big" w') as [[_ Hbig]|[Hne _]];
      [|exact Hbig|discriminate Hne].
    change (available_catalogues (demo_script ["all"])) with ["big"; "nist"]. by left.
Defined.

Lemma all_mode_stops_at_an_exception_witness :
  requested refused_script = Some "all"
  ∧ available_catalogues refused_script = [] ++ "big" :: ["nist"]
  ∧ fst (load_ai_knowledge_base refused_script w0) = Returns 1%nat
  ∧ List.filter is_batch_event (new_events (load_ai_knowledge_base refused_script) w0)
    = batch_events refused_script ["big"].
Proof.
  assert (requested refused_script = Some "all") as Hrequested by reflexivity.
  assert (NoDup (available_catalogues refused_script)) as Hnd
    by (apply (bool_decide_unpack _); by vm_compute).
  assert (available_catalogues refused_script = [] ++ "big" :: ["nist"]) as Hav
    by reflexivity.
  assert (∀ w', ∃ e, fst (load_catalogue (loader_env refused_script "big") w') = Raises e)
    as Hraises.
  { intros w'. exists (Exception "URL character limit exceeded: 3018 > 3000").
    destruct (load_catalogue_outcome (loader_env refused_script "big") w')
      as (w5 & _ & ->).
    rewrite (get_or_create_outcome (loader_env refused_script "big") w').
    vm_compute. reflexivity. }
  split; [exact Hrequested|]. split; [exact Hav|].
  refine (all_mode_stops_at_an_exception refused_script w0 [] "big" ["nist"]
            Hrequested Hnd Hav _ Hraises).
  intros d Hd. by apply elem_of_nil in Hd.
Defined.

Example batch_of_the_demo_script :
  List.filter is_batch_event (new_events (load_ai_knowledge_base (demo_script ["all"])) w0)
  = [Call "list_data_sources" [("knowledgeBaseId", JStr "KB1")];
     Sleep 60;
     Call "list_data_sources" [("knowledgeBaseId", JStr "KB1")]]
  ∧ fst (load_ai_knowledge_base (demo_script ["all"]) w0) = Returns 1%nat
  ∧ fst (load_ai_knowledge_base (demo_script ["nist"]) w0) = Returns 0%nat
  ∧ fst (load_ai_knowledge_base (demo_script ["fedramp"]) w0) = Returns 1%nat
  ∧ fst (load_ai_knowledge_base (demo_script []) w0) = Returns 1%nat.
Proof. by vm_compute. Qed.

Lemma many_empty_fields_hide_the_critical_ones_witness :
  "name" ∈ empty_fields sparse_records
  ∧ fst (validate_ato_fixture_file (Records sparse_records)) = true
  ∧ Str.contains "Warning:" (snd (validate_ato_fixture_file (Records sparse_records)))
    = true.
Proof.
  assert (sparse_records ≠ []) as Hdata by discriminate.
  assert (well_formed sparse_records) as Hwf
    by (repeat constructor; discriminate).
  pose proof (many_empty_fields_hide_the_critical_ones sparse_records Hdata Hwf) as H.
  cbv zeta in H. destruct H as [Hvalid Hwarning].
  assert (5 < length (empty_fields sparse_records))%nat as Hmany
    by (vm_compute; lia).
  split; [by left|].
  assert (fst (validate_ato_fixture_file (Records sparse_records)) = true) as Hv
    by (apply Hvalid; by left).
  split; [exact Hv|]. by apply (Hwarning Hv).
Defined.

Example a_few_empty_fields_do_not :
  fst (validate_ato_fixture_file (Records unnamed_records)) = false
  ∧ fst (validate_ato_fixture_file (Records users_records)) = true.
Proof. by vm_compute. Qed.

Lemma tenant_files_are_sorted_out_witness :
  ∃ entries,
    acme_fs "fixtures/tenants/acme" = Some entries
    ∧ List.filter (Str.endswith ".json") (List.map fst entries)
      = ["b_users.json"; "a_org.json"]
    ∧ get_ato_fixture_files acme_fs "fixtures/tenants/acme"
      = FixtureFiles ["a_org.json"; "b_users.json"] [] []
          [("a_org.json", "Warning: 6 empty fields (may need population)")].
Proof.
  assert (get_ato_fixture_files acme_fs "fixtures/tenants/acme"
          = FixtureFiles ["a_org.json"; "b_users.json"] [] []
              [("a_org.json", "Warning: 6 empty fields (may need population)")])
    as Hfiles by (vm_compute; reflexivity).
  destruct (tenant_files_are_sorted_out acme_fs "fixtures/tenants/acme" _ _ _ _ Hfiles)
    as (entries & Hentries & _).
  exists entries. split; [exact Hentries|].
  split; [|exact Hfiles].
  assert (entries = [("b_users.json", Records users_records); ("notes.txt", NotAList);
                     ("a_org.json", Records sparse_records)]) as ->
    by (apply (inj Some); rewrite <- Hentries; reflexivity).
  by vm_compute.
Defined.

Lemma tenant_load_attempts_every_fixture_witness :
  new_events (load_ato_tenant_fixtures acme_env no_fetch acme_fs (Some "acme") false None) w0
  = [LoadData "fixtures/tenants/acme/a_org.json";
     LoadData "fixtures/tenants/acme/b_users.json"]
  ∧ fst (load_ato_tenant_fixtures acme_env no_fetch acme_fs (Some "acme") false None w0)
    ≠ Returns true
  ∧ connected_in
      (snd (load_ato_tenant_fixtures acme_env no_fetch acme_fs (Some "acme") false None w0)).
Proof.
  assert (check_ato_workflow_completion no_fetch acme_fs (Some "acme") None
          = (true, acme_fs)) as Hready by (vm_compute; reflexivity).
  assert (get_ato_fixture_files acme_fs (tenant_fixtures_dir (Some "acme"))
          = FixtureFiles ["a_org.json"; "b_users.json"] [] []
              [("a_org.json", "Warning: 6 empty fields (may need population)")])
    as Hfiles by (vm_compute; reflexivity).
  pose proof (tenant_load_attempts_every_fixture acme_env no_fetch acme_fs (Some "acme")
                false None w0 _ _ _ _ Hready Hfiles) as H.
  cbv zeta in H. destruct H as (Hevents & Htrue & _ & Hconn).
  split; [exact Hevents|]. split; [|exact Hconn].
  intros Hreturned.
  pose proof (proj1 Htrue Hreturned "a_org.json" (list_elem_of_here _ _)) as Hloads.
  vm_compute in Hloads. discriminate Hloads.
Defined.

Lemma one_invalid_file_blocks_the_tenant_witness :
  load_ato_tenant_fixtures acme_env no_fetch broken_fs (Some "acme") true None w0
  = (Returns false, w0).
Proof.
  apply (one_invalid_file_blocks_the_tenant acme_env no_fetch broken_fs (Some "acme")
           true None w0
           [("b_users.json", Records users_records);
            ("c_contacts.json", Records unnamed_records)]
           "c_contacts.json").
  - reflexivity.
  - right. by left.
  - reflexivity.
  - reflexivity.
Defined.

Lemma remote_bucket_does_not_serve_a_named_tenant_witness :
  load_ato_tenant_fixtures acme_env fetch_to_temp acme_fs (Some "globex") false
    (Some "tenant-bucket") w0
  = (Returns false, w0)
  ∧ fst (load_ato_tenant_fixtures acme_env fetch_to_temp acme_fs None false
           (Some "tenant-bucket") w0)
    = Returns true.
Proof.
  split; [|by vm_compute].
  apply (remote_bucket_does_not_serve_a_named_tenant acme_env fetch_to_temp acme_fs
           "globex" false (Some "tenant-bucket") w0).
  - discriminate.
  - reflexivity.
  - reflexivity.
Defined.

Lemma update_retry_witness :
  Dict.lookup ["vectorIngestionConfiguration"]
    (vector_configuration ["https://old.example/"])
  = Some (JDict [("parsingConfiguration",
                  JDict [("parsingStrategy", JStr "BEDROCK_FOUNDATION_MODEL")])])
  ∧ (let request :=
       [("knowledgeBaseId", JStr "KB1");
        ("dataSourceId", JNull);
        ("name", JStr "fixtures-demo-kb-source");
        ("description", JStr "Fixture-managed data source - Updated demo URLs");
        ("dataSourceConfiguration", vector_configuration ["https://a.example/x"])] in
     new_events (_update_data_source_urls vector_config_env ["https://a.example/x"]) w0
     = [Print (UpdatingDataSource 1);
        Call "get_data_source" [("knowledgeBaseId", JStr "KB1"); ("dataSourceId", JNull)];
        Print UpdatedWebConfiguration;
        Call "update_data_source" request;
        Print TryingWithoutVectorConfig;
        Call "update_data_source" request;
        Print (StillFailed "ValidationException")]).
Proof.
  split; [reflexivity|].
  assert (get_data_source_reply vector_config_env
          = Ok {| ds_name := Some "fixtures-demo-kb-source";
                  ds_description := Some "Fixture-managed data source";
                  ds_configuration := vector_configuration ["https://old.example/"] |})
    as Hget by reflexivity.
  assert (replace_seed_urls (seed_urls_of ["https://a.example/x"])
            (vector_configuration ["https://old.example/"])
          = Ok (vector_configuration ["https://a.example/x"])) as Hconfig by reflexivity.
  assert (update_data_source_reply vector_config_env (updates_done w0)
          = Raise (Exception
                     "ValidationException: vectorIngestionConfiguration cannot be updated"))
    as Hfirst by reflexivity.
  assert (Str.contains "vectorIngestionConfiguration"
            (str_exn (Exception
                        "ValidationException: vectorIngestionConfiguration cannot be updated"))
          = true) as Hvic by reflexivity.
  exact (proj1 (update_retry_repeats_the_request vector_config_env
                  ["https://a.example/x"] w0 _ _ _ Hget Hconfig Hfirst Hvic)).
Defined.

Lemma first_seen_order_witness :
  uses_base layered_env = true
  ∧ _validate_and_clean_urls layered_env (all_catalogue_urls layered_env) w0
    = (Returns ["https://a.example/x"; "https://b.example/y"; "https://b.example/y";
                "https://c.example/z"],
       log [Print (UrlIssues [InvalidFormat "not-a-url"] 4 5)] w0)
  ∧ ∃ final_urls w2,
      _deduplicate_urls
        ["https://a.example/x"; "https://b.example/y"; "https://b.example/y";
         "https://c.example/z"]
        (log [Print (UrlIssues [InvalidFormat "not-a-url"] 4 5)] w0)
      = (Returns final_urls, w2)
      ∧ NoDup final_urls.
Proof.
  assert (uses_base layered_env = true) as Hbase by reflexivity.
  assert (_validate_and_clean_urls layered_env (all_catalogue_urls layered_env) w0
          = (Returns ["https://a.example/x"; "https://b.example/y"; "https://b.example/y";
                      "https://c.example/z"],
             log [Print (UrlIssues [InvalidFormat "not-a-url"] 4 5)] w0)) as Hvalid
    by reflexivity.
  split; [exact Hbase|]. split; [exact Hvalid|].
  destruct (final_urls_first_seen_order layered_env w0 _ _ Hbase Hvalid)
    as (_ & _ & final_urls & w2 & Hrun & Hnodup & _).
  by exists final_urls, w2.
Defined.

Lemma all_rejected_witness :
  path_exists rejected_env (ai_kb_fixtures_dir rejected_env) = true
  ∧ fst (_get_or_create_catalogue_data_source rejected_env w0) = Returns "DS1"
  ∧ all_catalogue_urls rejected_env ≠ []
  ∧ validate rejected_env (all_catalogue_urls rejected_env)
    = Ok ([], [InvalidFormat "not-a-url"; EmptyUrl 2])
  ∧ (∃ before after,
       new_events (load_catalogue rejected_env) w0
       = before
         ++ Call "update_data_source"
              [("knowledgeBaseId", JStr "KB1");
               ("dataSourceId", JStr "DS1");
               ("name", JStr "fixtures-demo-kb-source");
               ("description", JStr "Fixture-managed data source - Updated demo URLs");
               ("dataSourceConfiguration", new_web_configuration (JList []))]
            :: after)
  ∧ Print NoUrlsFound ∉ new_events (load_catalogue rejected_env) w0.
Proof.
  assert (path_exists rejected_env (ai_kb_fixtures_dir rejected_env) = true)
    as Hexists by reflexivity.
  assert (_get_or_create_catalogue_data_source rejected_env w0
          = (Returns "DS1", snd (_get_or_create_catalogue_data_source rejected_env w0)))
    as Hresolve by reflexivity.
  assert (all_catalogue_urls rejected_env ≠ []) as Hurls by (vm_compute; discriminate).
  assert (validate rejected_env (all_catalogue_urls rejected_env)
          = Ok ([], [InvalidFormat "not-a-url"; EmptyUrl 2])) as Hvalid by reflexivity.
  split; [exact Hexists|]. split; [reflexivity|]. split; [exact Hurls|].
  split; [exact Hvalid|].
  pose proof (proj1 all_rejected_still_ingests rejected_env w0 _ _ _
                Hexists Hresolve Hurls Hvalid) as H.
  cbv zeta in H.
  destruct H as (_ & _ & _ & _ & Hupdate & _ & _ & Hquiet).
  split; [|exact Hquiet].
  destruct (Hupdate (web_data_source ["https://old.example/"])
              (new_web_configuration (JList [])) eq_refl eq_refl)
    as (_ & before & after & Hnew & _).
  by exists before, after.
Defined.

(** An item that is no string ends the load with the [AttributeError] of
    [strip]; and a [catalogue_info.json] that holds no dict, or cannot be
    read, leaves the compliance framework alone. *)
Example null_item_aborts_the_load :
  fst (load_catalogue null_item_env w0)
  = Raises (AttributeError "'NoneType' object has no attribute 'strip'").
Proof. by vm_compute. Qed.

Example framework_needs_a_readable_dict :
  List.filter is_fixture_event (new_events (_load_django_fixtures layered_env) w0)
  = [UpsertFramework]
  ∧ List.filter is_fixture_event (new_events (_load_django_fixtures listed_info_env) w0)
    = []
  ∧ List.filter is_fixture_event (new_events (_load_django_fixtures unreadable_info_env) w0)
    = [].
Proof. by vm_compute. Qed.
